(** * Homa sockets and plumbing: a shallow embedding of homa_sock.c and of
    the system-call glue that follows it (bind, connect, shutdown, sendmsg,
    recvmsg and the ICMP error handlers), with the properties that the
    specification states about them.

    Conventions.
    - A C [int] result is a [Z]: [0] for success, [- E] for errno [E].
    - Objects that the C code reaches through pointers (sockets, RPCs,
      network namespaces) live in finite maps keyed by their address, so
      that pointer comparisons such as [owner != hsk] keep their meaning.
    - Calls whose callee is outside the two files (buffer pool, waiting,
      message filling, copies from and to user space) take their outcome
      from an explicit environment record and leave an [event] in the
      kernel log, which is how orderings between such calls are stated.
    - Locks, reference counts, metrics and time traces are not modelled. *)

From stdpp Require Import base numbers option list gmap.
From Stdlib Require Import ZArith Lia.
Local Open Scope Z_scope.

(** ** Linux constants used by the two files *)

Definition EINTR : Z := 4.
Definition EAGAIN : Z := 11.
Definition EWOULDBLOCK : Z := EAGAIN.
Definition ENOMEM : Z := 12.
Definition EFAULT : Z := 14.
Definition EINVAL : Z := 22.
Definition EPROTONOSUPPORT : Z := 93.
Definition EAFNOSUPPORT : Z := 97.
Definition EADDRINUSE : Z := 98.
Definition EADDRNOTAVAIL : Z := 99.
Definition EISCONN : Z := 106.
Definition ENOTCONN : Z := 107.
Definition ESHUTDOWN : Z := 108.
Definition EHOSTUNREACH : Z := 113.
Definition ERESTARTSYS : Z := 512.

Definition AF_INET : Z := 2.
Definition AF_INET6 : Z := 10.
Definition MSG_DONTWAIT : Z := 64.
Definition sizeof_sockaddr_in : Z := 16.
Definition sizeof_sockaddr_in6 : Z := 28.
Definition sizeof_iphdr : Z := 20.
Definition sizeof_ipv6hdr : Z := 40.

Definition ICMP_DEST_UNREACH : Z := 3.
Definition ICMP_HOST_UNREACH : Z := 1.
Definition ICMP_PROT_UNREACH : Z := 2.
Definition ICMP_PORT_UNREACH : Z := 3.
Definition ICMP_FRAG_NEEDED : Z := 4.
Definition ICMPV6_DEST_UNREACH : Z := 1.
Definition ICMPV6_PARAMPROB : Z := 4.
Definition ICMPV6_ADDR_UNREACH : Z := 3.
Definition ICMPV6_PORT_UNREACH : Z := 4.
Definition ICMPV6_UNK_NEXTHDR : Z := 1.

(** Conversion of an [int] to [u16], and the increment of a [u16]. *)
Definition u16 (z : Z) : Z := z mod 65536.

(** Conversion of a [long] to [int]. *)
Definition int32 (z : Z) : Z := (z + 2147483648) mod 4294967296 - 2147483648.

(** The conversion of an [int] to [size_t] that precedes a comparison
    with a [sizeof]. *)
Definition to_size_t (z : Z) : Z := z mod 18446744073709551616.

(** The conversion of an [int] to [unsigned int] that precedes a
    comparison with an unsigned constant. *)
Definition to_u32 (z : Z) : Z := z mod 4294967296.

(** [htons]/[ntohs] on a little-endian host (test/Makefile: ARCH x86). *)
Definition htons (p : Z) : Z := (p mod 256) * 256 + (p / 256) mod 256.
Definition ntohs (p : Z) : Z := htons p.

(** ** Addresses of kernel objects *)

Definition sock_ptr := nat.
Definition net_ptr := nat.
Definition rpc_ptr := nat.
Definition pool_ptr := nat.

(** ** Socket addresses

    [union sockaddr_in_union]: the family, the port, and the bytes that
    follow them (12 for a [sockaddr_in], 24 for a [sockaddr_in6]). *)
Record sockaddr_in_union := mk_sockaddr {
  sa_family : Z;
  sa_port : Z;
  sa_data : list Z
}.

Definition sockaddr_zero : sockaddr_in_union :=
  mk_sockaddr 0 0 (replicate 24%nat 0).

(** [memset(&dst, 0, sizeof(dst)); memcpy(&dst, addr, n)] for [n >= 4]. *)
Definition sockaddr_copy (n : Z) (addr : sockaddr_in_union)
  : sockaddr_in_union :=
  mk_sockaddr (sa_family addr) (sa_port addr)
    (resize 24%nat 0 (take (Z.to_nat (n - 4)) (sa_data addr))).

(** ** Parameters declared in headers that are not at hand

    homa.h and homa_impl.h define these constants and inline helpers; the
    development is parametric in them. *)
Class homa_consts := {
  HOMA_MIN_DEFAULT_PORT : Z;
  HOMA_MAX_BPAGES : Z;
  HOMA_SENDMSG_PRIVATE : Z;
  HOMA_SENDMSG_VALID_FLAGS : Z;
  RPC_PRIVATE : Z;
  sizeof_homa_recvmsg_args : Z;
  homa_socktab_bucket : net_ptr -> Z -> nat;
  canonical_ipv6_addr : sockaddr_in_union -> Z;
  ipv6_to_ipv4 : Z -> Z
}.

(** Bytes in network order as a number. *)
Definition be_bytes (l : list Z) : Z := foldl (fun acc b => acc * 256 + b) 0 l.

(** "Canonical address: IPv4 addresses are transported as IPv4-mapped
    IPv6." *)
Definition v4_mapped_or_v6 (a : sockaddr_in_union) : Z :=
  if sa_family a =? AF_INET
  then 65535 * 4294967296 + be_bytes (take 4 (sa_data a))
  else be_bytes (take 16 (drop 4 (sa_data a))).

(** The values of the Linux module. *)
Definition linux_consts : homa_consts := {|
  HOMA_MIN_DEFAULT_PORT := 32768;
  HOMA_MAX_BPAGES := 16;
  HOMA_SENDMSG_PRIVATE := 1;
  HOMA_SENDMSG_VALID_FLAGS := 1;
  RPC_PRIVATE := 8;
  sizeof_homa_recvmsg_args := 88;
  homa_socktab_bucket := fun hnet port =>
    Z.to_nat ((Z.of_nat hnet + port) mod 1024);
  canonical_ipv6_addr := v4_mapped_or_v6;
  ipv6_to_ipv4 := fun a => a mod 4294967296
|}.

(** A configuration with only two default ports, 65534 and 65535, as the
    unit tests use to exhaust the range. *)
Definition tiny_consts : homa_consts := {|
  HOMA_MIN_DEFAULT_PORT := 65534;
  HOMA_MAX_BPAGES := 16;
  HOMA_SENDMSG_PRIVATE := 1;
  HOMA_SENDMSG_VALID_FLAGS := 1;
  RPC_PRIVATE := 8;
  sizeof_homa_recvmsg_args := 88;
  homa_socktab_bucket := fun hnet port =>
    Z.to_nat ((Z.of_nat hnet + port) mod 1024);
  canonical_ipv6_addr := v4_mapped_or_v6;
  ipv6_to_ipv4 := fun a => a mod 4294967296
|}.

(** ** RPCs *)

Inductive rpc_state := RPC_OUTGOING | RPC_INCOMING | RPC_IN_SERVICE | RPC_DEAD.

Global Instance rpc_state_eq_dec : EqDecision rpc_state.
Proof. solve_decision. Defined.

Record homa_rpc := mk_rpc {
  rpc_hsk : sock_ptr;
  rpc_id : Z;
  rpc_state_of : rpc_state;
  rpc_error : Z;
  rpc_flags : Z;
  completion_cookie : Z;
  peer_addr : Z;
  dport : Z;
  msgin_length : Z;
  msgin_num_bpages : Z;
  msgin_bpage_offsets : list Z
}.

Definition rpc_set_state (st : rpc_state) (r : homa_rpc) : homa_rpc :=
  mk_rpc (rpc_hsk r) (rpc_id r) st (rpc_error r) (rpc_flags r)
    (completion_cookie r) (peer_addr r) (dport r) (msgin_length r)
    (msgin_num_bpages r) (msgin_bpage_offsets r).

Definition rpc_set_flags (f : Z) (r : homa_rpc) : homa_rpc :=
  mk_rpc (rpc_hsk r) (rpc_id r) (rpc_state_of r) (rpc_error r) f
    (completion_cookie r) (peer_addr r) (dport r) (msgin_length r)
    (msgin_num_bpages r) (msgin_bpage_offsets r).

Definition rpc_set_cookie (c : Z) (r : homa_rpc) : homa_rpc :=
  mk_rpc (rpc_hsk r) (rpc_id r) (rpc_state_of r) (rpc_error r) (rpc_flags r)
    c (peer_addr r) (dport r) (msgin_length r)
    (msgin_num_bpages r) (msgin_bpage_offsets r).

Definition rpc_set_num_bpages (n : Z) (r : homa_rpc) : homa_rpc :=
  mk_rpc (rpc_hsk r) (rpc_id r) (rpc_state_of r) (rpc_error r) (rpc_flags r)
    (completion_cookie r) (peer_addr r) (dport r) (msgin_length r)
    n (msgin_bpage_offsets r).

(** [homa_is_client]: client ids are even. *)
Definition homa_is_client (id : Z) : bool := Z.land id 1 =? 0.

(** ** Interests, sockets, namespaces *)

Record homa_interest := mk_interest {
  interest_thread : nat;
  interest_ready : Z
}.

Record homa_sock := mk_sock {
  sk_net : net_ptr;               (* sock_net(&hsk->sock) *)
  sk_family : Z;
  sk_sndbuf : Z;
  sk_sndtimeo : Z;
  sock_nospace : bool;            (* SOCK_NOSPACE in sk_socket->flags *)
  hsk_homa : bool;                (* hsk->homa != NULL *)
  hsk_hnet : option net_ptr;
  hsk_port : Z;
  inet_num : Z;
  inet_sport : Z;
  ip_header_length : Z;
  is_server : bool;
  shutdown : bool;
  in_kernel : bool;
  connected : bool;
  target_addr : sockaddr_in_union;
  buffer_pool : option pool_ptr;
  active_rpcs : list rpc_ptr;
  dead_rpcs : list rpc_ptr;
  interests : list homa_interest
}.

(** A socket as [homa_socket] receives it: the generic part filled in, the
    Homa part all zeroes. *)
Definition zeroed_sock (net : net_ptr) (family sndtimeo : Z) : homa_sock :=
  mk_sock net family 0 sndtimeo false false None 0 0 0 0 false false false
    false sockaddr_zero None [] [] [].

Record homa_net := mk_net {
  prev_default_port : Z
}.

(** ** Calls that leave the two files *)

Inductive event :=
  | EvWakeUp (i : homa_interest)
  | EvPoolFree (pool : pool_ptr)
  | EvPoolRelease (pool : pool_ptr) (num_bpages : Z) (offsets : list Z)
  | EvWaitWmem (hsk : sock_ptr) (timeo : Z)
  | EvWaitPrivate (rpc : rpc_ptr) (nonblocking : Z)
  | EvWaitShared (hsk : sock_ptr) (nonblocking : Z)
  | EvMessageOutFill (rpc : rpc_ptr)
  | EvPeerAddAck (rpc : rpc_ptr)
  | EvRpcReap (hsk : sock_ptr)
  | EvAbortRpcs (daddr : Z) (port : Z) (error : Z).

Global Instance event_inhabited : Inhabited event := populate (EvRpcReap 0%nat).

(** ** The state of the module *)

Record kstate := mk_kstate {
  wmem_max : Z;
  socktab : gmap nat (list sock_ptr);
  nets : gmap net_ptr homa_net;
  socks : gmap sock_ptr homa_sock;
  rpcs : gmap rpc_ptr homa_rpc;
  next_rpc : rpc_ptr;
  next_outgoing_id : Z;
  klog : list event
}.

Definition set_socktab (t : gmap nat (list sock_ptr)) (k : kstate) : kstate :=
  mk_kstate (wmem_max k) t (nets k) (socks k) (rpcs k) (next_rpc k)
    (next_outgoing_id k) (klog k).

Definition set_nets (n : gmap net_ptr homa_net) (k : kstate) : kstate :=
  mk_kstate (wmem_max k) (socktab k) n (socks k) (rpcs k) (next_rpc k)
    (next_outgoing_id k) (klog k).

Definition set_socks (s : gmap sock_ptr homa_sock) (k : kstate) : kstate :=
  mk_kstate (wmem_max k) (socktab k) (nets k) s (rpcs k) (next_rpc k)
    (next_outgoing_id k) (klog k).

Definition set_rpcs (r : gmap rpc_ptr homa_rpc) (k : kstate) : kstate :=
  mk_kstate (wmem_max k) (socktab k) (nets k) (socks k) r (next_rpc k)
    (next_outgoing_id k) (klog k).

Definition log_event (e : event) (k : kstate) : kstate :=
  mk_kstate (wmem_max k) (socktab k) (nets k) (socks k) (rpcs k) (next_rpc k)
    (next_outgoing_id k) (klog k ++ [e]).

Definition store_sock (hsk : sock_ptr) (s : homa_sock) (k : kstate) : kstate :=
  set_socks (<[hsk := s]> (socks k)) k.

Definition store_rpc (p : rpc_ptr) (r : homa_rpc) (k : kstate) : kstate :=
  set_rpcs (<[p := r]> (rpcs k)) k.

(** ** The socket table (homa_sock.c) *)

Section Model.
Context `{homa_consts}.

Definition bucket_of (t : gmap nat (list sock_ptr)) (b : nat) : list sock_ptr :=
  default [] (t !! b).

(** [hlist_add_head_rcu(&hsk->socktab_links, &socktab->buckets[b])] *)
Definition hlist_add_head (hsk : sock_ptr) (b : nat)
    (t : gmap nat (list sock_ptr)) : gmap nat (list sock_ptr) :=
  <[b := hsk :: bucket_of t b]> t.

(** [hlist_del_rcu(&hsk->socktab_links)]: the node leaves whichever bucket
    holds it. *)
Definition hlist_del (hsk : sock_ptr) (t : gmap nat (list sock_ptr))
  : gmap nat (list sock_ptr) :=
  filter (fun p => p ≠ hsk) <$> t.

(** The loop of [homa_sock_find] over one bucket. *)
Fixpoint bucket_find (ss : gmap sock_ptr homa_sock) (hnet : net_ptr)
    (port : Z) (bucket : list sock_ptr) : option sock_ptr :=
  match bucket with
  | [] => None
  | p :: rest =>
      match ss !! p with
      | Some s =>
          if bool_decide (hsk_port s = port)
             && bool_decide (hsk_hnet s = Some hnet)
          then Some p
          else bucket_find ss hnet port rest
      | None => bucket_find ss hnet port rest
      end
  end.

Definition homa_sock_find (k : kstate) (hnet : net_ptr) (port : Z)
  : option sock_ptr :=
  let bucket := homa_socktab_bucket hnet port in
  bucket_find (socks k) hnet port (bucket_of (socktab k) bucket).

(** [homa_sock_unlink] *)
Definition homa_sock_unlink (k : kstate) (hsk : sock_ptr) : kstate :=
  set_socktab (hlist_del hsk (socktab k)) k.

(** One turn of the counter in [homa_sock_init]:
    [hnet->prev_default_port++] on a [u16], then the clamp. *)
Definition next_default_port (prev : Z) : Z :=
  let p := u16 (prev + 1) in
  if p <? HOMA_MIN_DEFAULT_PORT then HOMA_MIN_DEFAULT_PORT else p.

(** The [while (1)] loop of [homa_sock_init].  The result is the final
    value of [hnet->prev_default_port] and whether the loop left through
    [break] ([true]) or through the error exit ([false]); [None] when
    [fuel] turns of the loop were not enough. *)
Fixpoint default_port_loop (fuel : nat) (k : kstate) (hnet : net_ptr)
    (starting_port prev : Z) : option (bool * Z) :=
  match fuel with
  | O => None
  | S fuel' =>
      let prev' := next_default_port prev in
      match homa_sock_find k hnet prev' with
      | None => Some (true, prev')
      | Some other =>
          if prev' =? starting_port then Some (false, prev')
          else default_port_loop fuel' k hnet starting_port prev'
      end
  end.

Definition sock_init_failed (s : homa_sock) : homa_sock :=
  mk_sock (sk_net s) (sk_family s) (sk_sndbuf s) (sk_sndtimeo s)
    (sock_nospace s) false (hsk_hnet s) (hsk_port s) (inet_num s)
    (inet_sport s) (ip_header_length s) (is_server s) true (in_kernel s)
    (connected s) (target_addr s) (buffer_pool s) (active_rpcs s)
    (dead_rpcs s) (interests s).

Definition sock_init_done (port : Z) (s : homa_sock) : homa_sock :=
  mk_sock (sk_net s) (sk_family s) (sk_sndbuf s) (sk_sndtimeo s)
    (sock_nospace s) (hsk_homa s) (hsk_hnet s) port port (htons port)
    (if sk_family s =? AF_INET then sizeof_iphdr else sizeof_ipv6hdr)
    false false true false sockaddr_zero (buffer_pool s) [] [] [].

Definition sock_init_begin (sndbuf : Z) (s : homa_sock) : homa_sock :=
  mk_sock (sk_net s) (sk_family s) sndbuf (sk_sndtimeo s)
    (sock_nospace s) (hsk_homa s) (hsk_hnet s) (hsk_port s) (inet_num s)
    (inet_sport s) (ip_header_length s) (is_server s) (shutdown s)
    (in_kernel s) (connected s) (target_addr s) (buffer_pool s)
    (active_rpcs s) (dead_rpcs s) (interests s).

Definition sock_init_homa (hnet : net_ptr) (pool : pool_ptr) (s : homa_sock)
  : homa_sock :=
  mk_sock (sk_net s) (sk_family s) (sk_sndbuf s) (sk_sndtimeo s)
    (sock_nospace s) true (Some hnet) (hsk_port s) (inet_num s)
    (inet_sport s) (ip_header_length s) (is_server s) (shutdown s)
    (in_kernel s) (connected s) (target_addr s) (Some pool)
    (active_rpcs s) (dead_rpcs s) (interests s).

(** [homa_sock_init].  [pool_alloc] is what [homa_pool_alloc] returns: an
    error ([inl]) or a new pool. *)
Definition homa_sock_init (fuel : nat) (pool_alloc : Z + pool_ptr)
    (k : kstate) (hsk : sock_ptr) : option (Z * kstate) :=
  s ← socks k !! hsk;
  let hnet := sk_net s in
  n ← nets k !! hnet;
  let s := sock_init_begin (wmem_max k) s in
  match pool_alloc with
  | inl err => Some (err, store_sock hsk s k)
  | inr pool =>
      let s := sock_init_homa hnet pool s in
      let k := store_sock hsk s k in
      let starting_port := prev_default_port n in
      match default_port_loop fuel k hnet starting_port
              (prev_default_port n) with
      | None => None
      | Some (found, prev) =>
          let k := set_nets (<[hnet := mk_net prev]> (nets k)) k in
          if (found : bool) then
            let s := sock_init_done prev s in
            let k := store_sock hsk s k in
            let k := set_socktab
                       (hlist_add_head hsk (homa_socktab_bucket hnet prev)
                          (socktab k)) k in
            Some (0, k)
          else
            let s := sock_init_failed s in
            let k := store_sock hsk s k in
            Some (- EADDRNOTAVAIL, log_event (EvPoolFree pool) k)
      end
  end.


(** Modelled from the spec: [homa_rpc_end] (homa_rpc.c is not at hand).
    "[end(rpc)] moves an RPC to [DEAD] and splices it onto the socket's
    dead list; it is idempotent." *)
Definition sock_rpc_to_dead (p : rpc_ptr) (s : homa_sock) : homa_sock :=
  mk_sock (sk_net s) (sk_family s) (sk_sndbuf s) (sk_sndtimeo s)
    (sock_nospace s) (hsk_homa s) (hsk_hnet s) (hsk_port s) (inet_num s)
    (inet_sport s) (ip_header_length s) (is_server s) (shutdown s)
    (in_kernel s) (connected s) (target_addr s) (buffer_pool s)
    (filter (fun q => q ≠ p) (active_rpcs s)) (dead_rpcs s ++ [p])
    (interests s).

Definition homa_rpc_end (k : kstate) (p : rpc_ptr) : kstate :=
  match rpcs k !! p with
  | None => k
  | Some r =>
      if bool_decide (rpc_state_of r = RPC_DEAD) then k
      else
        let k := store_rpc p (rpc_set_state RPC_DEAD r) k in
        match socks k !! rpc_hsk r with
        | None => k
        | Some s => store_sock (rpc_hsk r) (sock_rpc_to_dead p s) k
        end
  end.

Definition sock_set_shutdown (b : bool) (s : homa_sock) : homa_sock :=
  mk_sock (sk_net s) (sk_family s) (sk_sndbuf s) (sk_sndtimeo s)
    (sock_nospace s) (hsk_homa s) (hsk_hnet s) (hsk_port s) (inet_num s)
    (inet_sport s) (ip_header_length s) (is_server s) b
    (in_kernel s) (connected s) (target_addr s) (buffer_pool s)
    (active_rpcs s) (dead_rpcs s) (interests s).

Definition sock_set_interests (l : list homa_interest) (s : homa_sock)
  : homa_sock :=
  mk_sock (sk_net s) (sk_family s) (sk_sndbuf s) (sk_sndtimeo s)
    (sock_nospace s) (hsk_homa s) (hsk_hnet s) (hsk_port s) (inet_num s)
    (inet_sport s) (ip_header_length s) (is_server s) (shutdown s)
    (in_kernel s) (connected s) (target_addr s) (buffer_pool s)
    (active_rpcs s) (dead_rpcs s) l.

(** The last loop of [homa_sock_shutdown]: each interest is unlinked from
    [hsk->interests], marked ready and woken. *)
Fixpoint shutdown_interests (l : list homa_interest) (hsk : sock_ptr)
    (k : kstate) : kstate :=
  match l with
  | [] => k
  | interest :: rest =>
      let k := match socks k !! hsk with
               | Some s => store_sock hsk (sock_set_interests rest s) k
               | None => k
               end in
      let k := log_event (EvWakeUp (mk_interest (interest_thread interest) 1)) k in
      shutdown_interests rest hsk k
  end.

(** [homa_sock_shutdown] *)
Definition homa_sock_shutdown (k : kstate) (hsk : sock_ptr) : option kstate :=
  s ← socks k !! hsk;
  if shutdown s || negb (hsk_homa s) then Some k
  else
    let k := store_sock hsk (sock_set_shutdown true s) k in
    let k := homa_sock_unlink k hsk in
    let k := foldl homa_rpc_end k (active_rpcs s) in
    s' ← socks k !! hsk;
    Some (shutdown_interests (interests s') hsk k).

Definition sock_destroyed (s : homa_sock) : homa_sock :=
  mk_sock (sk_net s) (sk_family s) (sk_sndbuf s) (sk_sndtimeo s)
    (sock_nospace s) (hsk_homa s) (hsk_hnet s) (hsk_port s) (inet_num s)
    (inet_sport s) (ip_header_length s) (is_server s) (shutdown s)
    (in_kernel s) (connected s) (target_addr s) None
    (active_rpcs s) [] (interests s).

(** [homa_sock_destroy].  [homa_rpc_reap(hsk, true)] is outside the file;
    the loop around it ends when the dead list is empty. *)
Definition homa_sock_destroy (k : kstate) (hsk : sock_ptr) : option kstate :=
  s ← socks k !! hsk;
  if negb (hsk_homa s) then Some k
  else
    let k := if bool_decide (dead_rpcs s = []) then k
             else log_event (EvRpcReap hsk) k in
    let k := match buffer_pool s with
             | Some pool => log_event (EvPoolFree pool) k
             | None => k
             end in
    Some (store_sock hsk (sock_destroyed s) k).

Definition sock_bound (port : Z) (s : homa_sock) : homa_sock :=
  mk_sock (sk_net s) (sk_family s) (sk_sndbuf s) (sk_sndtimeo s)
    (sock_nospace s) (hsk_homa s) (hsk_hnet s) port port (htons port)
    (ip_header_length s) true (shutdown s)
    (in_kernel s) (connected s) (target_addr s) (buffer_pool s)
    (active_rpcs s) (dead_rpcs s) (interests s).

(** [homa_sock_bind]; the parameter [port] is a [u16]. *)
Definition homa_sock_bind (k : kstate) (hnet : net_ptr) (hsk : sock_ptr)
    (port : Z) : option (Z * kstate) :=
  let port := u16 port in
  if port =? 0 then Some (0, k)
  else if port >=? HOMA_MIN_DEFAULT_PORT then Some (- EINVAL, k)
  else
    s ← socks k !! hsk;
    if shutdown s then Some (- ESHUTDOWN, k)
    else
      match homa_sock_find k hnet port with
      | Some owner =>
          if bool_decide (owner ≠ hsk) then Some (- EADDRINUSE, k)
          else Some (0, k)
      | None =>
          let k := set_socktab (hlist_del hsk (socktab k)) k in
          let k := store_sock hsk (sock_bound port s) k in
          let k := set_socktab
                     (hlist_add_head hsk (homa_socktab_bucket hnet port)
                        (socktab k)) k in
          Some (0, k)
      end.

(** ** Waiting for transmit memory *)

(** What the surroundings decide about one wait: whether
    [homa_sock_wmem_avl(hsk)] holds when the wait starts, what the sleep
    returns if the thread does sleep (jiffies left, [0] or [1] at the
    timeout, [-ERESTARTSYS]), and [signal_pending(current)] afterwards. *)
Record wait_env := mk_wait_env {
  wmem_avl_at_wait : bool;
  sleep_outcome : Z;
  signal_pending : bool
}.

(** Linux's [wait_event_interruptible_timeout(wq, condition, timeout)]
    (include/linux/wait.h): with the condition true, or with a zero
    timeout, it returns without sleeping.  The second component tells
    whether the thread slept. *)
Definition wait_event_interruptible_timeout (condition : bool) (timeout : Z)
    (sleep : Z) : Z * bool :=
  if condition then ((if timeout =? 0 then 1 else timeout), false)
  else if timeout =? 0 then (0, false)
  else (sleep, true).

Definition sock_set_nospace (s : homa_sock) : homa_sock :=
  mk_sock (sk_net s) (sk_family s) (sk_sndbuf s) (sk_sndtimeo s)
    true (hsk_homa s) (hsk_hnet s) (hsk_port s) (inet_num s)
    (inet_sport s) (ip_header_length s) (is_server s) (shutdown s)
    (in_kernel s) (connected s) (target_addr s) (buffer_pool s)
    (active_rpcs s) (dead_rpcs s) (interests s).

(** [homa_sock_wait_wmem].  An [EvWaitWmem] event is logged exactly when
    the thread sleeps; [result] is an [int] that receives a [long]. *)
Definition homa_sock_wait_wmem (w : wait_env) (k : kstate) (hsk : sock_ptr)
    (nonblocking : Z) : option (Z * kstate) :=
  s ← socks k !! hsk;
  let timeo := sk_sndtimeo s in
  let timeo := if nonblocking =? 0 then timeo else 0 in
  let k := store_sock hsk (sock_set_nospace s) k in
  let '(ret, slept) :=
    wait_event_interruptible_timeout (wmem_avl_at_wait w || shutdown s)
      timeo (sleep_outcome w) in
  let result := int32 ret in
  let k := if slept then log_event (EvWaitWmem hsk timeo) k else k in
  if signal_pending w then Some (- EINTR, k)
  else if result =? 0 then Some (- EWOULDBLOCK, k)
  else Some (0, k).

(** ** System calls (the plumbing file) *)

(** [homa_bind].  [addr_len] is an [int]; the comparison with a
    [sizeof] is made on [size_t]. *)
Definition homa_bind (k : kstate) (hsk : sock_ptr) (addr : sockaddr_in_union)
    (addr_len : Z) : option (Z * kstate) :=
  s ← socks k !! hsk;
  if negb (sa_family addr =? sk_family s) then Some (- EAFNOSUPPORT, k)
  else if sa_family addr =? AF_INET6 then
    if to_size_t addr_len <? sizeof_sockaddr_in6 then Some (- EINVAL, k)
    else hnet ← hsk_hnet s; homa_sock_bind k hnet hsk (ntohs (sa_port addr))
  else if sa_family addr =? AF_INET then
    if to_size_t addr_len <? sizeof_sockaddr_in then Some (- EINVAL, k)
    else hnet ← hsk_hnet s; homa_sock_bind k hnet hsk (ntohs (sa_port addr))
  else hnet ← hsk_hnet s; homa_sock_bind k hnet hsk 0.

(** [homa_shutdown]; [how] is ignored. *)
Definition homa_shutdown (k : kstate) (hsk : sock_ptr) (how : Z)
  : option (Z * kstate) :=
  k' ← homa_sock_shutdown k hsk;
  Some (0, k').

(** [homa_socket] *)
Definition homa_socket (fuel : nat) (pool_alloc : Z + pool_ptr) (k : kstate)
    (hsk : sock_ptr) : option (Z * kstate) :=
  r ← homa_sock_init fuel pool_alloc k hsk;
  if negb (r.1 =? 0) then
    k1 ← homa_sock_shutdown r.2 hsk;
    k2 ← homa_sock_destroy k1 hsk;
    Some (r.1, k2)
  else Some r.

Definition sock_connected (a : sockaddr_in_union) (s : homa_sock)
  : homa_sock :=
  mk_sock (sk_net s) (sk_family s) (sk_sndbuf s) (sk_sndtimeo s)
    (sock_nospace s) (hsk_homa s) (hsk_hnet s) (hsk_port s) (inet_num s)
    (inet_sport s) (ip_header_length s) (is_server s) (shutdown s)
    (in_kernel s) true a (buffer_pool s)
    (active_rpcs s) (dead_rpcs s) (interests s).

(** [__homa_connect].  [addrlen] is an [int]; the comparison with a
    [sizeof] is made on [size_t]. *)
Definition __homa_connect (k : kstate) (hsk : sock_ptr)
    (addr : sockaddr_in_union) (addrlen : Z) : option (Z * kstate) :=
  s ← socks k !! hsk;
  if connected s then Some (- EISCONN, k)
  else if shutdown s then Some (- ESHUTDOWN, k)
  else if negb (sa_family addr =? AF_INET) && negb (sa_family addr =? AF_INET6)
  then Some (- EAFNOSUPPORT, k)
  else if sa_family addr =? AF_INET then
    if to_size_t addrlen <? sizeof_sockaddr_in then Some (- EINVAL, k)
    else Some (0, store_sock hsk
                    (sock_connected (sockaddr_copy sizeof_sockaddr_in addr) s) k)
  else if sa_family addr =? AF_INET6 then
    if to_size_t addrlen <? sizeof_sockaddr_in6 then Some (- EINVAL, k)
    else Some (0, store_sock hsk
                    (sock_connected (sockaddr_copy sizeof_sockaddr_in6 addr) s) k)
  else Some (- EINVAL, k).

(** [homa_connect]: [__homa_connect] under the socket lock. *)
Definition homa_connect (k : kstate) (hsk : sock_ptr)
    (addr : sockaddr_in_union) (addrlen : Z) : option (Z * kstate) :=
  __homa_connect k hsk addr addrlen.

(** ** sendmsg *)

Record homa_sendmsg_args := mk_sendmsg_args {
  args_id : Z;
  args_completion_cookie : Z;
  args_flags : Z;
  args_reserved : Z
}.

Definition args_set_id (id : Z) (a : homa_sendmsg_args) : homa_sendmsg_args :=
  mk_sendmsg_args id (args_completion_cookie a) (args_flags a)
    (args_reserved a).

(** [struct msghdr], with the block that [msg_control] points to
    ([None] for a null pointer).  The payload iterator is left out. *)
Record msghdr (A : Type) := mk_msghdr {
  msg_name : option sockaddr_in_union;
  msg_namelen : Z;
  msg_control : option A;
  msg_controllen : Z;
  msg_control_is_user : bool;
  msg_flags : Z
}.
#[global] Arguments mk_msghdr {A} _ _ _ _ _ _.
#[global] Arguments msg_name {A} _.
#[global] Arguments msg_namelen {A} _.
#[global] Arguments msg_control {A} _.
#[global] Arguments msg_controllen {A} _.
#[global] Arguments msg_control_is_user {A} _.
#[global] Arguments msg_flags {A} _.

(** What the surroundings decide about one [sendmsg]: the bytes that the
    local variable [args] holds before anything is stored in it, whether
    the copies from and to user space succeed, [homa_sock_wmem_avl(hsk)],
    the wait for memory, and the outcomes of [homa_rpc_alloc_client] and
    [homa_message_out_fill]. *)
Record send_env := mk_send_env {
  stack_args : homa_sendmsg_args;
  copy_from_user_ok : bool;
  copy_to_user_ok : bool;
  wmem_avl : bool;
  wmem_wait : wait_env;
  alloc_client_error : Z;
  fill_result : Z;
  fill_kills : bool
}.

(** Modelled from the spec: [homa_rpc_find_server] and
    [homa_rpc_find_client] (homa_rpc.c is not at hand). "Lookup is by id
    (client table) or by (peer, id) (server table)"; "client ids are even;
    server-mirror ids are odd"; a [DEAD] RPC is unreachable. *)
Fixpoint rpc_list_find (rs : gmap rpc_ptr homa_rpc) (test : homa_rpc -> bool)
    (l : list rpc_ptr) : option rpc_ptr :=
  match l with
  | [] => None
  | p :: rest =>
      match rs !! p with
      | Some r => if test r then Some p else rpc_list_find rs test rest
      | None => rpc_list_find rs test rest
      end
  end.

Definition homa_rpc_find_server (k : kstate) (hsk : sock_ptr) (saddr : Z)
    (id : Z) : option rpc_ptr :=
  s ← socks k !! hsk;
  rpc_list_find (rpcs k)
    (fun r => negb (homa_is_client (rpc_id r)) && (rpc_id r =? id)
              && (peer_addr r =? saddr))
    (active_rpcs s).

Definition homa_rpc_find_client (k : kstate) (hsk : sock_ptr) (id : Z)
  : option rpc_ptr :=
  s ← socks k !! hsk;
  rpc_list_find (rpcs k)
    (fun r => homa_is_client (rpc_id r) && (rpc_id r =? id))
    (active_rpcs s).

Definition sock_add_rpc (p : rpc_ptr) (s : homa_sock) : homa_sock :=
  mk_sock (sk_net s) (sk_family s) (sk_sndbuf s) (sk_sndtimeo s)
    (sock_nospace s) (hsk_homa s) (hsk_hnet s) (hsk_port s) (inet_num s)
    (inet_sport s) (ip_header_length s) (is_server s) (shutdown s)
    (in_kernel s) (connected s) (target_addr s) (buffer_pool s)
    (active_rpcs s ++ [p]) (dead_rpcs s) (interests s).

(** Modelled from the spec: [homa_rpc_alloc_client] (homa_rpc.c is not at
    hand). "[alloc_client(hsk, dest)] atomically reserves a new id and
    inserts"; "client create → [OUTGOING]"; a send on a shut socket gives
    [ESHUTDOWN]. *)
Definition homa_rpc_alloc_client (err : Z) (k : kstate) (hsk : sock_ptr)
    (dest : sockaddr_in_union) : option ((Z + rpc_ptr) * kstate) :=
  s ← socks k !! hsk;
  if negb (err =? 0) then Some (inl err, k)
  else if shutdown s then Some (inl (- ESHUTDOWN), k)
  else
    let p := next_rpc k in
    let r := mk_rpc hsk (next_outgoing_id k) RPC_OUTGOING 0 0 0
               (canonical_ipv6_addr dest) (ntohs (sa_port dest)) (-1) 0 [] in
    let k := mk_kstate (wmem_max k) (socktab k) (nets k)
               (<[hsk := sock_add_rpc p s]> (socks k))
               (<[p := r]> (rpcs k)) (S p) (next_outgoing_id k + 2)
               (klog k) in
    Some (inr p, k).

(** The call [homa_message_out_fill(rpc, &msg->msg_iter, 1)]. *)
Definition homa_message_out_fill (e : send_env) (k : kstate) (p : rpc_ptr)
  : Z * kstate :=
  let k := log_event (EvMessageOutFill p) k in
  let k := if fill_kills e then homa_rpc_end k p else k in
  (fill_result e, k).

Definition sendmsg_result : Type := Z * kstate * option homa_sendmsg_args.

Definition flags_invalid (args : homa_sendmsg_args) : bool :=
  negb (Z.land (args_flags args) (Z.lnot HOMA_SENDMSG_VALID_FLAGS) =? 0)
  || negb (args_reserved args =? 0).

(** The request branch, [if (!args.id) { ... }], which the four variants
    share up to the way [args] is copied back ([user]: [copy_to_user],
    otherwise [memcpy]). [ctl] is what [msg_control] points to. *)
Definition sendmsg_request (user : bool) (e : send_env) (k : kstate)
    (hsk : sock_ptr) (addr : sockaddr_in_union) (args : homa_sendmsg_args)
    (ctl : option homa_sendmsg_args) : option sendmsg_result :=
  a ← homa_rpc_alloc_client (alloc_client_error e) k hsk addr;
  match a with
  | (inl err, k) => Some (err, k, ctl)
  | (inr p, k) =>
      r ← rpcs k !! p;
      let r := if negb (Z.land (args_flags args) HOMA_SENDMSG_PRIVATE =? 0)
               then rpc_set_flags (Z.lor (rpc_flags r) RPC_PRIVATE) r
               else r in
      let r := rpc_set_cookie (args_completion_cookie args) r in
      let k := store_rpc p r k in
      let '(result, k) := homa_message_out_fill e k p in
      if negb (result =? 0) then Some (result, homa_rpc_end k p, ctl)
      else
        let args := args_set_id (rpc_id r) args in
        if user && negb (copy_to_user_ok e) then
          let k := match homa_rpc_find_client k hsk (args_id args) with
                   | Some q => homa_rpc_end k q
                   | None => k
                   end in
          Some (- EFAULT, k, ctl)
        else Some (0, k, Some args)
  end.

(** The response branch, [else { ... }], the same text in the four
    variants. *)
Definition sendmsg_response (e : send_env) (k : kstate) (hsk : sock_ptr)
    (addr : sockaddr_in_union) (args : homa_sendmsg_args)
    (ctl : option homa_sendmsg_args) : option sendmsg_result :=
  if negb (args_completion_cookie args =? 0) then Some (- EINVAL, k, ctl)
  else
    let canonical_dest := canonical_ipv6_addr addr in
    match homa_rpc_find_server k hsk canonical_dest (args_id args) with
    | None => Some (0, k, ctl)
    | Some p =>
        r ← rpcs k !! p;
        if negb (rpc_error r =? 0) then
          Some (rpc_error r, homa_rpc_end k p, ctl)
        else if negb (bool_decide (rpc_state_of r = RPC_IN_SERVICE)) then
          Some (- EINVAL, k, ctl)
        else
          let k := store_rpc p (rpc_set_state RPC_OUTGOING r) k in
          let '(result, k) := homa_message_out_fill e k p in
          r' ← rpcs k !! p;
          if negb (result =? 0)
             && negb (bool_decide (rpc_state_of r' = RPC_DEAD))
          then Some (result, homa_rpc_end k p, ctl)
          else Some (0, k, ctl)
    end.

Definition sendmsg_body (user : bool) (e : send_env) (k : kstate)
    (hsk : sock_ptr) (addr : sockaddr_in_union) (args : homa_sendmsg_args)
    (ctl : option homa_sendmsg_args) : option sendmsg_result :=
  if args_id args =? 0 then sendmsg_request user e k hsk addr args ctl
  else sendmsg_response e k hsk addr args ctl.

(** The test of transmit memory that precedes the address checks. *)
Definition sendmsg_wmem (e : send_env) (k : kstate) (hsk : sock_ptr)
    (msg : msghdr homa_sendmsg_args) : option (Z * kstate) :=
  if negb (wmem_avl e) then
    homa_sock_wait_wmem (wmem_wait e) k hsk (Z.land (msg_flags msg) MSG_DONTWAIT)
  else Some (0, k).

(** [msg_namelen] is an [int]; the comparisons with a [sizeof] are made
    on [size_t]. *)
Definition namelen_too_short (msg : msghdr homa_sendmsg_args)
    (addr : sockaddr_in_union) : bool :=
  (to_size_t (msg_namelen msg) <? sizeof_sockaddr_in)
  || ((to_size_t (msg_namelen msg) <? sizeof_sockaddr_in6)
      && (sa_family addr =? AF_INET6)).

(** [homa_sendmsg_user_connected] *)
Definition homa_sendmsg_user_connected (e : send_env) (k : kstate)
    (hsk : sock_ptr) (msg : msghdr homa_sendmsg_args)
  : option sendmsg_result :=
  s ← socks k !! hsk;
  let ctl := msg_control msg in
  let addr := target_addr s in
  if bool_decide (msg_name msg ≠ None) then Some (- EINVAL, k, ctl)
  else if negb (msg_control_is_user msg) then Some (- EINVAL, k, ctl)
  else
    match (if copy_from_user_ok e then msg_control msg else None) with
    | None => Some (- EFAULT, k, ctl)
    | Some args =>
        if flags_invalid args then Some (- EINVAL, k, ctl)
        else
          w ← sendmsg_wmem e k hsk msg;
          let '(result, k) := w in
          if negb (result =? 0) then Some (result, k, ctl)
          else if negb (sa_family addr =? sk_family s) then
            Some (- EAFNOSUPPORT, k, ctl)
          else if negb (msg_namelen msg =? 0) then Some (- EINVAL, k, ctl)
          else sendmsg_body true e k hsk addr args ctl
    end.

(** [homa_sendmsg_user_unconnected] *)
Definition homa_sendmsg_user_unconnected (e : send_env) (k : kstate)
    (hsk : sock_ptr) (msg : msghdr homa_sendmsg_args)
  : option sendmsg_result :=
  s ← socks k !! hsk;
  let ctl := msg_control msg in
  match msg_name msg with
  | None => Some (- EINVAL, k, ctl)
  | Some addr =>
      if negb (msg_control_is_user msg) then Some (- EINVAL, k, ctl)
      else
        match (if copy_from_user_ok e then msg_control msg else None) with
        | None => Some (- EFAULT, k, ctl)
        | Some args =>
            if flags_invalid args then Some (- EINVAL, k, ctl)
            else
              w ← sendmsg_wmem e k hsk msg;
              let '(result, k) := w in
              if negb (result =? 0) then Some (result, k, ctl)
              else if negb (sa_family addr =? sk_family s) then
                Some (- EAFNOSUPPORT, k, ctl)
              else if namelen_too_short msg addr then Some (- EINVAL, k, ctl)
              else sendmsg_body true e k hsk addr args ctl
        end
  end.

(** [homa_sendmsg_in_kernel_connected].  The tests on [args.flags] and
    [args.reserved] come before the [memcpy] that fills [args]: they read
    what the stack held. *)
Definition homa_sendmsg_in_kernel_connected (e : send_env) (k : kstate)
    (hsk : sock_ptr) (msg : msghdr homa_sendmsg_args)
  : option sendmsg_result :=
  s ← socks k !! hsk;
  let ctl := msg_control msg in
  let addr := target_addr s in
  let args := stack_args e in
  if bool_decide (msg_name msg ≠ None) then Some (- EINVAL, k, ctl)
  else if flags_invalid args then Some (- EINVAL, k, ctl)
  else
    w ← sendmsg_wmem e k hsk msg;
    let '(result, k) := w in
    if negb (result =? 0) then Some (result, k, ctl)
    else if negb (sa_family addr =? sk_family s) then
      Some (- EAFNOSUPPORT, k, ctl)
    else if negb (msg_namelen msg =? 0) then Some (- EINVAL, k, ctl)
    else
      args ← msg_control msg;
      sendmsg_body false e k hsk addr args ctl.

(** [homa_sendmsg_in_kernel_unconnected] *)
Definition homa_sendmsg_in_kernel_unconnected (e : send_env) (k : kstate)
    (hsk : sock_ptr) (msg : msghdr homa_sendmsg_args)
  : option sendmsg_result :=
  s ← socks k !! hsk;
  let ctl := msg_control msg in
  match msg_name msg with
  | None => Some (- EINVAL, k, ctl)
  | Some addr =>
      args ← msg_control msg;
      if flags_invalid args then Some (- EINVAL, k, ctl)
      else
        w ← sendmsg_wmem e k hsk msg;
        let '(result, k) := w in
        if negb (result =? 0) then Some (result, k, ctl)
        else if negb (sa_family addr =? sk_family s) then
          Some (- EAFNOSUPPORT, k, ctl)
        else if namelen_too_short msg addr then Some (- EINVAL, k, ctl)
        else sendmsg_body false e k hsk addr args ctl
  end.

(** [homa_sendmsg] *)
Definition homa_sendmsg (e : send_env) (k : kstate) (hsk : sock_ptr)
    (msg : msghdr homa_sendmsg_args) : option sendmsg_result :=
  s ← socks k !! hsk;
  if msg_control_is_user msg then
    if connected s then homa_sendmsg_user_connected e k hsk msg
    else homa_sendmsg_user_unconnected e k hsk msg
  else if connected s then homa_sendmsg_in_kernel_connected e k hsk msg
  else homa_sendmsg_in_kernel_unconnected e k hsk msg.

(** ** recvmsg *)

Record homa_recvmsg_args := mk_recvmsg_args {
  rcv_id : Z;
  rcv_completion_cookie : Z;
  rcv_flags : Z;
  num_bpages : Z;
  bpage_offsets : list Z
}.

(** The sender address that [homa_recvmsg] stores through [msg->msg_name]. *)
Record sender_name := mk_sender_name {
  sin_family : Z;
  sin_port : Z;
  sin_addr : Z
}.

(** What the surroundings decide about one [recvmsg]: the copies from and
    to user space, the result of [homa_pool_release_buffers], the results
    of [homa_wait_private] and [homa_wait_shared], and what the packet
    handlers did to the RPCs while the thread waited. *)
Record recv_env := mk_recv_env {
  rcv_copy_from_user_ok : bool;
  rcv_copy_to_user_ok : bool;
  release_result : Z;
  wait_private_result : Z;
  wait_shared_result : Z + rpc_ptr;
  wait_effect : gmap rpc_ptr homa_rpc -> gmap rpc_ptr homa_rpc
}.

Record recv_result := mk_recv_result {
  rr_result : Z;
  rr_state : kstate;
  rr_control : option homa_recvmsg_args;   (* the block at msg_control *)
  rr_name : option sender_name;            (* the block at msg_name *)
  rr_addr_len : option Z
}.

(** The label [done:] of [homa_recvmsg]: [control] goes back to the
    caller.  [ctl0] is what the block held on entry. *)
Definition recvmsg_done (e : recv_env) (in_k : bool) (result : Z)
    (k : kstate) (ctl0 control : homa_recvmsg_args)
    (name : option sender_name) (len : option Z) : recv_result :=
  if in_k then mk_recv_result result k (Some control) name len
  else if rcv_copy_to_user_ok e then
    mk_recv_result result k (Some control) name len
  else mk_recv_result (- EFAULT) k (Some ctl0) name len.

(** The part of [homa_recvmsg] that follows the wait, from "Collect
    result information" to [done:].  The sender's address is stored
    through [msg->msg_name] without a test: with a null pointer there
    the call has no result. *)
Definition recvmsg_collect (e : recv_env) (s : homa_sock) (k : kstate)
    (hsk : sock_ptr) (msg : msghdr homa_recvmsg_args) (p : rpc_ptr)
    (ctl0 control : homa_recvmsg_args) : option recv_result :=
  r ← rpcs k !! p;
  _ ← msg_name msg;
  let result := if negb (rpc_error r =? 0) then rpc_error r
                else msgin_length r in
  let control :=
    if msgin_length r >=? 0 then
      mk_recvmsg_args (rpc_id r) (completion_cookie r) (rcv_flags control)
        (msgin_num_bpages r) (msgin_bpage_offsets r)
    else
      mk_recvmsg_args (rpc_id r) (completion_cookie r) (rcv_flags control)
        (num_bpages control) (bpage_offsets control) in
  let name :=
    if sk_family s =? AF_INET6
    then mk_sender_name AF_INET6 (htons (dport r)) (peer_addr r)
    else mk_sender_name AF_INET (htons (dport r)) (ipv6_to_ipv4 (peer_addr r)) in
  let len := if sk_family s =? AF_INET6 then sizeof_sockaddr_in6
             else sizeof_sockaddr_in in
  let k := store_rpc p (rpc_set_num_bpages 0 r) k in
  let k :=
    if homa_is_client (rpc_id r) then
      homa_rpc_end (log_event (EvPeerAddAck p) k) p
    else if result <? 0 then homa_rpc_end k p
    else store_rpc p (rpc_set_state RPC_IN_SERVICE (rpc_set_num_bpages 0 r)) k in
  let k := if sock_nospace s then log_event (EvRpcReap hsk) k else k in
  Some (recvmsg_done e (in_kernel s) result k ctl0 control (Some name)
          (Some len)).

(** [homa_recvmsg] *)
Definition homa_recvmsg (e : recv_env) (k : kstate) (hsk : sock_ptr)
    (msg : msghdr homa_recvmsg_args) (flags : Z) : option recv_result :=
  s ← socks k !! hsk;
  let in_k := in_kernel s in
  match msg_control msg with
  | None => Some (mk_recv_result (- EINVAL) k None None None)
  | Some ctl0 =>
      if negb (msg_controllen msg =? sizeof_homa_recvmsg_args) then
        Some (mk_recv_result (- EINVAL) k (Some ctl0) None None)
      else if negb in_k && negb (rcv_copy_from_user_ok e) then
        Some (mk_recv_result (- EFAULT) k (Some ctl0) None None)
      else
        let control :=
          mk_recvmsg_args (rcv_id ctl0) 0 (rcv_flags ctl0) (num_bpages ctl0)
            (bpage_offsets ctl0) in
        if num_bpages control >? HOMA_MAX_BPAGES then
          Some (recvmsg_done e in_k (- EINVAL) k ctl0 control None None)
        else
          match buffer_pool s with
          | None =>
              Some (recvmsg_done e in_k (- EINVAL) k ctl0 control None None)
          | Some pool =>
              let k := log_event
                         (EvPoolRelease pool (num_bpages control)
                            (bpage_offsets control)) k in
              let result := release_result e in
              let control :=
                mk_recvmsg_args (rcv_id control) (rcv_completion_cookie control)
                  (rcv_flags control) 0 (bpage_offsets control) in
              if negb (result =? 0) then
                Some (recvmsg_done e in_k result k ctl0 control None None)
              else
                let nonblocking := Z.land flags MSG_DONTWAIT in
                if negb (rcv_id control =? 0) then
                  match homa_rpc_find_client k hsk (rcv_id control) with
                  | None =>
                      Some (recvmsg_done e in_k (- EINVAL) k ctl0 control
                              None None)
                  | Some p =>
                      let k := log_event (EvWaitPrivate p nonblocking) k in
                      let k := set_rpcs (wait_effect e (rpcs k)) k in
                      let result := wait_private_result e in
                      if negb (result =? 0) then
                        let control :=
                          mk_recvmsg_args 0 (rcv_completion_cookie control)
                            (rcv_flags control) (num_bpages control)
                            (bpage_offsets control) in
                        Some (recvmsg_done e in_k result k ctl0 control
                                None None)
                      else recvmsg_collect e s k hsk msg p ctl0 control
                  end
                else
                  let k := log_event (EvWaitShared hsk nonblocking) k in
                  let k := set_rpcs (wait_effect e (rpcs k)) k in
                  match wait_shared_result e with
                  | inl err =>
                      Some (recvmsg_done e in_k err k ctl0 control None None)
                  | inr p => recvmsg_collect e s k hsk msg p ctl0 control
                  end
          end
  end.

(** ** ICMP errors *)

Definition ipv6_addr_set_v4mapped (addr : Z) : Z := 65535 * 4294967296 + addr.

(** The call [homa_abort_rpcs(homa, &daddr, port, error)]. *)
Definition homa_abort_rpcs (k : kstate) (daddr port error : Z) : kstate :=
  log_event (EvAbortRpcs daddr port error) k.

(** [homa_err_handler_v4].  [iph_daddr] is the destination of the IP
    header that the ICMP packet quotes and [h_dport] the [dport] field of
    the Homa header after it. *)
Definition homa_err_handler_v4 (k : kstate) (type code : Z)
    (iph_daddr h_dport : Z) (info : Z) : Z * kstate :=
  let daddr := ipv6_addr_set_v4mapped iph_daddr in
  let '(port, error) :=
    if (type =? ICMP_DEST_UNREACH) && (code =? ICMP_PORT_UNREACH) then
      (ntohs h_dport, - ENOTCONN)
    else if type =? ICMP_DEST_UNREACH then
      if code =? ICMP_PROT_UNREACH then (0, - EPROTONOSUPPORT)
      else (0, - EHOSTUNREACH)
    else (0, 0) in
  let k := if negb (error =? 0) then homa_abort_rpcs k daddr port error
           else k in
  (0, k).

(** [homa_err_handler_v6] *)
Definition homa_err_handler_v6 (k : kstate) (type code : Z)
    (iph_daddr h_dport : Z) (offset info : Z) : Z * kstate :=
  let '(port, error) :=
    if (type =? ICMPV6_DEST_UNREACH) && (code =? ICMPV6_PORT_UNREACH) then
      (ntohs h_dport, - ENOTCONN)
    else if (type =? ICMPV6_DEST_UNREACH) && (code =? ICMPV6_ADDR_UNREACH) then
      (0, - EHOSTUNREACH)
    else if (type =? ICMPV6_PARAMPROB) && (code =? ICMPV6_UNK_NEXTHDR) then
      (0, - EPROTONOSUPPORT)
    else (0, 0) in
  let k := if negb (error =? 0) then homa_abort_rpcs k iph_daddr port error
           else k in
  (0, k).

End Model.

(** * Concrete inputs *)

Definition net0 : net_ptr := 0%nat.
Definition hsk1 : sock_ptr := 1%nat.
Definition hsk2 : sock_ptr := 2%nat.
Definition hsk3 : sock_ptr := 3%nat.
Definition pool1 : pool_ptr := 7%nat.

(** Enough turns of the port loop for any state in which it ends. *)
Definition sweep_fuel : nat := Z.to_nat 65536.

Section Inputs.
Context `{homa_consts}.

(** A kernel with one namespace whose counter is just below the default
    ports, no socket in the table, and three sockets as [homa_socket]
    receives them. *)
Definition k_boot : kstate :=
  mk_kstate 1000000 ∅
    {[ net0 := mk_net (HOMA_MIN_DEFAULT_PORT - 1) ]}
    {[ hsk1 := zeroed_sock net0 AF_INET6 100;
       hsk2 := zeroed_sock net0 AF_INET6 100;
       hsk3 := zeroed_sock net0 AF_INET6 100 ]}
    ∅ 0%nat 2 [].

Definition state_of {A} (r : option (A * kstate)) (k : kstate) : kstate :=
  match r with
  | Some (_, k') => k'
  | None => k
  end.

Definition after_socket (k : kstate) (hsk : sock_ptr) : kstate :=
  state_of (homa_socket sweep_fuel (inr pool1) k hsk) k.

Definition after_bind (k : kstate) (hsk : sock_ptr) (port : Z) : kstate :=
  state_of (homa_sock_bind k net0 hsk port) k.

Definition after_shutdown (k : kstate) (hsk : sock_ptr) : kstate :=
  state_of (homa_shutdown k hsk 0) k.

Definition the_sock (k : kstate) (hsk : sock_ptr) : homa_sock :=
  default (zeroed_sock net0 0 0) (socks k !! hsk).

(** One socket open; two sockets open; the second one shut down. *)
Definition k_one : kstate := after_socket k_boot hsk1.
Definition k_two : kstate := after_socket k_one hsk2.
Definition k_shut : kstate := after_shutdown k_two hsk2.

End Inputs.

Definition addr_v6 : sockaddr_in_union :=
  mk_sockaddr AF_INET6 (htons 9000)
    [0; 0; 0; 0; 253; 0; 0; 0; 0; 0; 0; 0; 0; 0; 0; 0; 0; 0; 0; 2; 0; 0; 0; 0].

Definition rpc0 : rpc_ptr := 0%nat.

Section MoreInputs.
Context `{homa_consts}.

(** The server side of RPC 2 from [addr_v6], on socket 2. *)
Definition server_rpc (st : rpc_state) (err : Z) : homa_rpc :=
  mk_rpc hsk2 3 st err 0 0 (canonical_ipv6_addr addr_v6) 40000 200 1 [65536].

(** Socket 2 with that RPC in its active list and one thread waiting. *)
Definition k_serving (st : rpc_state) (err : Z) : kstate :=
  mk_kstate (wmem_max k_two) (socktab k_two) (nets k_two)
    (<[hsk2 := sock_set_interests [mk_interest 5%nat 0]
                 (sock_add_rpc rpc0 (the_sock k_two hsk2))]> (socks k_two))
    {[ rpc0 := server_rpc st err ]} 1%nat 2 [].

(** Socket 1 connected to [addr_v6]. *)
Definition k_conn : kstate :=
  state_of (homa_connect k_two hsk1 addr_v6 28) k_two.

End MoreInputs.

(** A [sendmsg] whose surroundings never fail: memory is available, the
    copies succeed, the stack holds zeroes. *)
Definition env_ok : send_env :=
  mk_send_env (mk_sendmsg_args 0 0 0 0) true true true
    (mk_wait_env true 1 false) 0 0 false.

(** The same with transmit memory exhausted and staying so. *)
Definition env_nomem : send_env :=
  mk_send_env (mk_sendmsg_args 0 0 0 0) true true false
    (mk_wait_env false 0 false) 0 0 false.

(** The same as [env_ok] with bit 1 set in the stack word that [flags]
    occupies. *)
Definition env_dirty_stack : send_env :=
  mk_send_env (mk_sendmsg_args 0 0 2 0) true true true
    (mk_wait_env true 1 false) 0 0 false.

Definition send_msg (user : bool) (name : option sockaddr_in_union)
    (namelen : Z) (args : homa_sendmsg_args) (flags : Z)
  : msghdr homa_sendmsg_args :=
  mk_msghdr name namelen (Some args) 24 user flags.

(** A response to RPC 3, with and without a completion cookie; a request
    with a flag bit outside [HOMA_SENDMSG_VALID_FLAGS]. *)
Definition args_reply : homa_sendmsg_args := mk_sendmsg_args 3 0 0 0.
Definition args_reply_cookie : homa_sendmsg_args := mk_sendmsg_args 3 7 0 0.
Definition args_request : homa_sendmsg_args := mk_sendmsg_args 0 0 0 0.
Definition args_bad_flags : homa_sendmsg_args := mk_sendmsg_args 0 0 2 0.

(** A [recvmsg] for any message that gives back the bpage at offset
    131072; the surroundings hand RPC [rpc0] to the waiting thread. *)
Definition ctl_any : homa_recvmsg_args := mk_recvmsg_args 0 99 0 1 [131072].

(** [msg_name] points to a buffer for the sender's address. *)
Definition recv_msg (ctl : homa_recvmsg_args) : msghdr homa_recvmsg_args :=
  mk_msghdr (Some sockaddr_zero) 28 (Some ctl) 88 false 0.

(** The same with a null [msg_name]. *)
Definition recv_msg_unnamed (ctl : homa_recvmsg_args)
  : msghdr homa_recvmsg_args :=
  mk_msghdr None 0 (Some ctl) 88 false 0.

(** A [recvmsg] that gives back one bpage more than [HOMA_MAX_BPAGES]. *)
Definition ctl_many : homa_recvmsg_args :=
  mk_recvmsg_args 0 99 0 17 (replicate 16%nat 0).

Definition env_deliver : recv_env :=
  mk_recv_env true true 0 0 (inr rpc0) (fun rs => rs).

(** Two default ports in all, and both taken. *)
Definition k_full : kstate := k_two (H := tiny_consts).

(** * Vocabulary of the statements *)

Section Vocabulary.
Context `{homa_consts}.

(** [homa_rpc_end] touches a socket only in its two lists of RPCs. *)
Definition sock_set_rpc_lists (a d : list rpc_ptr) (s : homa_sock)
  : homa_sock :=
  mk_sock (sk_net s) (sk_family s) (sk_sndbuf s) (sk_sndtimeo s)
    (sock_nospace s) (hsk_homa s) (hsk_hnet s) (hsk_port s) (inet_num s)
    (inet_sport s) (ip_header_length s) (is_server s) (shutdown s)
    (in_kernel s) (connected s) (target_addr s) (buffer_pool s) a d
    (interests s).

Definition woken (i : homa_interest) : event :=
  EvWakeUp (mk_interest (interest_thread i) 1).

(** The number of default ports. *)
Definition default_ports : Z := 65536 - HOMA_MIN_DEFAULT_PORT.

(** The place of default port [q] in the order in which the loop that
    starts after [start] visits the ports: 0 for the first one,
    [default_ports - 1] for [start] itself. *)
Definition sweep_rank (start q : Z) : Z :=
  if start <? q then q - start - 1 else q - start - 1 + default_ports.

(** The state that the counter is in between two socket creations: once
    a default port is in use, the counter is a default port. *)
Definition default_port_inv (k : kstate) (hnet : net_ptr) (n : homa_net)
  : Prop :=
  prev_default_port n < HOMA_MIN_DEFAULT_PORT →
  ∀ q, HOMA_MIN_DEFAULT_PORT ≤ q ≤ 65535 → homa_sock_find k hnet q = None.

(** The tests that the four variants make before they look at transmit
    memory.  [addr] is the destination ([hsk->target_addr] on a connected
    socket, [msg_name] otherwise) and [args] the block at [msg_control].
    The in-kernel variant for connected sockets tests the stack, not
    [args]. *)
Definition send_args_ok (e : send_env) (s : homa_sock)
    (msg : msghdr homa_sendmsg_args) (addr : sockaddr_in_union)
    (args : homa_sendmsg_args) : Prop :=
  msg_control msg = Some args
  ∧ (if connected s then msg_name msg = None ∧ addr = target_addr s
     else msg_name msg = Some addr)
  ∧ (if msg_control_is_user msg
     then copy_from_user_ok e = true ∧ flags_invalid args = false
     else if connected s then flags_invalid (stack_args e) = false
     else flags_invalid args = false).

(** The tests that follow the wait for memory. *)
Definition send_addr_ok (s : homa_sock) (msg : msghdr homa_sendmsg_args)
    (addr : sockaddr_in_union) : Prop :=
  sa_family addr = sk_family s
  ∧ (if connected s then msg_namelen msg = 0
     else namelen_too_short msg addr = false).

Definition is_wait (ev : event) : bool :=
  match ev with
  | EvWaitPrivate _ _ | EvWaitShared _ _ => true
  | _ => false
  end.

Definition no_wait (evs : list event) : Prop :=
  Forall (fun ev => is_wait ev = false) evs.

(** The events of the part that follows the wait. *)
Definition collect_events (s : homa_sock) (hsk : sock_ptr) (p : rpc_ptr)
    (r : homa_rpc) : list event :=
  (if homa_is_client (rpc_id r) then [EvPeerAddAck p] else [])
  ++ (if sock_nospace s then [EvRpcReap hsk] else []).

(** What is assumed of the surroundings of a [recvmsg]: an RPC that the
    thread waits for, or that [homa_wait_shared] hands to it, is
    allocated when the wait ends (the thread holds its lock). *)
Definition recv_env_wf (e : recv_env) (k : kstate) : Prop :=
  (∀ p, wait_shared_result e = inr p →
        is_Some (wait_effect e (rpcs k) !! p))
  ∧ (∀ p, is_Some (rpcs k !! p) → is_Some (wait_effect e (rpcs k) !! p)).

(** Modelled from the spec: the buffer pool (homa_pool.c is not at
    hand), which sets [msgin.num_bpages] and [msgin.bpage_offsets] of an
    RPC.  "A message occupies [ceil(len/B)] bpages"; "[recv] returns up
    to [HOMA_MAX_BPAGES] bpage offsets": an RPC holds at most
    [HOMA_MAX_BPAGES] bpages. *)
Definition msgin_ok (r : homa_rpc) : Prop :=
  0 ≤ msgin_num_bpages r ≤ HOMA_MAX_BPAGES.

(** What the label [done:] hands back when the call ends with [result]
    and the local block [control]: a block in user space that cannot be
    written turns the result into [EFAULT] and keeps what it held. *)
Definition handed_back (e : recv_env) (s : homa_sock)
    (ctl0 : homa_recvmsg_args) (result : Z) (control : homa_recvmsg_args)
    (res : recv_result) : Prop :=
  if in_kernel s || rcv_copy_to_user_ok e
  then rr_result res = result ∧ rr_control res = Some control
  else rr_result res = - EFAULT ∧ rr_control res = Some ctl0.

(** A call that ends without a message: the log has grown by [evs], the
    RPCs are [rs], nothing else has changed, and no address is stored. *)
Definition recv_ended (e : recv_env) (s : homa_sock) (k : kstate)
    (ctl0 : homa_recvmsg_args) (evs : list event)
    (rs : gmap rpc_ptr homa_rpc) (result : Z) (control : homa_recvmsg_args)
    (out : option recv_result) : Prop :=
  ∃ res,
    out = Some res
    ∧ rr_state res
      = mk_kstate (wmem_max k) (socktab k) (nets k) (socks k) rs (next_rpc k)
          (next_outgoing_id k) (klog k ++ evs)
    ∧ handed_back e s ctl0 result control res
    ∧ rr_name res = None ∧ rr_addr_len res = None.

(** The address of the sender of RPC [r], in the family of the socket. *)
Definition sender_of (s : homa_sock) (r : homa_rpc) : sender_name :=
  if sk_family s =? AF_INET6
  then mk_sender_name AF_INET6 (htons (dport r)) (peer_addr r)
  else mk_sender_name AF_INET (htons (dport r)) (ipv6_to_ipv4 (peer_addr r)).

(** The block for RPC [r]: its id and cookie, and its bpages when it has
    a message; otherwise no bpage. *)
Definition block_of (ctl0 : homa_recvmsg_args) (r : homa_rpc)
  : homa_recvmsg_args :=
  if 0 <=? msgin_length r
  then mk_recvmsg_args (rpc_id r) (completion_cookie r) (rcv_flags ctl0)
         (msgin_num_bpages r) (msgin_bpage_offsets r)
  else mk_recvmsg_args (rpc_id r) (completion_cookie r) (rcv_flags ctl0)
         0 (bpage_offsets ctl0).

(** A call that the wait has handed RPC [p], after the events [evs].
    With a null [msg_name] it has no result.  Otherwise the result is
    the error of the RPC or, without one, the length of its message;
    the block and the address are those of the RPC, the count of bpages
    in the block being within [HOMA_MAX_BPAGES] when the pool has kept
    that of the RPC so; the RPC holds no bpage any more, and is dead
    unless it is a request that has arrived without error. *)
Definition recv_collected (e : recv_env) (s : homa_sock) (k : kstate)
    (hsk : sock_ptr) (msg : msghdr homa_recvmsg_args)
    (ctl0 : homa_recvmsg_args) (evs : list event) (p : rpc_ptr)
    (out : option recv_result) : Prop :=
  ∃ r,
    wait_effect e (rpcs k) !! p = Some r
    ∧ (msg_name msg = None → out = None)
    ∧ (msg_name msg ≠ None →
       let result := if rpc_error r =? 0 then msgin_length r
                     else rpc_error r in
       ∃ res r',
         out = Some res
         ∧ klog (rr_state res) = klog k ++ evs ++ collect_events s hsk p r
         ∧ socktab (rr_state res) = socktab k
         ∧ nets (rr_state res) = nets k
         ∧ handed_back e s ctl0 result (block_of ctl0 r) res
         ∧ (msgin_ok r → num_bpages (block_of ctl0 r) ≤ HOMA_MAX_BPAGES)
         ∧ rr_name res = Some (sender_of s r)
         ∧ rr_addr_len res
           = Some (if sk_family s =? AF_INET6 then sizeof_sockaddr_in6
                   else sizeof_sockaddr_in)
         ∧ rpcs (rr_state res) !! p = Some r'
         ∧ msgin_num_bpages r' = 0
         ∧ rpc_state_of r'
           = (if homa_is_client (rpc_id r) || (result <? 0) then RPC_DEAD
              else RPC_IN_SERVICE)).

(** Every namespace's counter is a [u16] and obeys [default_port_inv]. *)
Definition counters_ok (k : kstate) : Prop :=
  ∀ hnet n, nets k !! hnet = Some n →
    0 ≤ prev_default_port n ≤ 65535 ∧ default_port_inv k hnet n.

End Vocabulary.

(** * The rest of the two files *)

(** ** close, and the shape of the socket table *)

Section TableModel.
Context `{homa_consts}.

(** [sk_common_release] (net/core/sock.c) calls the protocol's [destroy]
    and [unhash]; [homa_prot] and [homav6_prot] set them to
    [homa_sock_destroy] and to [homa_unhash], which does nothing. *)
Definition sk_common_release (k : kstate) (hsk : sock_ptr) : option kstate :=
  homa_sock_destroy k hsk.

(** [homa_close]; [timeout] is not used. *)
Definition homa_close (k : kstate) (hsk : sock_ptr) (timeout : Z)
  : option kstate :=
  k1 ← homa_sock_shutdown k hsk;
  sk_common_release k1 hsk.

(** [p] is on the list of some bucket. *)
Definition table_linked (t : gmap nat (list sock_ptr)) (p : sock_ptr) : Prop :=
  ∃ b, p ∈ bucket_of t b.

(** The fields of a socket that the table depends on. *)
Definition same_key (s s' : homa_sock) : Prop :=
  hsk_port s = hsk_port s' ∧ hsk_hnet s = hsk_hnet s'
  ∧ shutdown s = shutdown s'.

(** A table in good shape: no bucket holds a socket twice; every socket
    of a bucket is allocated, belongs to a namespace, has not been shut
    down and sits in the bucket that its namespace and port hash to; and
    no two sockets of the table have the same port in the same
    namespace. *)
Definition table_ok (t : gmap nat (list sock_ptr))
    (ss : gmap sock_ptr homa_sock) : Prop :=
  (∀ b, NoDup (bucket_of t b))
  ∧ (∀ b p, p ∈ bucket_of t b →
       ∃ s hnet, ss !! p = Some s ∧ hsk_hnet s = Some hnet
                 ∧ shutdown s = false
                 ∧ b = homa_socktab_bucket hnet (hsk_port s))
  ∧ (∀ p q s u, table_linked t p → table_linked t q →
       ss !! p = Some s → ss !! q = Some u →
       hsk_port s = hsk_port u → hsk_hnet s = hsk_hnet u → p = q).

Definition socktab_ok (k : kstate) : Prop := table_ok (socktab k) (socks k).

(** A step that leaves the table and the namespaces alone and keeps
    the key of every socket. *)
Definition keys_kept (k k' : kstate) : Prop :=
  socktab k' = socktab k
  ∧ (∀ p s, socks k !! p = Some s →
       ∃ s', socks k' !! p = Some s' ∧ same_key s s')
  ∧ nets k' = nets k.

(** [p] is on no list of the table; this can be decided by looking. *)
Definition unlinked (t : gmap nat (list sock_ptr)) (p : sock_ptr) : Prop :=
  map_Forall (fun _ l => p ∉ l) t.

Global Instance unlinked_dec t p : Decision (unlinked t p).
Proof. unfold unlinked. apply _. Defined.

(** One system call on a socket, or the creation of a socket from a block
    that is not in the table. *)
Inductive sock_call (k : kstate) : kstate → Prop :=
  | call_socket fuel pool_alloc hsk s result k' :
      socks k !! hsk = Some s →
      (∀ b, hsk ∉ bucket_of (socktab k) b) →
      homa_socket fuel pool_alloc k hsk = Some (result, k') →
      sock_call k k'
  | call_bind hsk addr addr_len result k' :
      homa_bind k hsk addr addr_len = Some (result, k') →
      sock_call k k'
  | call_connect hsk addr addrlen result k' :
      homa_connect k hsk addr addrlen = Some (result, k') →
      sock_call k k'
  | call_shutdown hsk how result k' :
      homa_shutdown k hsk how = Some (result, k') →
      sock_call k k'
  | call_close hsk timeout k' :
      homa_close k hsk timeout = Some k' →
      sock_call k k'
  | call_sendmsg e hsk msg result k' ctl :
      homa_sendmsg e k hsk msg = Some (result, k', ctl) →
      sock_call k k'
  | call_recvmsg e hsk msg flags res :
      homa_recvmsg e k hsk msg flags = Some res →
      sock_call k (rr_state res).

(** The states that a sequence of such calls leads to. *)
Inductive sock_calls (k : kstate) : kstate → Prop :=
  | calls_none : sock_calls k k
  | calls_more k1 k2 : sock_calls k k1 → sock_call k1 k2 → sock_calls k k2.

End TableModel.

(** ** More parameters from the headers that are not at hand

    homa.h, homa_sock.h and homa_wire.h define these; [header_lengths i]
    is entry [i] of the array of that name, whose entries are the sizes
    of the packet headers. *)
Class homa_hdrs := {
  HOMA_SOCKTAB_BUCKETS : Z;
  IPPROTO_HOMA : Z;
  SO_HOMA_RCVBUF : Z;
  SO_HOMA_SERVER : Z;
  sizeof_homa_rcvbuf_args : Z;
  HOMAIOCABORT : Z;
  HOMAIOCFREEZE : Z;
  DATA : Z;
  MAX_OP : Z;
  FREEZE : Z;
  sizeof_homa_common_hdr : Z;
  header_lengths : Z -> Z
}.

(** An assignment of values for the examples: 1024 buckets, protocol 146
    (as the module aliases at the end of the plumbing file have it), and
    packet types 0x10 to 0x18. *)
Definition sample_hdrs : homa_hdrs := {|
  HOMA_SOCKTAB_BUCKETS := 1024;
  IPPROTO_HOMA := 146;
  SO_HOMA_RCVBUF := 10;
  SO_HOMA_SERVER := 11;
  sizeof_homa_rcvbuf_args := 16;
  HOMAIOCABORT := 3223357923;
  HOMAIOCFREEZE := 35311;
  DATA := 16;
  MAX_OP := 24;
  FREEZE := 22;
  sizeof_homa_common_hdr := 28;
  header_lengths := fun i => if i =? 0 then 60 else if i =? 1 then 33 else 28
|}.

(** ** Scans of the socket table (homa_sock.c) *)

(** [struct homa_socktab_scan].  The pointer [scan->hsk] stands for a
    node of a list: it is kept together with the nodes that its forward
    pointers lead to ([scan_links]).  [hlist_del_rcu] leaves the forward
    pointer of the node that it removes in place, and
    [hlist_add_head_rcu] changes no forward pointer of a node that is on
    the list already, so these remain the nodes after [scan->hsk] as
    long as none of them is removed.  [scan->socktab] is the one table
    of the state. *)
Record homa_socktab_scan := mk_scan {
  scan_hsk : option sock_ptr;
  scan_links : list sock_ptr;
  current_bucket : Z
}.

Section ScanModel.
Context `{homa_consts} `{homa_hdrs}.

(** The [for] loop of [homa_socktab_next], entered with
    [scan->current_bucket = b] and at most [n] buckets to go: the bucket
    at which it stops and the first node of that bucket, if any. *)
Fixpoint scan_buckets (n : nat) (t : gmap nat (list sock_ptr)) (b : Z)
  : Z * option sock_ptr * list sock_ptr :=
  match n with
  | O => (b, None, [])
  | S n' =>
      match bucket_of t (Z.to_nat b) with
      | next :: rest => (b, Some next, rest)
      | [] => scan_buckets n' t (b + 1)
      end
  end.

(** [homa_socktab_next] *)
Definition homa_socktab_next (k : kstate) (scan : homa_socktab_scan)
  : homa_socktab_scan * option sock_ptr :=
  match (if bool_decide (scan_hsk scan ≠ None) then scan_links scan else [])
  with
  | next :: rest => (mk_scan (Some next) rest (current_bucket scan), Some next)
  | [] =>
      let b := current_bucket scan + 1 in
      match scan_buckets (Z.to_nat (HOMA_SOCKTAB_BUCKETS - b)) (socktab k) b
      with
      | (b', Some next, rest) => (mk_scan (Some next) rest b', Some next)
      | (b', None, _) => (mk_scan None [] b', None)
      end
  end.

(** [homa_socktab_start_scan] *)
Definition homa_socktab_start_scan (k : kstate)
  : homa_socktab_scan * option sock_ptr :=
  homa_socktab_next k (mk_scan None [] (-1)).

(** [homa_socktab_end_scan] *)
Definition homa_socktab_end_scan (scan : homa_socktab_scan)
  : homa_socktab_scan :=
  mk_scan None [] (current_bucket scan).

(** [homa_socktab_init]: every bucket becomes the empty list. *)
Definition homa_socktab_init (k : kstate) : kstate := set_socktab ∅ k.

(** The loop [for (hsk = homa_socktab_start_scan(..); hsk;
    hsk = homa_socktab_next(..))] of [homa_socktab_destroy], from the
    point where [hsk] has just been assigned [cur].  [hnet] is [None]
    for a null pointer. *)
Fixpoint socktab_destroy_loop (fuel : nat) (hnet : option net_ptr)
    (k : kstate) (scan : homa_socktab_scan) (cur : option sock_ptr)
  : option kstate :=
  match cur with
  | None => Some k
  | Some hsk =>
      match fuel with
      | O => None
      | S fuel' =>
          s ← socks k !! hsk;
          k1 ← (if bool_decide (hnet ≠ None)
                   && bool_decide (hnet ≠ hsk_hnet s)
                then Some k
                else k1 ← homa_sock_shutdown k hsk; homa_sock_destroy k1 hsk);
          let '(scan', next) := homa_socktab_next k1 scan in
          socktab_destroy_loop fuel' hnet k1 scan' next
      end
  end.

(** [homa_socktab_destroy]; the final [homa_socktab_end_scan] only
    clears the local [scan]. *)
Definition homa_socktab_destroy (fuel : nat) (k : kstate)
    (hnet : option net_ptr) : option kstate :=
  let '(scan, first) := homa_socktab_start_scan k in
  socktab_destroy_loop fuel hnet k scan first.

(** A scan with nothing done to the sockets: those that
    [homa_socktab_start_scan] and then [homa_socktab_next] return, up to
    the null pointer. *)
Fixpoint scan_returns (fuel : nat) (k : kstate) (scan : homa_socktab_scan)
    (cur : option sock_ptr) : option (list sock_ptr) :=
  match cur with
  | None => Some []
  | Some hsk =>
      match fuel with
      | O => None
      | S fuel' =>
          let '(scan', next) := homa_socktab_next k scan in
          (hsk ::.) <$> scan_returns fuel' k scan' next
      end
  end.

(** The sockets of [n] buckets from bucket [b] on, in the order of the
    lists. *)
Definition buckets_from (t : gmap nat (list sock_ptr)) (b : Z) (n : nat)
  : list sock_ptr :=
  concat (map (bucket_of t) (seq (Z.to_nat b) n)).

Definition all_buckets (k : kstate) : list sock_ptr :=
  buckets_from (socktab k) 0 (Z.to_nat HOMA_SOCKTAB_BUCKETS).

(** The sockets that [homa_socktab_destroy] does not pass over: all of
    them for a null [hnet], those of the namespace otherwise. *)
Definition destroy_selects (hnet : option net_ptr) (ss : gmap sock_ptr homa_sock)
    (p : sock_ptr) : Prop :=
  ∃ s, ss !! p = Some s ∧ (hnet = None ∨ hnet = hsk_hnet s).

(** What stays of a socket while other sockets are shut down and
    destroyed, and when it is shut down and destroyed itself. *)
Definition sock_kept (s s' : homa_sock) : Prop :=
  hsk_port s' = hsk_port s ∧ hsk_hnet s' = hsk_hnet s
  ∧ hsk_homa s' = hsk_homa s
  ∧ (shutdown s = true → shutdown s' = true)
  ∧ (buffer_pool s = None → buffer_pool s' = None).

(** What a run of the loop of [homa_socktab_destroy] over the sockets
    [R] makes of state [k]: the sockets of [R] that it does not pass
    over have left the table, shut down and without buffer pool. *)
Definition destroy_post (hnet : option net_ptr) (k k' : kstate)
    (R : list sock_ptr) : Prop :=
  socktab_ok k'
  ∧ (∀ b q, q ∈ bucket_of (socktab k') b ↔
       q ∈ bucket_of (socktab k) b
       ∧ ¬ (q ∈ R ∧ destroy_selects hnet (socks k) q))
  ∧ (∀ q u, socks k !! q = Some u →
       ∃ u', socks k' !! q = Some u' ∧ sock_kept u u'
             ∧ (q ∈ R → destroy_selects hnet (socks k) q →
                table_linked (socktab k) q →
                shutdown u' = true ∧ buffer_pool u' = None)).

(** Every socket of the table has been through [homa_sock_init]. *)
Definition all_initialised (k : kstate) : Prop :=
  ∀ p s, table_linked (socktab k) p → socks k !! p = Some s →
         hsk_homa s = true.

(** The sockets that a scan has still to return. *)
Definition scan_rest (k : kstate) (scan : homa_socktab_scan) (p : sock_ptr)
  : list sock_ptr :=
  p :: scan_links scan
  ++ buckets_from (socktab k) (current_bucket scan + 1)
       (Z.to_nat (HOMA_SOCKTAB_BUCKETS - (current_bucket scan + 1))).

End ScanModel.

(** ** Socket options, ioctl and poll (the plumbing file) *)

Definition ENOPROTOOPT : Z := 92.
Definition EPOLLIN : Z := 1.
Definition EPOLLOUT : Z := 4.
Definition EPOLLRDNORM : Z := 64.
Definition EPOLLWRNORM : Z := 256.
Definition sizeof_int : Z := 4.

Record homa_rcvbuf_args := mk_rcvbuf_args {
  rb_start : Z;
  rb_length : Z
}.

(** The block at [optval], as [SO_HOMA_RCVBUF] and as [SO_HOMA_SERVER]
    read it. *)
Record sockopt_block := mk_sockopt_block {
  opt_rcvbuf : homa_rcvbuf_args;
  opt_int : Z
}.

(** What the surroundings decide about a [setsockopt] or [getsockopt]:
    the copies from and to user space (in [setsockopt], the one to
    [args.start] that tests the region), and the two functions of the
    buffer pool, which is not at hand. *)
Record sockopt_env := mk_sockopt_env {
  opt_copy_from_ok : bool;
  opt_region_writable : bool;
  opt_copy_to_optlen_ok : bool;
  opt_copy_to_optval_ok : bool;
  homa_pool_set_region : kstate -> sock_ptr -> Z -> Z -> bool -> Z * kstate;
  homa_pool_get_rcvbuf : kstate -> option pool_ptr -> homa_rcvbuf_args
}.

(** What [getsockopt] returns and what it has stored through [optlen]
    and [optval] ([None]: nothing stored). *)
Record getsockopt_result := mk_getsockopt_result {
  gs_result : Z;
  gs_optlen : option Z;
  gs_optval : option (homa_rcvbuf_args + Z)
}.

Record homa_abort_args := mk_abort_args {
  ab_id : Z;
  ab_error : Z;
  ab_pad1 : Z;
  ab_pad2_0 : Z;
  ab_pad2_1 : Z
}.

(** What the surroundings decide about an [ioctl]: the copy of the
    argument block, and the two functions of homa_rpc.c that abort
    RPCs. *)
Record ioctl_env := mk_ioctl_env {
  ioc_copy_from_ok : bool;
  homa_abort_sock_rpcs : kstate -> sock_ptr -> Z -> kstate;
  homa_rpc_abort : kstate -> rpc_ptr -> Z -> kstate
}.

Section OptionsModel.
Context `{homa_consts} `{homa_hdrs}.

Definition sock_set_is_server (b : bool) (s : homa_sock) : homa_sock :=
  mk_sock (sk_net s) (sk_family s) (sk_sndbuf s) (sk_sndtimeo s)
    (sock_nospace s) (hsk_homa s) (hsk_hnet s) (hsk_port s) (inet_num s)
    (inet_sport s) (ip_header_length s) b (shutdown s)
    (in_kernel s) (connected s) (target_addr s) (buffer_pool s)
    (active_rpcs s) (dead_rpcs s) (interests s).

(** [homa_setsockopt].  [current_mm_null] is [current->mm == NULL];
    [optlen] is an [unsigned int]. *)
Definition homa_setsockopt (e : sockopt_env) (current_mm_null : bool)
    (k : kstate) (hsk : sock_ptr) (level optname : Z)
    (optval : sockopt_block) (optlen : Z) : option (Z * kstate) :=
  let in_kernel := current_mm_null in
  if negb (level =? IPPROTO_HOMA) then Some (- ENOPROTOOPT, k)
  else if optname =? SO_HOMA_RCVBUF then
    if negb (optlen =? sizeof_homa_rcvbuf_args) then Some (- EINVAL, k)
    else if negb (opt_copy_from_ok e) then Some (- EFAULT, k)
    else
      let args := opt_rcvbuf optval in
      if in_kernel then
        Some (homa_pool_set_region e k hsk (rb_start args) (rb_length args) true)
      else if negb (opt_region_writable e) then Some (- EFAULT, k)
      else
        Some (homa_pool_set_region e k hsk (rb_start args) (rb_length args)
                false)
  else if optname =? SO_HOMA_SERVER then
    if negb (optlen =? sizeof_int) then Some (- EINVAL, k)
    else if negb (opt_copy_from_ok e) then Some (- EFAULT, k)
    else
      s ← socks k !! hsk;
      let arg := opt_int optval in
      let s := if negb (arg =? 0) then sock_set_is_server true s
               else sock_set_is_server false s in
      Some (0, store_sock hsk s k)
  else Some (- ENOPROTOOPT, k).

(** [homa_getsockopt].  [len] is the [int] that [optlen] points to. *)
Definition homa_getsockopt (e : sockopt_env) (k : kstate) (hsk : sock_ptr)
    (level optname : Z) (len : Z) : option getsockopt_result :=
  if negb (opt_copy_from_ok e) then
    Some (mk_getsockopt_result (- EFAULT) None None)
  else if negb (level =? IPPROTO_HOMA) then
    Some (mk_getsockopt_result (- ENOPROTOOPT) None None)
  else
    r ← (if optname =? SO_HOMA_RCVBUF then
           if to_size_t len <? sizeof_homa_rcvbuf_args then
             Some (inl (- EINVAL))
           else
             s ← socks k !! hsk;
             Some (inr (sizeof_homa_rcvbuf_args,
                        inl (homa_pool_get_rcvbuf e k (buffer_pool s))))
         else if optname =? SO_HOMA_SERVER then
           if to_size_t len <? sizeof_int then Some (inl (- EINVAL))
           else
             s ← socks k !! hsk;
             Some (inr (sizeof_int, inr (if is_server s then 1 else 0)))
         else Some (inl (- ENOPROTOOPT)));
    match r with
    | inl err => Some (mk_getsockopt_result err None None)
    | inr (len, result) =>
        if negb (opt_copy_to_optlen_ok e) then
          Some (mk_getsockopt_result (- EFAULT) None None)
        else if negb (opt_copy_to_optval_ok e) then
          Some (mk_getsockopt_result (- EFAULT) (Some len) None)
        else Some (mk_getsockopt_result 0 (Some len) (Some result))
    end.

(** [homa_ioc_abort] *)
Definition homa_ioc_abort (e : ioctl_env) (k : kstate) (hsk : sock_ptr)
    (karg : homa_abort_args) : option (Z * kstate) :=
  if negb (ioc_copy_from_ok e) then Some (- EFAULT, k)
  else
    let args := karg in
    if negb (ab_pad1 args =? 0) || negb (ab_pad2_0 args =? 0)
       || negb (ab_pad2_1 args =? 0)
    then Some (- EINVAL, k)
    else if ab_id args =? 0 then
      Some (0, homa_abort_sock_rpcs e k hsk (int32 (- ab_error args)))
    else
      s ← socks k !! hsk;
      match homa_rpc_find_client k hsk (ab_id args) with
      | None => Some (- EINVAL, k)
      | Some rpc =>
          if ab_error args =? 0 then Some (0, homa_rpc_end k rpc)
          else Some (0, homa_rpc_abort e k rpc (int32 (- ab_error args)))
      end.

(** [homa_ioctl], as compiled without [__STRIP__]; freezing the time
    trace leaves no mark on the state.  [cmd] is an [int] and the two
    commands are unsigned constants: the comparisons are made on
    [unsigned int]. *)
Definition homa_ioctl (e : ioctl_env) (k : kstate) (hsk : sock_ptr)
    (cmd : Z) (karg : homa_abort_args) : option (Z * kstate) :=
  if to_u32 cmd =? HOMAIOCABORT then homa_ioc_abort e k hsk karg
  else if to_u32 cmd =? HOMAIOCFREEZE then Some (0, k)
  else Some (- EINVAL, k).

(** [homa_poll].  [wmem_avl] is [homa_sock_wmem_avl(hsk)] and [ready]
    is [!list_empty(&hsk->ready_rpcs)]. *)
Definition homa_poll (wmem_avl ready : bool) (k : kstate) (hsk : sock_ptr)
  : option (Z * kstate) :=
  s ← socks k !! hsk;
  let mask := 0 in
  let '(mask, k) :=
    if wmem_avl then (Z.lor mask (Z.lor EPOLLOUT EPOLLWRNORM), k)
    else (mask, store_sock hsk (sock_set_nospace s) k) in
  let mask := if shutdown s then Z.lor mask EPOLLIN else mask in
  let mask := if ready then Z.lor mask (Z.lor EPOLLIN EPOLLRDNORM)
              else mask in
  Some (mask, k).

(** [homa_hash] and [homa_unhash] *)
Definition homa_hash (k : kstate) (hsk : sock_ptr) : Z * kstate := (0, k).
Definition homa_unhash (k : kstate) (hsk : sock_ptr) : kstate := k.

End OptionsModel.

(** ** Incoming packets (the plumbing file) *)

(** What [homa_softirq] reads of a packet: whether
    [homa_make_header_avl] succeeds, [skb->len] once the data pointer is
    at the transport header, the [type] and [sender_id] of the common
    header, [ntohl] of the [message_length] of a data header, and
    [skb_canonical_ipv6_saddr]. *)
Record sk_buff := mk_skb {
  header_avl : bool;
  skb_len : Z;
  h_type : Z;
  h_sender_id : Z;
  h_message_length : Z;
  skb_saddr : Z
}.

(** The two calls through which a packet leaves [homa_softirq]:
    [kfree_skb(skb)] and [homa_dispatch_pkts(list)]. *)
Inductive softirq_event :=
  | SoftDiscard (skb : sk_buff)
  | SoftDispatch (pkts : list sk_buff).

Section SoftirqModel.
Context `{homa_hdrs}.

(** "Reject packets that are too short or have bogus types." *)
Definition pkt_bogus (skb : sk_buff) : bool :=
  (skb_len skb <? sizeof_homa_common_hdr)
  || (h_type skb <? DATA) || (h_type skb >? MAX_OP)
  || (skb_len skb <? header_lengths (h_type skb - DATA)).

(** "a control packet or ... an entire short message" *)
Definition pkt_short (skb : sk_buff) : bool :=
  negb (h_type skb =? DATA) || (h_message_length skb <? 1400).

(** The first loop of [homa_softirq] over the list that starts at
    [pkts]: the calls that it makes, and the packets that it leaves on
    the list. *)
Fixpoint softirq_first_pass (pkts : list sk_buff)
  : list softirq_event * list sk_buff :=
  match pkts with
  | [] => ([], [])
  | skb :: next =>
      let '(evs, packets) := softirq_first_pass next in
      if negb (header_avl skb) then (SoftDiscard skb :: evs, packets)
      else if pkt_bogus skb then (SoftDiscard skb :: evs, packets)
      else if h_type skb =? FREEZE then (SoftDiscard skb :: evs, packets)
      else if pkt_short skb then (SoftDispatch [skb] :: evs, packets)
      else (evs, skb :: packets)
  end.

(** The test of the inner loop: same [sender_id], same source. *)
Definition same_rpc (skb skb2 : sk_buff) : bool :=
  (h_sender_id skb2 =? h_sender_id skb) && (skb_saddr skb =? skb_saddr skb2).

(** The inner loop of the second part: the packets after [skb] are
    divided, in order, between the list of [skb] and [other_pkts]. *)
Fixpoint softirq_split (skb : sk_buff) (l : list sk_buff)
  : list sk_buff * list sk_buff :=
  match l with
  | [] => ([], [])
  | skb2 :: next =>
      let '(same, other_pkts) := softirq_split skb next in
      if same_rpc skb skb2 then (skb2 :: same, other_pkts)
      else (same, skb2 :: other_pkts)
  end.

(** The loop [while (packets)]. *)
Fixpoint softirq_second_pass (fuel : nat) (packets : list sk_buff)
  : option (list softirq_event) :=
  match packets with
  | [] => Some []
  | skb :: rest =>
      match fuel with
      | O => None
      | S fuel' =>
          let '(same, other_pkts) := softirq_split skb rest in
          (SoftDispatch (skb :: same) ::.)
            <$> softirq_second_pass fuel' other_pkts
      end
  end.

(** [homa_softirq]: [skb] and the packets on its [frag_list]. *)
Definition homa_softirq (fuel : nat) (skb : sk_buff)
    (frag_list : list sk_buff) : option (Z * list softirq_event) :=
  let packets := skb :: frag_list in
  let '(evs1, packets) := softirq_first_pass packets in
  evs2 ← softirq_second_pass fuel packets;
  Some (0, evs1 ++ evs2).

(** The packets that a run has freed, and those that it has passed on,
    call by call. *)
Definition discarded (evs : list softirq_event) : list sk_buff :=
  omap (fun ev => match ev with SoftDiscard p => Some p | _ => None end) evs.

Definition dispatches (evs : list softirq_event) : list (list sk_buff) :=
  omap (fun ev => match ev with SoftDispatch l => Some l | _ => None end) evs.

(** A packet that the first loop does not free. *)
Definition pkt_accepted (skb : sk_buff) : bool :=
  header_avl skb && negb (pkt_bogus skb) && negb (h_type skb =? FREEZE).

(** Lists of packets as the second loop passes them on: in each list
    the packets are of the RPC of the first one, and no two lists hold
    packets of the same RPC. *)
Definition batches_ok (bs : list (list sk_buff)) : Prop :=
  (∀ b, b ∈ bs →
     ∃ h t, b = h :: t ∧ Forall (fun q => same_rpc h q = true) t)
  ∧ (∀ i j b1 b2 p q, bs !! i = Some b1 → bs !! j = Some b2 →
       p ∈ b1 → q ∈ b2 → same_rpc p q = true → i = j).

End SoftirqModel.

(** A grant, and three data packets of long messages of which the first
    and the third belong to one RPC; a packet that is too short. *)
Definition pkt_grant : sk_buff := mk_skb true 33 17 7 0 1000.
Definition pkt_data (id offset : Z) : sk_buff :=
  mk_skb true (1500 + offset) 16 id 100000 1000.
Definition pkt_runt : sk_buff := mk_skb true 10 16 7 100000 1000.

(** ** Loading and unloading the module (the plumbing file) *)

(** What [homa_load] registers, sets up or starts, in its order:
    [homa_prot], [homav6_prot], [homa_protosw], [homav6_protosw],
    [homa_protocol], [homav6_protocol], the [struct homa], the metrics,
    the sysctl table, the offloads, [homa_net_ops], the timer thread,
    the GRO hook and the time trace. *)
Inductive module_part :=
  | PartProto | PartProtoV6 | PartProtosw | PartProtoswV6
  | PartProtocol | PartProtocolV6 | PartHoma | PartMetrics | PartSysctl
  | PartOffload | PartPernet | PartTimerThread | PartGroHook
  | PartTimetrace.

Global Instance module_part_eq_dec : EqDecision module_part.
Proof. solve_decision. Defined.

(** A call that registers (sets up, starts) a part, and one that
    unregisters (destroys, stops) it. *)
Inductive module_event :=
  | ModUp (p : module_part)
  | ModDown (p : module_part).

(** What each call of [homa_load] that can fail returns; for
    [register_net_sysctl] and [kthread_run], which return pointers,
    nonzero stands for a null pointer and for the error that the pointer
    encodes. *)
Record load_env := mk_load_env {
  load_result : module_part -> Z
}.

(** The labels at the end of [homa_load], each falling through to the
    next. *)
Definition proto_register_err (status : Z) (log : list module_event)
  : Z * list module_event := (status, log).

Definition proto_register_v6_err (status : Z) (log : list module_event) :=
  proto_register_err status (log ++ [ModDown PartProto]).

Definition register_protosw_v6_err (status : Z) (log : list module_event) :=
  proto_register_v6_err status
    (log ++ [ModDown PartProtosw; ModDown PartProtoV6]).

Definition add_protocol_err (status : Z) (log : list module_event) :=
  register_protosw_v6_err status (log ++ [ModDown PartProtoswV6]).

Definition add_protocol_v6_err (status : Z) (log : list module_event) :=
  add_protocol_err status (log ++ [ModDown PartProtocol]).

Definition homa_init_err (status : Z) (log : list module_event) :=
  add_protocol_v6_err status (log ++ [ModDown PartProtocolV6]).

Definition metrics_err (status : Z) (log : list module_event) :=
  homa_init_err status (log ++ [ModDown PartHoma]).

Definition sysctl_err (status : Z) (log : list module_event) :=
  metrics_err status (log ++ [ModDown PartMetrics]).

Definition offload_err (status : Z) (log : list module_event) :=
  sysctl_err status (log ++ [ModDown PartSysctl]).

Definition net_err (status : Z) (log : list module_event) :=
  offload_err status (log ++ [ModDown PartOffload]).

Definition timer_err (status : Z) (log : list module_event) :=
  net_err status (log ++ [ModDown PartPernet]).

(** [homa_load], as compiled without [__STRIP__] and [__UPSTREAM__]:
    the status that it returns and the calls that it has made. *)
Definition homa_load (e : load_env) : Z * list module_event :=
  let log := [] in
  let status := load_result e PartProto in
  if negb (status =? 0) then proto_register_err status log else
  let log := log ++ [ModUp PartProto] in
  let status := load_result e PartProtoV6 in
  if negb (status =? 0) then proto_register_v6_err status log else
  let log := log ++ [ModUp PartProtoV6] in
  let log := log ++ [ModUp PartProtosw] in
  let status := load_result e PartProtoswV6 in
  if negb (status =? 0) then register_protosw_v6_err status log else
  let log := log ++ [ModUp PartProtoswV6] in
  let status := load_result e PartProtocol in
  if negb (status =? 0) then add_protocol_err status log else
  let log := log ++ [ModUp PartProtocol] in
  let status := load_result e PartProtocolV6 in
  if negb (status =? 0) then add_protocol_v6_err status log else
  let log := log ++ [ModUp PartProtocolV6] in
  let status := load_result e PartHoma in
  if negb (status =? 0) then homa_init_err status log else
  let log := log ++ [ModUp PartHoma] in
  let status := load_result e PartMetrics in
  if negb (status =? 0) then metrics_err status log else
  let log := log ++ [ModUp PartMetrics] in
  if negb (load_result e PartSysctl =? 0) then sysctl_err (- ENOMEM) log else
  let log := log ++ [ModUp PartSysctl] in
  let status := load_result e PartOffload in
  if negb (status =? 0) then offload_err status log else
  let log := log ++ [ModUp PartOffload] in
  let status := load_result e PartPernet in
  if negb (status =? 0) then net_err status log else
  let log := log ++ [ModUp PartPernet] in
  if negb (load_result e PartTimerThread =? 0) then
    timer_err (load_result e PartTimerThread) log
  else
  let log := log ++ [ModUp PartTimerThread] in
  let log := log ++ [ModUp PartGroHook] in
  let log := log ++ [ModUp PartTimetrace] in
  (0, log).

(** [homa_unload], as compiled without [__STRIP__] and [__UPSTREAM__];
    [timer_kthread] tells whether the variable of that name is set. *)
Definition homa_unload (timer_kthread : bool) : list module_event :=
  [ModDown PartGroHook]
  ++ (if timer_kthread then [ModDown PartTimerThread] else [])
  ++ [ModDown PartOffload; ModDown PartSysctl; ModDown PartMetrics;
      ModDown PartPernet; ModDown PartHoma; ModDown PartProtocol;
      ModDown PartProtosw; ModDown PartProtocolV6; ModDown PartProtoswV6;
      ModDown PartProto; ModDown PartProtoV6; ModDown PartTimetrace].

(** The parts that are up after the calls of [log], starting from
    [up], latest first; [None] if a part is brought up twice, or taken
    down while it is not up. *)
Fixpoint module_live (log : list module_event) (up : list module_part)
  : option (list module_part) :=
  match log with
  | [] => Some up
  | ModUp p :: rest =>
      if bool_decide (p ∈ up) then None else module_live rest (p :: up)
  | ModDown p :: rest =>
      if bool_decide (p ∈ up)
      then module_live rest (filter (fun q => q ≠ p) up)
      else None
  end.

(** The same with the parts as a stack: a part can only be taken down
    when it is the last one brought up that is still up. *)
Fixpoint module_unwind (log : list module_event) (up : list module_part)
  : option (list module_part) :=
  match log with
  | [] => Some up
  | ModUp p :: rest => module_unwind rest (p :: up)
  | ModDown p :: rest =>
      match up with
      | q :: up' => if bool_decide (p = q) then module_unwind rest up'
                    else None
      | [] => None
      end
  end.

(** The first call of [homa_load] that fails in surroundings [e], if
    any. *)
Definition first_failure (e : load_env) : option module_part :=
  head (filter (fun p => load_result e p ≠ 0)
          [PartProto; PartProtoV6; PartProtoswV6; PartProtocol;
           PartProtocolV6; PartHoma; PartMetrics; PartSysctl; PartOffload;
           PartPernet; PartTimerThread]).

(** ** The sysctl target gen3_softirq_cores (the plumbing file)

    [homa_offload_core] is a per-CPU variable; what the handler touches
    of it is the array [gen3_softirq_cores] of each core, so the state is
    one row of integers for each core.  [kmalloc_array] and
    [proc_dointvec] belong to the kernel: whether memory is found, what
    [proc_dointvec] stores in the array on a write and what it returns
    are given by the surroundings. *)
Record sysctl_env := mk_sysctl_env {
  kmalloc_ok : bool;
  proc_dointvec_write : list Z -> Z -> Z * list Z;
  proc_dointvec_read : list (option Z) -> Z -> Z
}.

Section SysctlModel.
(** [NUM_GEN3_SOFTIRQ_CORES] is defined in homa_offload.h, which is not
    at hand; [nr_cpu_ids] is the kernel's. *)
Variable NUM_GEN3_SOFTIRQ_CORES : nat.
Variable nr_cpu_ids : nat.

Definition max_values : nat := ((NUM_GEN3_SOFTIRQ_CORES + 1) * nr_cpu_ids)%nat.

(** [for (j = 0; j < NUM_GEN3_SOFTIRQ_CORES; j++)
       offload_core->gen3_softirq_cores[j] = values[i + j + 1];] *)
Definition softirq_cores_set_row (values : list Z) (i : nat) (row : list Z)
  : list Z :=
  foldl (fun r j => <[j := default 0 (values !! (i + j + 1)%nat)]> r) row
    (seq 0 NUM_GEN3_SOFTIRQ_CORES).

(** The loop of the write over the positions [i] of the core ids; it
    stops at the first negative id.  [per_cpu] of a number that is not
    a core is outside the variable: no result. *)
Fixpoint softirq_cores_store (positions : list nat) (values : list Z)
    (cores : list (list Z)) : option (list (list Z)) :=
  match positions with
  | [] => Some cores
  | i :: rest =>
      match values !! i with
      | None => None
      | Some c =>
          if c <? 0 then Some cores
          else
            match cores !! Z.to_nat c with
            | None => None
            | Some row =>
                softirq_cores_store rest values
                  (<[Z.to_nat c := softirq_cores_set_row values i row]> cores)
            end
      end
  end.

(** The positions [0, N + 1, 2 (N + 1), ...] below [max_values]. *)
Definition softirq_cores_positions : list nat :=
  (fun r => (r * (NUM_GEN3_SOFTIRQ_CORES + 1))%nat) <$> seq 0 nr_cpu_ids.

(** The loop of the read: the array as allocated ([None] is a cell that
    was never written), the position of [dst] and [table_copy.maxlen]. *)
Definition softirq_cores_put (v : Z) (st : list (option Z) * nat * Z)
  : list (option Z) * nat * Z :=
  let '(values, dst, maxlen) := st in
  (<[dst := Some v]> values, S dst, maxlen + sizeof_int).

Fixpoint softirq_cores_fetch (cpus : list nat) (cores : list (list Z))
    (st : list (option Z) * nat * Z)
  : option (list (option Z) * nat * Z) :=
  match cpus with
  | [] => Some st
  | i :: rest =>
      match cores !! i with
      | None => None
      | Some row =>
          softirq_cores_fetch rest cores
            (foldl (fun st j => softirq_cores_put (default 0 (row !! j)) st)
               (softirq_cores_put (Z.of_nat i) st)
               (seq 0 NUM_GEN3_SOFTIRQ_CORES))
      end
  end.

Definition homa_sysctl_softirq_cores (e : sysctl_env) (write : Z)
    (cores : list (list Z)) : option (Z * list (list Z)) :=
  if negb (kmalloc_ok e) then Some (- ENOMEM, cores) else
  if negb (write =? 0) then
    let '(result, values) :=
      proc_dointvec_write e (replicate max_values (-1))
        (Z.of_nat max_values) in
    if negb (result =? 0) then Some (result, cores) else
    cores' ← softirq_cores_store softirq_cores_positions values cores;
    Some (result, cores')
  else
    '(values, _, maxlen) ←
      softirq_cores_fetch (seq 0 nr_cpu_ids) cores
        (replicate max_values None, 0%nat, 0);
    Some (proc_dointvec_read e values maxlen, cores).

(** The per-CPU variable has one row of [NUM_GEN3_SOFTIRQ_CORES]
    integers for each core. *)
Definition cores_ok (cores : list (list Z)) : Prop :=
  length cores = nr_cpu_ids
  ∧ Forall (fun row => length row = NUM_GEN3_SOFTIRQ_CORES) cores.

(** Records of a core id and a row, laid out one after the other. *)
Fixpoint flat_records (recs : list (Z * list Z)) : list Z :=
  match recs with
  | [] => []
  | (c, row) :: rest => c :: row ++ flat_records rest
  end.

Definition record_ok (rec : Z * list Z) : Prop :=
  0 ≤ rec.1 ∧ length rec.2 = NUM_GEN3_SOFTIRQ_CORES.

(** Each record in turn replaces the row of the core that it names. *)
Fixpoint apply_records (recs : list (Z * list Z)) (cores : list (list Z))
  : option (list (list Z)) :=
  match recs with
  | [] => Some cores
  | (c, row) :: rest =>
      if bool_decide (Z.to_nat c < length cores)%nat
      then apply_records rest (<[Z.to_nat c := row]> cores)
      else None
  end.

(** One record for each core, in the order of the cores. *)
Definition core_records (cores : list (list Z)) : list (Z * list Z) :=
  imap (fun i row => (Z.of_nat i, row)) cores.

(** The array ends with the records, or a negative id follows them. *)
Definition records_end (rest : list Z) : Prop :=
  rest = [] ∨ ∃ c rest', rest = c :: rest' ∧ c < 0.

End SysctlModel.

(** Three cores with two values each. *)
Definition cores3 : list (list Z) := [[0; 0]; [1; 1]; [2; 2]].

(** [proc_dointvec] stores the integers [parsed] at the start of the
    array on a write, and succeeds on a read. *)
Definition sysctl_env_parsed (parsed : list Z) : sysctl_env :=
  mk_sysctl_env true
    (fun values _ => (0, parsed ++ drop (length parsed) values))
    (fun _ _ => 0).

(** [proc_dointvec] as the kernel has it: on a write it stores the
    integers [parsed], as many of them as fit in [maxlen] bytes, at the
    start of the array. *)
Definition sysctl_env_bytes (parsed : list Z) : sysctl_env :=
  mk_sysctl_env true
    (fun values maxlen =>
       let stored := take (Z.to_nat (maxlen / sizeof_int)) parsed in
       (0, stored ++ drop (length stored) values))
    (fun _ _ => 0).

(** Surroundings in which every copy succeeds and the pool functions do
    nothing; no RPC is aborted by the functions that are not at hand. *)
Definition sockopt_env_ok : sockopt_env :=
  mk_sockopt_env true true true true (fun k _ _ _ _ => (0, k))
    (fun _ _ => mk_rcvbuf_args 0 0).

Definition ioctl_env_ok : ioctl_env :=
  mk_ioctl_env true (fun k _ _ => k) (fun k _ _ => k).

(** The [int] [cmd] names the command [c], an unsigned constant: it has
    the value of [c], or that value less 2^32 when [c] does not fit an
    [int]. *)
Definition int_is_cmd (cmd c : Z) : Prop :=
  cmd = c ∨ cmd = c - 4294967296.

(** [HOMAIOCABORT] as the [int] that [homa_ioctl] receives. *)
Definition cmd_abort : Z := -1071609373.

Section TableInputs.
Context `{homa_consts}.

(** Socket 2 bound to port 100, and then closed. *)
Definition k_bound : kstate := after_bind k_two hsk2 100.

Definition k_closed : kstate := default k_bound (homa_close k_bound hsk2 0).

(** Two namespaces: sockets 1 and 2 in the first, socket 3 in the
    second. *)
Definition net1 : net_ptr := 1%nat.

Definition k_boot2 : kstate :=
  mk_kstate 1000000 ∅
    {[ net0 := mk_net (HOMA_MIN_DEFAULT_PORT - 1);
       net1 := mk_net (HOMA_MIN_DEFAULT_PORT - 1) ]}
    {[ hsk1 := zeroed_sock net0 AF_INET6 100;
       hsk2 := zeroed_sock net0 AF_INET6 100;
       hsk3 := zeroed_sock net1 AF_INET 100 ]}
    ∅ 0%nat 2 [].

Definition k_nets : kstate :=
  after_socket (after_socket (after_socket k_boot2 hsk1) hsk2) hsk3.

(** Socket 1, connected, after a request has been sent on it: the
    socket has a client RPC, with id 2. *)
Definition k_request : kstate :=
  match homa_sendmsg env_ok k_conn hsk1 (send_msg true None 0 args_request 0)
  with
  | Some (_, k', _) => k'
  | None => k_conn
  end.

End TableInputs.

(** * Properties *)

Section Examples.
Local Existing Instance linux_consts.

Example boot_init_port :
  hsk_port <$> (socks k_one !! hsk1) = Some 32768.
Proof. vm_compute. reflexivity. Qed.

Example boot_init2_port :
  hsk_port <$> (socks k_two !! hsk2) = Some 32769.
Proof. vm_compute. reflexivity. Qed.

End Examples.


(** ** The socket table *)

Section SockTabFacts.
Context `{homa_consts}.

Lemma bucket_find_Some ss hnet port l p :
  bucket_find ss hnet port l = Some p →
  p ∈ l ∧ ∃ s, ss !! p = Some s ∧ hsk_port s = port ∧ hsk_hnet s = Some hnet.
Proof.
  induction l as [|q l IH]; simpl; [discriminate|].
  destruct (ss !! q) as [s|] eqn:Hq.
  - destruct (bool_decide (hsk_port s = port)) eqn:Hp;
      destruct (bool_decide (hsk_hnet s = Some hnet)) eqn:Hn; simpl;
      try (intros Hf; destruct (IH Hf) as [? ?]; split; [by right|done]).
    intros [= <-]. apply bool_decide_eq_true in Hp, Hn.
    split; [by left|]. by exists s.
  - intros Hf; destruct (IH Hf) as [? ?]; split; [by right|done].
Qed.

Lemma bucket_find_ext ss ss' hnet port l :
  (∀ p, p ∈ l → ss !! p = ss' !! p) →
  bucket_find ss hnet port l = bucket_find ss' hnet port l.
Proof.
  induction l as [|q l IH]; simpl; [done|]. intros Hl.
  rewrite <- (Hl q) by (by left).
  rewrite IH; [done|]. intros p Hp. apply Hl. by right.
Qed.

Lemma bucket_find_head ss hnet port p l s :
  ss !! p = Some s → hsk_port s = port → hsk_hnet s = Some hnet →
  bucket_find ss hnet port (p :: l) = Some p.
Proof.
  intros Hs Hp Hn. simpl. rewrite Hs.
  by rewrite !bool_decide_eq_true_2.
Qed.

Lemma bucket_of_add_head hsk b t :
  bucket_of (hlist_add_head hsk b t) b = hsk :: bucket_of t b.
Proof. unfold bucket_of, hlist_add_head. by rewrite lookup_insert_eq. Qed.

Lemma bucket_of_add_head_ne hsk b b' t :
  b ≠ b' → bucket_of (hlist_add_head hsk b t) b' = bucket_of t b'.
Proof.
  intros Hb. unfold bucket_of at 1, hlist_add_head.
  by rewrite lookup_insert_ne.
Qed.

Lemma bucket_of_del hsk t b :
  bucket_of (hlist_del hsk t) b = filter (fun p => p ≠ hsk) (bucket_of t b).
Proof.
  unfold bucket_of, hlist_del. rewrite lookup_fmap.
  by destruct (t !! b).
Qed.

Lemma not_in_bucket_of_del hsk t b : hsk ∉ bucket_of (hlist_del hsk t) b.
Proof.
  rewrite bucket_of_del. intros Hin.
  apply list_elem_of_filter in Hin. by destruct Hin.
Qed.

(** A socket that is in no bucket is never the result of a lookup. *)
Lemma homa_sock_find_not_linked k hsk hnet port :
  (∀ b, hsk ∉ bucket_of (socktab k) b) →
  homa_sock_find k hnet port ≠ Some hsk.
Proof.
  intros Hno Hf. unfold homa_sock_find in Hf.
  apply bucket_find_Some in Hf as [Hin _]. by apply Hno in Hin.
Qed.

(** What a lookup returns is a socket with that port in that namespace. *)
Lemma homa_sock_find_owner k hnet port p :
  homa_sock_find k hnet port = Some p →
  ∃ s, socks k !! p = Some s ∧ hsk_port s = port ∧ hsk_hnet s = Some hnet.
Proof. intros Hf. by apply bucket_find_Some in Hf as [_ ?]. Qed.

End SockTabFacts.

(** ** bind *)

Section Bind.
Context `{homa_consts}.

Lemma u16_small port : 0 ≤ port < 65536 → u16 port = port.
Proof. intros. unfold u16. by apply Z.mod_small. Qed.

Lemma geb_false a b : a < b → (a >=? b) = false.
Proof. intros. rewrite Z.geb_leb. by apply Z.leb_gt. Qed.

Lemma geb_true a b : b ≤ a → (a >=? b) = true.
Proof. intros. rewrite Z.geb_leb. by apply Z.leb_le. Qed.

Lemma eqb_false a b : a ≠ b → (a =? b) = false.
Proof. apply Z.eqb_neq. Qed.

(** An [int] that is not negative keeps its value as a [size_t]; a
    negative one becomes larger than every [sizeof]. *)
Lemma to_size_t_small z : 0 ≤ z ≤ 2147483647 → to_size_t z = z.
Proof. intros. unfold to_size_t. apply Z.mod_small. lia. Qed.

Lemma to_size_t_negative z :
  - 2147483648 ≤ z < 0 → to_size_t z = z + 18446744073709551616.
Proof.
  intros. unfold to_size_t. symmetry.
  apply (Z.mod_unique _ _ (-1)); lia.
Qed.

Lemma to_size_t_ltb_short z n :
  0 ≤ z < n → n ≤ 2147483647 → (to_size_t z <? n) = true.
Proof.
  intros. rewrite to_size_t_small by lia. apply Z.ltb_lt. lia.
Qed.

Lemma to_size_t_ltb_long z n :
  n ≤ z ≤ 2147483647 → 0 ≤ n → (to_size_t z <? n) = false.
Proof.
  intros. rewrite to_size_t_small by lia. apply Z.ltb_ge. lia.
Qed.

Lemma to_size_t_ltb_negative z n :
  - 2147483648 ≤ z < 0 → n ≤ 2147483647 → (to_size_t z <? n) = false.
Proof.
  intros. rewrite to_size_t_negative by lia. apply Z.ltb_ge. lia.
Qed.

(** The last branch of [homa_sock_bind]: the port is free. *)
Lemma homa_sock_bind_free k hnet hsk s port :
  socks k !! hsk = Some s →
  hsk_hnet s = Some hnet →
  0 < port < 65536 → port < HOMA_MIN_DEFAULT_PORT →
  shutdown s = false →
  homa_sock_find k hnet port = None →
  ∃ k', homa_sock_bind k hnet hsk port = Some (0, k')
        ∧ socks k' = <[hsk := sock_bound port s]> (socks k)
        ∧ homa_sock_find k' hnet port = Some hsk
        ∧ (∀ q, q ≠ port → homa_sock_find k' hnet q ≠ Some hsk).
Proof.
  intros Hs Hn Hp Hm Hsh Hf. unfold homa_sock_bind.
  rewrite u16_small by lia.
  rewrite eqb_false, geb_false by lia.
  rewrite Hs. simpl. rewrite Hsh, Hf.
  eexists. split; [reflexivity|]. split; [reflexivity|]. split.
  - unfold homa_sock_find. simpl. rewrite bucket_of_add_head.
    eapply bucket_find_head; [apply lookup_insert_eq|done|done].
  - intros q Hq Hfind. apply homa_sock_find_owner in Hfind as (s' & Hs' & Hport & _).
    simpl in Hs'. rewrite lookup_insert_eq in Hs'. injection Hs' as <-.
    simpl in Hport. lia.
Qed.

(** C2, as amended: the outcomes of [homa_sock_bind], in the order in
    which the code tests for them.  Port 0 is a no-op that returns 0; a
    port at or above [HOMA_MIN_DEFAULT_PORT] gives [EINVAL]; on a socket
    that has been shut down the call gives [ESHUTDOWN]; a port owned by
    another socket of the namespace gives [EADDRINUSE]; in all these
    cases nothing changes.  A port that the socket owns already gives 0
    and no change; a free port becomes the socket's port, under which the
    table then finds the socket (and under no other), and 0 is
    returned. *)
Theorem homa_sock_bind_outcomes k hnet hsk s port :
  socks k !! hsk = Some s →
  hsk_hnet s = Some hnet →
  0 ≤ port < 65536 →
  (port = 0 → homa_sock_bind k hnet hsk port = Some (0, k))
  ∧ (port ≠ 0 → HOMA_MIN_DEFAULT_PORT ≤ port →
     homa_sock_bind k hnet hsk port = Some (- EINVAL, k))
  ∧ (port ≠ 0 → port < HOMA_MIN_DEFAULT_PORT → shutdown s = true →
     homa_sock_bind k hnet hsk port = Some (- ESHUTDOWN, k))
  ∧ (port ≠ 0 → port < HOMA_MIN_DEFAULT_PORT → shutdown s = false →
     ∀ owner, homa_sock_find k hnet port = Some owner → owner ≠ hsk →
     homa_sock_bind k hnet hsk port = Some (- EADDRINUSE, k))
  ∧ (port ≠ 0 → port < HOMA_MIN_DEFAULT_PORT → shutdown s = false →
     homa_sock_find k hnet port = Some hsk →
     homa_sock_bind k hnet hsk port = Some (0, k))
  ∧ (port ≠ 0 → port < HOMA_MIN_DEFAULT_PORT → shutdown s = false →
     homa_sock_find k hnet port = None →
     ∃ k' s', homa_sock_bind k hnet hsk port = Some (0, k')
        ∧ socks k' !! hsk = Some s'
        ∧ hsk_port s' = port ∧ inet_num s' = port
        ∧ homa_sock_find k' hnet port = Some hsk
        ∧ (∀ q, q ≠ port → homa_sock_find k' hnet q ≠ Some hsk)).
Proof.
  intros Hs Hn Hp.
  split; [intros ->; reflexivity|].
  split; [|split; [|split; [|split]]].
  - intros H0 Hm. unfold homa_sock_bind. rewrite u16_small by lia.
    by rewrite eqb_false, geb_true.
  - intros H0 Hm Hsh. unfold homa_sock_bind. rewrite u16_small by lia.
    rewrite eqb_false, geb_false, Hs by done.
    simpl. by rewrite Hsh.
  - intros H0 Hm Hsh owner Hf Hne. unfold homa_sock_bind.
    rewrite u16_small by lia.
    rewrite eqb_false, geb_false, Hs by done.
    simpl. rewrite Hsh, Hf. by rewrite bool_decide_eq_true_2.
  - intros H0 Hm Hsh Hf. unfold homa_sock_bind.
    rewrite u16_small by lia.
    rewrite eqb_false, geb_false, Hs by done.
    simpl. rewrite Hsh, Hf. rewrite bool_decide_eq_false_2; [done|].
    intros Hne. by apply Hne.
  - intros H0 Hm Hsh Hf.
    destruct (homa_sock_bind_free k hnet hsk s port) as (k' & Hb & Hss & Hfound & Hother);
      try done; [lia|].
    exists k', (sock_bound port s). rewrite Hss, lookup_insert_eq. done.
Qed.

(** C9: a [homa_sock_bind] with a nonzero port that returns 0 has either
    found the port in the socket's own hands, and then nothing changes
    (the flag included), or has moved the socket to the port and set
    [is_server], whatever the flag was.  A socket in use that asks for a
    bindable port that it owns gets 0. *)
Theorem homa_sock_bind_sets_is_server k hnet hsk s port :
  socks k !! hsk = Some s →
  0 < port < 65536 →
  (∀ k', homa_sock_bind k hnet hsk port = Some (0, k') →
     (homa_sock_find k hnet port = Some hsk ∧ k' = k)
     ∨ (homa_sock_find k hnet port = None
        ∧ ∃ s', socks k' !! hsk = Some s' ∧ is_server s' = true
                ∧ hsk_port s' = port))
  ∧ (port < HOMA_MIN_DEFAULT_PORT → shutdown s = false →
     homa_sock_find k hnet port = Some hsk →
     homa_sock_bind k hnet hsk port = Some (0, k)).
Proof.
  intros Hs Hp. unfold homa_sock_bind. rewrite u16_small by lia.
  rewrite eqb_false by lia. split.
  - intros k'.
    destruct (port >=? HOMA_MIN_DEFAULT_PORT); [intros [=]|].
    rewrite Hs. simpl. destruct (shutdown s); [intros [=]|].
    destruct (homa_sock_find k hnet port) as [owner|] eqn:Hf.
    + case_bool_decide as Hne; [intros [=]|]. intros [= <-].
      left. split; [|done]. f_equal. by destruct (decide (owner = hsk)).
    + intros [= <-]. right. split; [done|].
      exists (sock_bound port s). simpl. by rewrite lookup_insert_eq.
  - intros Hmin Hsh Hf. rewrite geb_false, Hs by done. simpl.
    rewrite Hsh, Hf. rewrite bool_decide_eq_false_2; [done|].
    intros Hne. by apply Hne.
Qed.

(** The system call: with the socket's family and a long enough address,
    [homa_bind] is [homa_sock_bind] on the port of the address. *)
Lemma homa_bind_sock_bind k hsk s hnet addr addr_len :
  socks k !! hsk = Some s → hsk_hnet s = Some hnet →
  sa_family addr = sk_family s →
  addr_len ≤ 2147483647 →
  (sa_family addr = AF_INET ∧ sizeof_sockaddr_in ≤ addr_len)
  ∨ (sa_family addr = AF_INET6 ∧ sizeof_sockaddr_in6 ≤ addr_len) →
  homa_bind k hsk addr addr_len
  = homa_sock_bind k hnet hsk (ntohs (sa_port addr)).
Proof.
  intros Hs Hn Hfam Hint Hlen. unfold homa_bind. rewrite Hs. simpl.
  rewrite <- Hfam, Z.eqb_refl. simpl.
  destruct Hlen as [[Hf Hl]|[Hf Hl]]; rewrite Hf; simpl;
    rewrite to_size_t_ltb_long, Hn by (unfold sizeof_sockaddr_in,
      sizeof_sockaddr_in6 in *; lia); done.
Qed.

End Bind.

Section BindInputs.
Local Existing Instance linux_consts.

(** C2 as stated fails: socket 2 has been shut down, port 100 is neither
    zero nor a default port and no socket owns it, and yet the call does
    not move the socket to the port: it returns [ESHUTDOWN]. *)
Lemma homa_sock_bind_shutdown_counterexample :
  shutdown (the_sock k_shut hsk2) = true
  ∧ 0 < 100 < HOMA_MIN_DEFAULT_PORT
  ∧ homa_sock_find k_shut net0 100 = None
  ∧ homa_sock_bind k_shut net0 hsk2 100 = Some (- ESHUTDOWN, k_shut).
Proof. vm_compute. repeat split; reflexivity. Qed.

Lemma homa_sock_bind_outcomes_witness :
  ∃ k' s', homa_sock_bind k_two net0 hsk2 100 = Some (0, k')
     ∧ socks k' !! hsk2 = Some s'
     ∧ hsk_port s' = 100 ∧ inet_num s' = 100
     ∧ homa_sock_find k' net0 100 = Some hsk2
     ∧ (∀ q, q ≠ 100 → homa_sock_find k' net0 q ≠ Some hsk2).
Proof.
  refine (proj2 (proj2 (proj2 (proj2 (proj2
    (homa_sock_bind_outcomes k_two net0 hsk2 (the_sock k_two hsk2) 100
       _ _ _))))) _ _ _ _);
    vm_compute; try reflexivity; try (split; [discriminate|reflexivity]);
    discriminate.
Defined.

Lemma homa_sock_bind_sets_is_server_witness :
  is_server (the_sock k_two hsk2) = false
  ∧ (∀ k', homa_sock_bind k_two net0 hsk2 100 = Some (0, k') →
       (homa_sock_find k_two net0 100 = Some hsk2 ∧ k' = k_two)
       ∨ (homa_sock_find k_two net0 100 = None
          ∧ ∃ s', socks k' !! hsk2 = Some s' ∧ is_server s' = true
                  ∧ hsk_port s' = 100))
  ∧ fst <$> homa_sock_bind k_two net0 hsk2 100 = Some 0.
Proof.
  split; [vm_compute; reflexivity|]. split; [|vm_compute; reflexivity].
  refine (proj1 (homa_sock_bind_sets_is_server k_two net0 hsk2
                   (the_sock k_two hsk2) 100 _ _)).
  - vm_compute; reflexivity.
  - lia.
Defined.

End BindInputs.

(** ** connect *)

Section Connect.
Context `{homa_consts}.

(** On a connected socket every [sendmsg] that names a destination is
    refused, whichever variant handles it. *)
Lemma homa_sendmsg_connected_named e k hsk s msg :
  socks k !! hsk = Some s → connected s = true →
  msg_name msg ≠ None →
  homa_sendmsg e k hsk msg = Some (- EINVAL, k, msg_control msg).
Proof.
  intros Hs Hc Hname. unfold homa_sendmsg. rewrite Hs. simpl. rewrite Hc.
  destruct (msg_control_is_user msg).
  - unfold homa_sendmsg_user_connected. rewrite Hs. simpl.
    by rewrite bool_decide_eq_true_2.
  - unfold homa_sendmsg_in_kernel_connected. rewrite Hs. simpl.
    by rewrite bool_decide_eq_true_2.
Qed.

Lemma homa_connect_again k hsk s addr addrlen :
  socks k !! hsk = Some s → connected s = true →
  homa_connect k hsk addr addrlen = Some (- EISCONN, k).
Proof.
  intros Hs Hc. unfold homa_connect, __homa_connect.
  rewrite Hs. simpl. by rewrite Hc.
Qed.

(** The bytes that [__homa_connect] stores are those of the caller's
    address, up to the size of the family's structure. *)
Lemma sockaddr_copy_whole addr :
  length (sa_data addr) = 24%nat →
  sockaddr_copy sizeof_sockaddr_in6 addr = addr.
Proof.
  intros Hl. destruct addr as [f p d]. unfold sockaddr_copy. simpl in *.
  f_equal. change (Z.to_nat (sizeof_sockaddr_in6 - 4)) with 24%nat.
  rewrite firstn_all2 by lia. rewrite <- Hl. apply resize_all.
Qed.

(** What [memset] and [memcpy] leave in [hsk->target_addr]: the first
    [n] bytes of the caller's block, and zeroes after them. *)
Lemma sockaddr_copy_bytes n addr :
  4 ≤ n ≤ 28 →
  sa_family (sockaddr_copy n addr) = sa_family addr
  ∧ sa_port (sockaddr_copy n addr) = sa_port addr
  ∧ length (sa_data (sockaddr_copy n addr)) = 24%nat
  ∧ (∀ (i : nat) b, (i < Z.to_nat (n - 4))%nat →
       sa_data addr !! i = Some b →
       sa_data (sockaddr_copy n addr) !! i = Some b)
  ∧ (∀ i : nat, (Z.to_nat (n - 4) ≤ i < 24)%nat →
       sa_data (sockaddr_copy n addr) !! i = Some 0).
Proof.
  intros Hn. unfold sockaddr_copy. simpl.
  split; [done|]. split; [done|]. split; [apply length_resize|]. split.
  - intros i b Hi Hb.
    assert (i < length (sa_data addr))%nat
      by (apply lookup_lt_is_Some; by eexists).
    rewrite lookup_resize by (rewrite ?length_take; lia).
    by rewrite lookup_take_lt.
  - intros i Hi. apply lookup_resize_new; [|lia].
    rewrite length_take. lia.
Qed.

(** C10: the outcomes of [homa_connect], in the order in which the code
    tests for them.  A connected socket gives [EISCONN] and keeps its
    target; a socket that has been shut down gives [ESHUTDOWN]; a family
    other than [AF_INET] and [AF_INET6] gives [EAFNOSUPPORT]; a length
    from 0 up to, and not including, the size of the family's address
    gives [EINVAL]; with a length of at least that size the socket is
    connected and 0 is returned, nothing else in the state changes, and
    the target address stored has the family, the port and the bytes of
    the caller's address up to that size, and zeroes after them; after
    that a further connect gives [EISCONN] and a [sendmsg] that names a
    destination gives [EINVAL]. *)
Theorem homa_connect_outcomes k hsk s addr addrlen :
  socks k !! hsk = Some s →
  (connected s = true →
   homa_connect k hsk addr addrlen = Some (- EISCONN, k))
  ∧ (connected s = false → shutdown s = true →
     homa_connect k hsk addr addrlen = Some (- ESHUTDOWN, k))
  ∧ (connected s = false → shutdown s = false →
     sa_family addr ≠ AF_INET → sa_family addr ≠ AF_INET6 →
     homa_connect k hsk addr addrlen = Some (- EAFNOSUPPORT, k))
  ∧ (connected s = false → shutdown s = false →
     (sa_family addr = AF_INET ∧ 0 ≤ addrlen < sizeof_sockaddr_in)
     ∨ (sa_family addr = AF_INET6 ∧ 0 ≤ addrlen < sizeof_sockaddr_in6) →
     homa_connect k hsk addr addrlen = Some (- EINVAL, k))
  ∧ (connected s = false → shutdown s = false →
     ∀ size,
     (sa_family addr = AF_INET ∧ size = sizeof_sockaddr_in)
     ∨ (sa_family addr = AF_INET6 ∧ size = sizeof_sockaddr_in6) →
     size ≤ addrlen ≤ 2147483647 →
     ∃ k' s',
       homa_connect k hsk addr addrlen = Some (0, k')
       ∧ k' = store_sock hsk s' k
       ∧ socks k' !! hsk = Some s'
       ∧ connected s' = true
       ∧ shutdown s' = false
       ∧ hsk_port s' = hsk_port s
       ∧ sa_family (target_addr s') = sa_family addr
       ∧ sa_port (target_addr s') = sa_port addr
       ∧ length (sa_data (target_addr s')) = 24%nat
       ∧ (∀ (i : nat) b, (i < Z.to_nat (size - 4))%nat →
            sa_data addr !! i = Some b →
            sa_data (target_addr s') !! i = Some b)
       ∧ (∀ i : nat, (Z.to_nat (size - 4) ≤ i < 24)%nat →
            sa_data (target_addr s') !! i = Some 0)
       ∧ (∀ addr2 len2,
            homa_connect k' hsk addr2 len2 = Some (- EISCONN, k'))
       ∧ (∀ e msg, msg_name msg ≠ None →
            homa_sendmsg e k' hsk msg = Some (- EINVAL, k', msg_control msg))).
Proof.
  intros Hs. unfold homa_connect at 1 2 3 4 5, __homa_connect.
  rewrite Hs. simpl.
  split; [by intros ->|]. split; [by intros -> ->|].
  split; [|split].
  - intros -> -> H4 H6. by rewrite !eqb_false.
  - intros -> -> [[Hf Hl]|[Hf Hl]]; rewrite Hf; simpl;
      by rewrite to_size_t_ltb_short
        by (unfold sizeof_sockaddr_in, sizeof_sockaddr_in6 in *; lia).
  - intros Hc Hsh size Hfam Hlen.
    assert (Hsize : 4 ≤ size ≤ 28)
      by (destruct Hfam as [[_ ->]|[_ ->]];
          unfold sizeof_sockaddr_in, sizeof_sockaddr_in6; lia).
    destruct (sockaddr_copy_bytes size addr Hsize)
      as (Hfamily & Hport & Hlength & Hbytes & Hzero).
    exists (store_sock hsk (sock_connected (sockaddr_copy size addr) s) k),
      (sock_connected (sockaddr_copy size addr) s).
    rewrite Hc, Hsh. simpl.
    split.
    { destruct Hfam as [[Hf ->]|[Hf ->]]; rewrite Hf; simpl;
        by rewrite to_size_t_ltb_long
          by (unfold sizeof_sockaddr_in, sizeof_sockaddr_in6 in *; lia). }
    split; [done|]. split; [apply lookup_insert_eq|].
    split; [done|]. split; [done|]. split; [done|].
    split; [done|]. split; [done|]. split; [done|].
    split; [done|]. split; [done|]. split.
    + intros. eapply homa_connect_again; [simpl; apply lookup_insert_eq|done].
    + intros. eapply homa_sendmsg_connected_named;
        [simpl; apply lookup_insert_eq|done|done].
Qed.

(** The length is an [int] and the test is made on [size_t]: a negative
    length is not short for the code, which connects the socket. *)
Lemma homa_connect_negative_addrlen k hsk s addr addrlen :
  socks k !! hsk = Some s →
  connected s = false → shutdown s = false →
  sa_family addr = AF_INET ∨ sa_family addr = AF_INET6 →
  - 2147483648 ≤ addrlen < 0 →
  ∃ k', homa_connect k hsk addr addrlen = Some (0, k').
Proof.
  intros Hs Hc Hsh Hfam Hlen. unfold homa_connect, __homa_connect.
  rewrite Hs. simpl. rewrite Hc, Hsh.
  destruct Hfam as [Hf|Hf]; rewrite Hf; simpl;
    rewrite to_size_t_ltb_negative
      by (unfold sizeof_sockaddr_in, sizeof_sockaddr_in6; lia);
    by eexists.
Qed.

End Connect.

Section ConnectInputs.
Local Existing Instance linux_consts.

Lemma homa_connect_outcomes_witness :
  ∃ k' s',
    homa_connect k_two hsk1 addr_v6 28 = Some (0, k')
    ∧ k' = store_sock hsk1 s' k_two
    ∧ socks k' !! hsk1 = Some s'
    ∧ connected s' = true
    ∧ shutdown s' = false
    ∧ hsk_port s' = hsk_port (the_sock k_two hsk1)
    ∧ sa_family (target_addr s') = sa_family addr_v6
    ∧ sa_port (target_addr s') = sa_port addr_v6
    ∧ length (sa_data (target_addr s')) = 24%nat
    ∧ (∀ (i : nat) b, (i < Z.to_nat (28 - 4))%nat →
         sa_data addr_v6 !! i = Some b →
         sa_data (target_addr s') !! i = Some b)
    ∧ (∀ i : nat, (Z.to_nat (28 - 4) ≤ i < 24)%nat →
         sa_data (target_addr s') !! i = Some 0)
    ∧ (∀ addr2 len2,
         homa_connect k' hsk1 addr2 len2 = Some (- EISCONN, k'))
    ∧ (∀ e msg, msg_name msg ≠ None →
         homa_sendmsg e k' hsk1 msg = Some (- EINVAL, k', msg_control msg)).
Proof.
  refine (proj2 (proj2 (proj2 (proj2
    (homa_connect_outcomes k_two hsk1 (the_sock k_two hsk1) addr_v6 28 _))))
    _ _ 28 _ _).
  - vm_compute; reflexivity.
  - vm_compute; reflexivity.
  - vm_compute; reflexivity.
  - right. split; reflexivity.
  - lia.
Defined.

(** A length of -1 on the same socket: the call connects it. *)
Example homa_connect_minus_one :
  ∃ k', homa_connect k_two hsk1 addr_v6 (-1) = Some (0, k').
Proof. eexists. vm_compute. reflexivity. Qed.

End ConnectInputs.

(** ** ICMP errors *)

Section IcmpErrors.
Context `{homa_consts}.

(** C6, as amended: what the two handlers pass to [homa_abort_rpcs].
    IPv4: destination unreachable with code port-unreachable aborts with
    [ENOTCONN] and the port of the quoted Homa header, with code
    protocol-unreachable it aborts with [EPROTONOSUPPORT], and with every
    other code it aborts with [EHOSTUNREACH]; other types abort nothing.
    IPv6: destination unreachable with code port-unreachable aborts with
    [ENOTCONN] and the port, with code address-unreachable it aborts with
    [EHOSTUNREACH]; parameter problem with code unknown-next-header
    aborts with [EPROTONOSUPPORT]; everything else aborts nothing.  Both
    handlers return 0. *)
Theorem homa_err_handler_outcomes k type code daddr h_dport offset info :
  (type = ICMP_DEST_UNREACH → code = ICMP_PORT_UNREACH →
   homa_err_handler_v4 k type code daddr h_dport info =
     (0, homa_abort_rpcs k (ipv6_addr_set_v4mapped daddr) (ntohs h_dport)
           (- ENOTCONN)))
  ∧ (type = ICMP_DEST_UNREACH → code = ICMP_PROT_UNREACH →
     homa_err_handler_v4 k type code daddr h_dport info =
       (0, homa_abort_rpcs k (ipv6_addr_set_v4mapped daddr) 0
             (- EPROTONOSUPPORT)))
  ∧ (type = ICMP_DEST_UNREACH →
     code ≠ ICMP_PORT_UNREACH → code ≠ ICMP_PROT_UNREACH →
     homa_err_handler_v4 k type code daddr h_dport info =
       (0, homa_abort_rpcs k (ipv6_addr_set_v4mapped daddr) 0
             (- EHOSTUNREACH)))
  ∧ (type ≠ ICMP_DEST_UNREACH →
     homa_err_handler_v4 k type code daddr h_dport info = (0, k))
  ∧ (type = ICMPV6_DEST_UNREACH → code = ICMPV6_PORT_UNREACH →
     homa_err_handler_v6 k type code daddr h_dport offset info =
       (0, homa_abort_rpcs k daddr (ntohs h_dport) (- ENOTCONN)))
  ∧ (type = ICMPV6_DEST_UNREACH → code = ICMPV6_ADDR_UNREACH →
     homa_err_handler_v6 k type code daddr h_dport offset info =
       (0, homa_abort_rpcs k daddr 0 (- EHOSTUNREACH)))
  ∧ (type = ICMPV6_PARAMPROB → code = ICMPV6_UNK_NEXTHDR →
     homa_err_handler_v6 k type code daddr h_dport offset info =
       (0, homa_abort_rpcs k daddr 0 (- EPROTONOSUPPORT)))
  ∧ (¬ (type = ICMPV6_DEST_UNREACH ∧ code = ICMPV6_PORT_UNREACH) →
     ¬ (type = ICMPV6_DEST_UNREACH ∧ code = ICMPV6_ADDR_UNREACH) →
     ¬ (type = ICMPV6_PARAMPROB ∧ code = ICMPV6_UNK_NEXTHDR) →
     homa_err_handler_v6 k type code daddr h_dport offset info = (0, k)).
Proof.
  unfold homa_err_handler_v4, homa_err_handler_v6.
  repeat split.
  - by intros -> ->.
  - by intros -> ->.
  - intros -> Hport Hprot. simpl. by rewrite !eqb_false.
  - intros Htype. by rewrite eqb_false.
  - by intros -> ->.
  - by intros -> ->.
  - by intros -> ->.
  - intros H1 H2 H3.
    destruct (Z.eqb_spec type ICMPV6_DEST_UNREACH) as [Ht|Ht];
      destruct (Z.eqb_spec code ICMPV6_PORT_UNREACH) as [Hc|Hc]; simpl;
      try tauto;
      destruct (Z.eqb_spec code ICMPV6_ADDR_UNREACH) as [Hc'|Hc']; simpl;
      try tauto;
      destruct (Z.eqb_spec type ICMPV6_PARAMPROB) as [Ht'|Ht']; simpl;
      try tauto;
      destruct (Z.eqb_spec code ICMPV6_UNK_NEXTHDR) as [Hc''|Hc'']; simpl;
      tauto.
Qed.

End IcmpErrors.

Section IcmpInputs.
Local Existing Instance linux_consts.

(** C6 as stated fails: "fragmentation needed" is a destination
    unreachable code other than port, protocol and host unreachable, and
    the IPv4 handler aborts the RPCs to that address with
    [EHOSTUNREACH]. *)
Lemma homa_err_handler_v4_frag_needed_counterexample :
  (ICMP_FRAG_NEEDED =? ICMP_PORT_UNREACH) = false
  ∧ (ICMP_FRAG_NEEDED =? ICMP_PROT_UNREACH) = false
  ∧ (ICMP_FRAG_NEEDED =? ICMP_HOST_UNREACH) = false
  ∧ klog k_two = []
  ∧ klog (homa_err_handler_v4 k_two ICMP_DEST_UNREACH ICMP_FRAG_NEEDED
            167772162 (htons 99) 0).2
    = [EvAbortRpcs (ipv6_addr_set_v4mapped 167772162) 0 (- EHOSTUNREACH)].
Proof. vm_compute. repeat split; reflexivity. Qed.

End IcmpInputs.

(** ** shutdown *)

Section Shutdown.
Context `{homa_consts}.

Lemma sock_set_rpc_lists_id s :
  sock_set_rpc_lists (active_rpcs s) (dead_rpcs s) s = s.
Proof. by destruct s. Qed.

Lemma homa_rpc_end_socks k p q s :
  socks k !! q = Some s →
  ∃ a d, socks (homa_rpc_end k p) !! q = Some (sock_set_rpc_lists a d s).
Proof.
  intros Hq. unfold homa_rpc_end.
  destruct (rpcs k !! p) as [r|];
    [|exists (active_rpcs s), (dead_rpcs s); by rewrite sock_set_rpc_lists_id].
  case_bool_decide;
    [exists (active_rpcs s), (dead_rpcs s); by rewrite sock_set_rpc_lists_id|].
  simpl. destruct (socks k !! rpc_hsk r) as [s'|] eqn:Hs'; simpl;
    [|exists (active_rpcs s), (dead_rpcs s); by rewrite sock_set_rpc_lists_id].
  destruct (decide (rpc_hsk r = q)) as [Heq|Hne].
  - rewrite Heq in *. rewrite lookup_insert_eq.
    assert (s' = s) as -> by congruence.
    by eexists _, _.
  - rewrite lookup_insert_ne by done.
    exists (active_rpcs s), (dead_rpcs s). by rewrite sock_set_rpc_lists_id.
Qed.

Lemma homa_rpc_end_frame k p :
  socktab (homa_rpc_end k p) = socktab k
  ∧ klog (homa_rpc_end k p) = klog k
  ∧ nets (homa_rpc_end k p) = nets k.
Proof.
  unfold homa_rpc_end. destruct (rpcs k !! p) as [r|]; [|done].
  case_bool_decide; [done|]. simpl.
  by destruct (socks k !! rpc_hsk r).
Qed.

(** After [homa_rpc_end] the RPC is [DEAD]; other RPCs are as before. *)
Lemma homa_rpc_end_rpcs k p q r :
  rpcs k !! q = Some r →
  ∃ r', rpcs (homa_rpc_end k p) !! q = Some r'
        ∧ (q = p → rpc_state_of r' = RPC_DEAD)
        ∧ (q ≠ p ∨ rpc_state_of r = RPC_DEAD → r' = r).
Proof.
  intros Hq. unfold homa_rpc_end.
  destruct (rpcs k !! p) as [rp|] eqn:Hp.
  - case_bool_decide as Hd.
    + exists r. split; [done|]. split; [|done]. intros ->. congruence.
    + assert (Hr : rpcs (store_rpc p (rpc_set_state RPC_DEAD rp) k) !! q =
                   Some (if decide (p = q) then rpc_set_state RPC_DEAD rp else r)).
      { simpl. rewrite lookup_insert. by destruct (decide (p = q)). }
      assert (Hr' : ∀ k', rpcs k' = rpcs (store_rpc p (rpc_set_state RPC_DEAD rp) k) →
         ∃ r', rpcs k' !! q = Some r'
           ∧ (q = p → rpc_state_of r' = RPC_DEAD)
           ∧ (q ≠ p ∨ rpc_state_of r = RPC_DEAD → r' = r)).
      { intros k' ->. eexists. split; [exact Hr|].
        destruct (decide (p = q)) as [->|Hne].
        - split; [done|]. intros [?|Hdead]; [done|]. congruence.
        - split; [congruence|done]. }
      simpl. destruct (socks k !! rpc_hsk rp); by apply Hr'.
  - exists r. split; [done|]. split; [|done]. intros ->. congruence.
Qed.

Lemma foldl_rpc_end_socks l : ∀ k q s,
  socks k !! q = Some s →
  ∃ a d, socks (foldl homa_rpc_end k l) !! q = Some (sock_set_rpc_lists a d s).
Proof.
  induction l as [|p l IH]; intros k q s Hq; simpl.
  - exists (active_rpcs s), (dead_rpcs s). by rewrite sock_set_rpc_lists_id.
  - destruct (homa_rpc_end_socks k p q s Hq) as (a & d & Hs).
    destruct (IH _ _ _ Hs) as (a' & d' & Hs'). by exists a', d'.
Qed.

Lemma foldl_rpc_end_frame l : ∀ k,
  socktab (foldl homa_rpc_end k l) = socktab k
  ∧ klog (foldl homa_rpc_end k l) = klog k
  ∧ nets (foldl homa_rpc_end k l) = nets k.
Proof.
  induction l as [|p l IH]; intros k; simpl; [done|].
  destruct (IH (homa_rpc_end k p)) as (-> & -> & ->).
  apply homa_rpc_end_frame.
Qed.

Lemma foldl_rpc_end_keeps_dead l : ∀ k q r,
  rpcs k !! q = Some r → rpc_state_of r = RPC_DEAD →
  rpcs (foldl homa_rpc_end k l) !! q = Some r.
Proof.
  induction l as [|p l IH]; intros k q r Hq Hd; simpl; [done|].
  apply IH; [|done].
  destruct (homa_rpc_end_rpcs k p q r Hq) as (r' & Hr' & _ & Hsame).
  rewrite Hr'. f_equal. apply Hsame. by right.
Qed.

(** The loop over [hsk->active_rpcs] leaves every RPC of the list
    [DEAD]. *)
Lemma foldl_rpc_end_dead l : ∀ k q r,
  q ∈ l → rpcs k !! q = Some r →
  ∃ r', rpcs (foldl homa_rpc_end k l) !! q = Some r'
        ∧ rpc_state_of r' = RPC_DEAD.
Proof.
  induction l as [|p l IH]; intros k q r Hin Hq; simpl.
  - by apply not_elem_of_nil in Hin.
  - destruct (homa_rpc_end_rpcs k p q r Hq) as (r' & Hr' & Hdead & _).
    destruct (decide (q = p)) as [->|Hne].
    + exists r'. split; [|by apply Hdead].
      apply foldl_rpc_end_keeps_dead; [done|by apply Hdead].
    + apply elem_of_cons in Hin as [?|Hin]; [done|]. by eapply IH.
Qed.

Lemma foldl_rpc_end_other l : ∀ k q,
  q ∉ l → rpcs (foldl homa_rpc_end k l) !! q = rpcs k !! q.
Proof.
  induction l as [|p l IH]; intros k q Hin; simpl; [done|].
  apply not_elem_of_cons in Hin as [Hne Hin]. rewrite IH by done.
  unfold homa_rpc_end. destruct (rpcs k !! p) as [rp|]; [|done].
  case_bool_decide; [done|]. simpl.
  destruct (socks k !! rpc_hsk rp); simpl; by rewrite lookup_insert_ne.
Qed.

Lemma shutdown_interests_spec l hsk : ∀ k s,
  socks k !! hsk = Some s → interests s = l →
  let k' := shutdown_interests l hsk k in
  socks k' = <[hsk := sock_set_interests [] s]> (socks k)
  ∧ klog k' = klog k ++ map woken l
  ∧ socktab k' = socktab k ∧ rpcs k' = rpcs k ∧ nets k' = nets k.
Proof.
  induction l as [|i l IH]; intros k s Hs Hl; simpl.
  - split; [|by rewrite app_nil_r].
    symmetry. apply insert_id. rewrite Hs. f_equal.
    destruct s. simpl in *. by subst.
  - rewrite Hs.
    edestruct (IH (log_event (woken i) (store_sock hsk (sock_set_interests l s) k)))
      as (Hsocks & Hlog & Htab & Hrpcs & Hnets);
      [simpl; apply lookup_insert_eq|done|].
    unfold woken in *. rewrite Hsocks, Hlog, Htab, Hrpcs, Hnets. simpl.
    rewrite insert_insert_eq, <- app_assoc. done.
Qed.

(** What [homa_sock_shutdown] does to a socket in use. *)
Lemma homa_sock_shutdown_live k hsk s :
  socks k !! hsk = Some s → hsk_homa s = true → shutdown s = false →
  ∃ k1 a d,
    homa_sock_shutdown k hsk = Some k1
    ∧ socks k1 !! hsk =
        Some (sock_set_interests [] (sock_set_rpc_lists a d (sock_set_shutdown true s)))
    ∧ socktab k1 = hlist_del hsk (socktab k)
    ∧ klog k1 = klog k ++ map woken (interests s)
    ∧ nets k1 = nets k
    ∧ rpcs k1 =
        rpcs (foldl homa_rpc_end
                (homa_sock_unlink (store_sock hsk (sock_set_shutdown true s) k) hsk)
                (active_rpcs s)).
Proof.
  intros Hs Hh Hsh. unfold homa_sock_shutdown. rewrite Hs. simpl.
  rewrite Hsh, Hh. simpl.
  set (k0 := homa_sock_unlink (store_sock hsk (sock_set_shutdown true s) k) hsk).
  destruct (foldl_rpc_end_socks (active_rpcs s) k0 hsk (sock_set_shutdown true s))
    as (a & d & Hs1); [simpl; apply lookup_insert_eq|].
  destruct (foldl_rpc_end_frame (active_rpcs s) k0) as (Htab & Hlog & Hnets).
  rewrite Hs1. simpl.
  destruct (shutdown_interests_spec (interests s) hsk _ _ Hs1 eq_refl)
    as (Hsocks & Hlog' & Htab' & Hrpcs & Hnets').
  eexists _, a, d. split; [reflexivity|].
  rewrite Hsocks, Hlog', Htab', Hrpcs, Hnets', Htab, Hlog, Hnets.
  rewrite lookup_insert_eq. done.
Qed.

(** C5: [homa_shutdown] returns 0 whatever [how] is and leaves the socket
    disabled: the [shutdown] flag is set; if it was not set before, the
    socket has left the socket table, every RPC of its active list is
    [DEAD], and every waiting interest has been unlinked, marked ready
    and woken.  On a socket whose flag is set already the call changes
    nothing; in particular a second shutdown returns 0 and leaves the
    state as the first one left it. *)
Theorem homa_shutdown_idempotent k hsk s how :
  socks k !! hsk = Some s →
  hsk_homa s = true →
  ∃ k1 s1,
    homa_shutdown k hsk how = Some (0, k1)
    ∧ socks k1 !! hsk = Some s1
    ∧ shutdown s1 = true
    ∧ (shutdown s = true → k1 = k)
    ∧ (shutdown s = false →
       (∀ hnet port, homa_sock_find k1 hnet port ≠ Some hsk)
       ∧ interests s1 = []
       ∧ klog k1 = klog k ++ map woken (interests s)
       ∧ (∀ p r, p ∈ active_rpcs s → rpcs k !! p = Some r →
            ∃ r', rpcs k1 !! p = Some r' ∧ rpc_state_of r' = RPC_DEAD))
    ∧ (∀ how', homa_shutdown k1 hsk how' = Some (0, k1)).
Proof.
  intros Hs Hh. destruct (shutdown s) eqn:Hsh.
  - exists k, s. unfold homa_shutdown, homa_sock_shutdown.
    rewrite Hs. simpl. rewrite Hsh. simpl. done.
  - destruct (homa_sock_shutdown_live k hsk s Hs Hh Hsh)
      as (k1 & a & d & Hk1 & Hs1 & Htab & Hlog & Hnets & Hrpcs).
    eexists k1, _. unfold homa_shutdown at 1. rewrite Hk1. simpl.
    split; [done|]. split; [exact Hs1|]. split; [done|].
    split; [done|]. split.
    + intros _. split; [|split; [done|split; [done|]]].
      * intros hnet port. apply homa_sock_find_not_linked.
        intros b. rewrite Htab. apply not_in_bucket_of_del.
      * intros p r Hin Hp. rewrite Hrpcs.
        eapply foldl_rpc_end_dead; [done|]. simpl. exact Hp.
    + intros how'. unfold homa_shutdown, homa_sock_shutdown.
      rewrite Hs1. simpl. done.
Qed.

End Shutdown.

Section ShutdownInputs.
Local Existing Instance linux_consts.

Lemma homa_shutdown_idempotent_witness :
  ∃ k1 s1,
    homa_shutdown (k_serving RPC_INCOMING 0) hsk2 1 = Some (0, k1)
    ∧ socks k1 !! hsk2 = Some s1
    ∧ shutdown s1 = true
    ∧ (shutdown (the_sock (k_serving RPC_INCOMING 0) hsk2) = true →
       k1 = k_serving RPC_INCOMING 0)
    ∧ (shutdown (the_sock (k_serving RPC_INCOMING 0) hsk2) = false →
       (∀ hnet port, homa_sock_find k1 hnet port ≠ Some hsk2)
       ∧ interests s1 = []
       ∧ klog k1 = klog (k_serving RPC_INCOMING 0)
                   ++ map woken (interests (the_sock (k_serving RPC_INCOMING 0) hsk2))
       ∧ (∀ p r, p ∈ active_rpcs (the_sock (k_serving RPC_INCOMING 0) hsk2) →
            rpcs (k_serving RPC_INCOMING 0) !! p = Some r →
            ∃ r', rpcs k1 !! p = Some r' ∧ rpc_state_of r' = RPC_DEAD))
    ∧ (∀ how', homa_shutdown k1 hsk2 how' = Some (0, k1)).
Proof.
  refine (homa_shutdown_idempotent (k_serving RPC_INCOMING 0) hsk2
            (the_sock (k_serving RPC_INCOMING 0) hsk2) 1 _ _);
    vm_compute; reflexivity.
Defined.

(** The same shutdown, evaluated: the waiting thread is woken, RPC 3 is
    dead, and port 32769 no longer leads to the socket. *)
Example homa_shutdown_serving :
  ∃ k1 r',
    homa_shutdown (k_serving RPC_INCOMING 0) hsk2 1 = Some (0, k1)
    ∧ klog k1 = [EvWakeUp (mk_interest 5 1)]
    ∧ rpcs k1 !! rpc0 = Some r' ∧ rpc_state_of r' = RPC_DEAD
    ∧ homa_sock_find (k_serving RPC_INCOMING 0) net0 32769 = Some hsk2
    ∧ homa_sock_find k1 net0 32769 = None.
Proof. eexists _, _. vm_compute. repeat split; reflexivity. Qed.

End ShutdownInputs.

(** ** Default ports *)

Section DefaultPort.
Context `{homa_consts}.
Hypothesis min_port_u16 : 0 ≤ HOMA_MIN_DEFAULT_PORT ≤ 65535.

Lemma next_default_port_range prev :
  HOMA_MIN_DEFAULT_PORT ≤ next_default_port prev ≤ 65535.
Proof.
  unfold next_default_port, u16.
  pose proof (Z.mod_pos_bound (prev + 1) 65536 ltac:(lia)).
  destruct (Z.ltb_spec ((prev + 1) mod 65536) HOMA_MIN_DEFAULT_PORT); lia.
Qed.

Lemma next_default_port_below prev :
  0 ≤ prev < HOMA_MIN_DEFAULT_PORT →
  next_default_port prev = HOMA_MIN_DEFAULT_PORT.
Proof.
  intros Hp. unfold next_default_port, u16.
  rewrite Z.mod_small by lia.
  destruct (Z.ltb_spec (prev + 1) HOMA_MIN_DEFAULT_PORT); lia.
Qed.

Lemma next_default_port_up prev :
  HOMA_MIN_DEFAULT_PORT ≤ prev < 65535 → next_default_port prev = prev + 1.
Proof.
  intros Hp. unfold next_default_port, u16.
  rewrite Z.mod_small by lia.
  destruct (Z.ltb_spec (prev + 1) HOMA_MIN_DEFAULT_PORT); lia.
Qed.

Lemma next_default_port_wrap :
  next_default_port 65535 = HOMA_MIN_DEFAULT_PORT.
Proof.
  unfold next_default_port, u16. change ((65535 + 1) mod 65536) with 0.
  destruct (Z.ltb_spec 0 HOMA_MIN_DEFAULT_PORT); lia.
Qed.

Lemma sweep_rank_range start q :
  HOMA_MIN_DEFAULT_PORT ≤ start ≤ 65535 → HOMA_MIN_DEFAULT_PORT ≤ q ≤ 65535 →
  0 ≤ sweep_rank start q < default_ports
  ∧ (sweep_rank start q = default_ports - 1 ↔ q = start).
Proof.
  intros Hs Hq. unfold sweep_rank, default_ports.
  destruct (Z.ltb_spec start q); lia.
Qed.

Lemma sweep_rank_inj start q q' :
  HOMA_MIN_DEFAULT_PORT ≤ start ≤ 65535 →
  HOMA_MIN_DEFAULT_PORT ≤ q ≤ 65535 → HOMA_MIN_DEFAULT_PORT ≤ q' ≤ 65535 →
  sweep_rank start q = sweep_rank start q' → q = q'.
Proof.
  intros Hs Hq Hq'. unfold sweep_rank, default_ports.
  destruct (Z.ltb_spec start q), (Z.ltb_spec start q'); lia.
Qed.

Lemma sweep_rank_first start :
  HOMA_MIN_DEFAULT_PORT ≤ start ≤ 65535 →
  sweep_rank start (next_default_port start) = 0.
Proof.
  intros Hs. destruct (decide (start = 65535)) as [->|Hne].
  - rewrite next_default_port_wrap. unfold sweep_rank, default_ports.
    destruct (Z.ltb_spec 65535 HOMA_MIN_DEFAULT_PORT); lia.
  - rewrite next_default_port_up by lia. unfold sweep_rank.
    destruct (Z.ltb_spec start (start + 1)); lia.
Qed.

Lemma sweep_rank_next start q :
  HOMA_MIN_DEFAULT_PORT ≤ start ≤ 65535 → HOMA_MIN_DEFAULT_PORT ≤ q ≤ 65535 →
  q ≠ start →
  sweep_rank start (next_default_port q) = sweep_rank start q + 1.
Proof.
  intros Hs Hq Hne. destruct (decide (q = 65535)) as [->|Hne'].
  - rewrite next_default_port_wrap. unfold sweep_rank, default_ports.
    destruct (Z.ltb_spec start HOMA_MIN_DEFAULT_PORT),
      (Z.ltb_spec start 65535); lia.
  - rewrite next_default_port_up by lia. unfold sweep_rank.
    destruct (Z.ltb_spec start (q + 1)), (Z.ltb_spec start q); lia.
Qed.

(** The loop, started at [start] and now at its turn number [i]: it ends
    within the remaining [default_ports - i] turns, either at a port that
    no socket owns or, back at [start], with every default port owned. *)
Lemma default_port_loop_sweep k hnet start :
  HOMA_MIN_DEFAULT_PORT ≤ start ≤ 65535 →
  ∀ fuel i prev,
    0 ≤ i < default_ports →
    sweep_rank start (next_default_port prev) = i →
    (∀ q, HOMA_MIN_DEFAULT_PORT ≤ q ≤ 65535 → sweep_rank start q < i →
          homa_sock_find k hnet q ≠ None) →
    default_ports - i ≤ Z.of_nat fuel →
    ∃ found p,
      default_port_loop fuel k hnet start prev = Some (found, p)
      ∧ HOMA_MIN_DEFAULT_PORT ≤ p ≤ 65535
      ∧ (found = true → homa_sock_find k hnet p = None)
      ∧ (found = false →
           p = start
           ∧ ∀ q, HOMA_MIN_DEFAULT_PORT ≤ q ≤ 65535 →
                  homa_sock_find k hnet q ≠ None).
Proof.
  intros Hs. induction fuel as [|fuel IH]; intros i prev Hi Hrank Hseen Hfuel;
    [lia|].
  simpl. pose proof (next_default_port_range prev) as Hrange.
  set (p := next_default_port prev) in *.
  destruct (homa_sock_find k hnet p) as [other|] eqn:Hfind.
  - destruct (Z.eqb_spec p start) as [Heq|Hne].
    + exists false, p. split; [done|]. split; [done|]. split; [done|].
      intros _. split; [done|]. intros q Hq.
      destruct (decide (q = p)) as [->|Hqp]; [by rewrite Hfind|].
      apply Hseen; [done|].
      destruct (sweep_rank_range start q Hs Hq) as [Hr Hlast].
      destruct (sweep_rank_range start p Hs Hrange) as [_ Hlast'].
      apply Hlast' in Heq. lia.
    + destruct (sweep_rank_range start p Hs Hrange) as [Hr Hlast].
      apply (IH (i + 1) p).
      * split; [lia|]. destruct (decide (i = default_ports - 1)); [|lia].
        exfalso. apply Hne, Hlast. lia.
      * rewrite sweep_rank_next by done. fold p. lia.
      * intros q Hq Hlt. destruct (decide (sweep_rank start q = i)) as [Hqi|Hqi].
        -- assert (q = p) as -> by (apply (sweep_rank_inj start); [done..|lia]).
           by rewrite Hfind.
        -- apply Hseen; [done|lia].
      * lia.
  - exists true, p. done.
Qed.

(** What the loop returns, for any fuel. *)
Lemma default_port_loop_result fuel k hnet start : ∀ prev found p,
  default_port_loop fuel k hnet start prev = Some (found, p) →
  HOMA_MIN_DEFAULT_PORT ≤ p ≤ 65535
  ∧ (found = true → homa_sock_find k hnet p = None)
  ∧ (found = false → p = start ∧ homa_sock_find k hnet p ≠ None).
Proof.
  induction fuel as [|fuel IH]; intros prev found p; simpl; [done|].
  pose proof (next_default_port_range prev) as Hrange.
  destruct (homa_sock_find k hnet (next_default_port prev)) eqn:Hfind.
  - destruct (Z.eqb_spec (next_default_port prev) start) as [Heq|Hne].
    + intros [= <- <-]. rewrite Hfind. done.
    + apply IH.
  - intros [= <- <-]. done.
Qed.

(** The loop of [homa_sock_init] ends within 65536 turns. *)
Lemma default_port_loop_total fuel k hnet n :
  0 ≤ prev_default_port n ≤ 65535 →
  default_port_inv k hnet n →
  (sweep_fuel ≤ fuel)%nat →
  ∃ found p,
    default_port_loop fuel k hnet (prev_default_port n) (prev_default_port n)
      = Some (found, p)
    ∧ HOMA_MIN_DEFAULT_PORT ≤ p ≤ 65535
    ∧ (found = true → homa_sock_find k hnet p = None)
    ∧ (found = false →
         ∀ q, HOMA_MIN_DEFAULT_PORT ≤ q ≤ 65535 →
              homa_sock_find k hnet q ≠ None).
Proof.
  intros Hprev Hinv Hfuel.
  assert (Hf : 65536 ≤ Z.of_nat fuel).
  { unfold sweep_fuel in Hfuel. lia. }
  destruct (Z.ltb_spec (prev_default_port n) HOMA_MIN_DEFAULT_PORT) as [Hlt|Hge].
  - destruct fuel as [|fuel]; [lia|]. simpl.
    rewrite next_default_port_below by lia.
    rewrite (Hinv Hlt) by lia.
    exists true, HOMA_MIN_DEFAULT_PORT. split; [done|]. split; [lia|].
    split; [intros _; apply (Hinv Hlt); lia|done].
  - destruct (default_port_loop_sweep k hnet (prev_default_port n)
                ltac:(lia) fuel 0 (prev_default_port n))
      as (found & p & Hloop & Hp & Hfound & Hfail).
    + unfold default_ports. lia.
    + apply sweep_rank_first. lia.
    + intros q Hq Hr. destruct (sweep_rank_range (prev_default_port n) q); lia.
    + unfold default_ports. lia.
    + exists found, p. split; [done|]. split; [done|]. split; [done|].
      intros Hff. by apply Hfail.
Qed.

(** Why [default_port_inv] is supposed: with the counter below the
    default ports and all of them taken (a state that the operations on
    the table never produce, see [counters_ok_init]), the loop would not
    come back to its starting point. *)
Lemma default_port_loop_spins k hnet start :
  start < HOMA_MIN_DEFAULT_PORT →
  (∀ q, HOMA_MIN_DEFAULT_PORT ≤ q ≤ 65535 → homa_sock_find k hnet q ≠ None) →
  ∀ fuel prev, default_port_loop fuel k hnet start prev = None.
Proof.
  intros Hstart Hall. induction fuel as [|fuel IH]; intros prev; simpl; [done|].
  pose proof (next_default_port_range prev) as Hrange.
  destruct (homa_sock_find k hnet (next_default_port prev)) eqn:Hfind;
    [|by apply Hall in Hfind].
  rewrite eqb_false by lia. apply IH.
Qed.

End DefaultPort.

Section SockInit.
Context `{homa_consts}.

Lemma homa_sock_find_store_unlinked k hsk s hnet p :
  (∀ b, hsk ∉ bucket_of (socktab k) b) →
  homa_sock_find (store_sock hsk s k) hnet p = homa_sock_find k hnet p.
Proof.
  intros Hno. unfold homa_sock_find. simpl. apply bucket_find_ext.
  intros q Hq. rewrite lookup_insert_ne; [done|].
  intros <-. by apply Hno in Hq.
Qed.

Lemma default_port_loop_ext fuel k k' hnet start :
  (∀ p, homa_sock_find k hnet p = homa_sock_find k' hnet p) →
  ∀ prev, default_port_loop fuel k hnet start prev
          = default_port_loop fuel k' hnet start prev.
Proof.
  intros Hext. induction fuel as [|fuel IH]; intros prev; simpl; [done|].
  rewrite Hext. destruct (homa_sock_find k' hnet _); [|done].
  destruct (_ =? _); [done|]. apply IH.
Qed.

(** After [homa_sock_init] the counter is a default port, so the state
    between two socket creations is as [default_port_inv] says. *)
Lemma homa_sock_init_counter fuel pool k hsk s n result k' :
  0 ≤ HOMA_MIN_DEFAULT_PORT ≤ 65535 →
  socks k !! hsk = Some s →
  nets k !! sk_net s = Some n →
  homa_sock_init fuel (inr pool) k hsk = Some (result, k') →
  ∃ n', nets k' !! sk_net s = Some n'
        ∧ HOMA_MIN_DEFAULT_PORT ≤ prev_default_port n' ≤ 65535.
Proof.
  intros Hmin Hs Hn. unfold homa_sock_init. rewrite Hs. simpl.
  rewrite Hn. simpl.
  destruct (default_port_loop _ _ _ _ _) as [[found p]|] eqn:Hloop; [|done].
  apply (default_port_loop_result Hmin) in Hloop as [Hp _].
  destruct found; intros [= <- <-]; simpl; rewrite lookup_insert_eq;
    by eexists.
Qed.

End SockInit.

(** ** sendmsg *)

Section Sendmsg.
Context `{homa_consts}.

(** A call that passes the first tests and fails to get memory returns
    what the wait returned. *)
Lemma homa_sendmsg_wait_failed e k hsk s msg addr args result k1 :
  socks k !! hsk = Some s →
  send_args_ok e s msg addr args →
  sendmsg_wmem e k hsk msg = Some (result, k1) →
  result ≠ 0 →
  homa_sendmsg e k hsk msg = Some (result, k1, msg_control msg).
Proof.
  intros Hs (Hctl & Hname & Hflags) Hw Hres.
  unfold homa_sendmsg. rewrite Hs. simpl.
  destruct (msg_control_is_user msg) eqn:Huser, (connected s) eqn:Hconn.
  - destruct Hname as [Hname ->]. destruct Hflags as [Hcopy Hflags].
    unfold homa_sendmsg_user_connected. rewrite Hs. simpl.
    rewrite Hname, Huser, Hcopy, Hctl, Hflags, Hw. simpl.
    by rewrite eqb_false.
  - destruct Hflags as [Hcopy Hflags].
    unfold homa_sendmsg_user_unconnected. rewrite Hs. simpl.
    rewrite Hname, Huser, Hcopy, Hctl, Hflags, Hw. simpl.
    by rewrite eqb_false.
  - destruct Hname as [Hname ->].
    unfold homa_sendmsg_in_kernel_connected. rewrite Hs. simpl.
    rewrite Hname, Hflags, Hw. simpl. by rewrite eqb_false.
  - unfold homa_sendmsg_in_kernel_unconnected. rewrite Hs. simpl.
    rewrite Hname, Hctl. simpl. rewrite Hflags, Hw. simpl.
    by rewrite eqb_false.
Qed.

(** A call that passes all the tests goes on to the request or the
    response branch. *)
Lemma homa_sendmsg_body e k hsk s msg addr args k1 :
  socks k !! hsk = Some s →
  send_args_ok e s msg addr args →
  sendmsg_wmem e k hsk msg = Some (0, k1) →
  send_addr_ok s msg addr →
  homa_sendmsg e k hsk msg =
    sendmsg_body (msg_control_is_user msg) e k1 hsk addr args (msg_control msg).
Proof.
  intros Hs (Hctl & Hname & Hflags) Hw (Hfam & Hlen).
  unfold homa_sendmsg. rewrite Hs. simpl.
  destruct (msg_control_is_user msg) eqn:Huser, (connected s) eqn:Hconn.
  - destruct Hname as [Hname ->]. destruct Hflags as [Hcopy Hflags].
    unfold homa_sendmsg_user_connected. rewrite Hs. simpl.
    rewrite Hname, Huser, Hcopy, Hctl, Hflags, Hw, Hfam, Hlen. simpl.
    by rewrite Z.eqb_refl.
  - destruct Hflags as [Hcopy Hflags].
    unfold homa_sendmsg_user_unconnected. rewrite Hs. simpl.
    rewrite Hname, Huser, Hcopy, Hctl, Hflags, Hw, Hfam, Hlen. simpl.
    by rewrite Z.eqb_refl.
  - destruct Hname as [Hname ->].
    unfold homa_sendmsg_in_kernel_connected. rewrite Hs. simpl.
    rewrite Hname, Hflags, Hw, Hfam, Hlen, Hctl. simpl.
    by rewrite Z.eqb_refl.
  - unfold homa_sendmsg_in_kernel_unconnected. rewrite Hs. simpl.
    rewrite Hname, Hctl. simpl. rewrite Hflags, Hw, Hfam, Hlen. simpl.
    by rewrite Z.eqb_refl.
Qed.

(** The wait for memory changes no RPC, and nothing at all when memory
    is available. *)
Lemma sendmsg_wmem_frame e k hsk msg result k1 :
  sendmsg_wmem e k hsk msg = Some (result, k1) →
  rpcs k1 = rpcs k ∧ next_rpc k1 = next_rpc k
  ∧ socktab k1 = socktab k
  ∧ (wmem_avl e = true → k1 = k ∧ result = 0)
  ∧ (∀ s, socks k !! hsk = Some s →
       socks k1 !! hsk = Some s ∨ socks k1 !! hsk = Some (sock_set_nospace s)).
Proof.
  unfold sendmsg_wmem. destruct (wmem_avl e); simpl.
  - intros [= <- <-]. repeat split; try done. intros s Hs. by left.
  - unfold homa_sock_wait_wmem.
    destruct (socks k !! hsk) as [s|] eqn:Hs; [|done]. simpl.
    destruct (wait_event_interruptible_timeout _ _ _) as [res slept].
    assert (Hgoal : ∀ k', rpcs k' = rpcs k → next_rpc k' = next_rpc k →
              socktab k' = socktab k →
              socks k' = <[hsk := sock_set_nospace s]> (socks k) →
              ∀ r, Some (r, k') = Some (result, k1) →
              rpcs k1 = rpcs k ∧ next_rpc k1 = next_rpc k
              ∧ socktab k1 = socktab k
              ∧ (false = true → k1 = k ∧ result = 0)
              ∧ (∀ s0, Some s = Some s0 →
                   socks k1 !! hsk = Some s0
                   ∨ socks k1 !! hsk = Some (sock_set_nospace s0))).
    { intros k' Hr Hn Ht Hsk r [= <- <-]. repeat split; try done.
      intros s0 [= <-]. right. rewrite Hsk. apply lookup_insert_eq. }
    destruct slept, (signal_pending (wmem_wait e)), (int32 res =? 0);
      by apply Hgoal.
Qed.

Lemma sendmsg_body_response user e k hsk addr args ctl :
  args_id args ≠ 0 →
  sendmsg_body user e k hsk addr args ctl =
    sendmsg_response e k hsk addr args ctl.
Proof. intros Hid. unfold sendmsg_body. by rewrite eqb_false. Qed.

(** C1, as amended: a [sendmsg] with a nonzero id and a zero completion
    cookie that passes the tests on its arguments and gets memory ends in
    the response branch, where: if no server RPC with that id and peer
    is on the socket, the call returns 0 and the state is the one that
    the wait for memory left (no RPC created or changed, nothing
    filled); if there is one without a recorded error whose state is not
    [IN_SERVICE], the call returns [EINVAL] and nothing changes; if
    there is one with a recorded error, the call returns that error and
    ends the RPC. *)
Theorem homa_sendmsg_response_outcomes e k hsk s msg addr args k1 :
  socks k !! hsk = Some s →
  send_args_ok e s msg addr args →
  sendmsg_wmem e k hsk msg = Some (0, k1) →
  send_addr_ok s msg addr →
  args_id args ≠ 0 →
  args_completion_cookie args = 0 →
  rpcs k1 = rpcs k
  ∧ next_rpc k1 = next_rpc k
  ∧ (wmem_avl e = true → k1 = k)
  ∧ (homa_rpc_find_server k1 hsk (canonical_ipv6_addr addr) (args_id args)
       = None →
     homa_sendmsg e k hsk msg = Some (0, k1, msg_control msg))
  ∧ (∀ p r,
       homa_rpc_find_server k1 hsk (canonical_ipv6_addr addr) (args_id args)
         = Some p →
       rpcs k !! p = Some r →
       rpc_error r = 0 → rpc_state_of r ≠ RPC_IN_SERVICE →
       homa_sendmsg e k hsk msg = Some (- EINVAL, k1, msg_control msg))
  ∧ (∀ p r,
       homa_rpc_find_server k1 hsk (canonical_ipv6_addr addr) (args_id args)
         = Some p →
       rpcs k !! p = Some r →
       rpc_error r ≠ 0 →
       homa_sendmsg e k hsk msg =
         Some (rpc_error r, homa_rpc_end k1 p, msg_control msg)).
Proof.
  intros Hs Hargs Hw Haddr Hid Hcookie.
  destruct (sendmsg_wmem_frame _ _ _ _ _ _ Hw) as (Hrpcs & Hnext & _ & Hsame & _).
  split; [done|]. split; [done|]. split; [intros Ha; by apply Hsame|].
  rewrite (homa_sendmsg_body e k hsk s msg addr args k1) by done.
  rewrite sendmsg_body_response by done.
  unfold sendmsg_response. rewrite Hcookie. simpl.
  split; [by intros ->|]. split.
  - intros p r -> Hp Herr Hstate. rewrite Hrpcs, Hp. simpl.
    rewrite Herr. simpl. by rewrite bool_decide_eq_false_2.
  - intros p r -> Hp Herr. rewrite Hrpcs, Hp. simpl.
    by rewrite eqb_false.
Qed.

(** In the three variants that copy [args] before they test it, a block
    with invalid flags or a nonzero reserved field is refused before any
    other use of it, and nothing changes. *)
Lemma homa_sendmsg_validates_args e k hsk s msg args :
  socks k !! hsk = Some s →
  msg_control_is_user msg = true ∨ connected s = false →
  msg_control msg = Some args →
  flags_invalid args = true →
  ∃ err, homa_sendmsg e k hsk msg = Some (err, k, msg_control msg)
         ∧ (err = - EINVAL ∨ err = - EFAULT).
Proof.
  intros Hs Hvariant Hctl Hflags. unfold homa_sendmsg. rewrite Hs. simpl.
  destruct (msg_control_is_user msg) eqn:Huser, (connected s) eqn:Hconn.
  - unfold homa_sendmsg_user_connected. rewrite Hs. simpl.
    case_bool_decide; [eexists; split; [done|by left]|].
    rewrite Huser, Hctl. simpl.
    destruct (copy_from_user_ok e); [|eexists; split; [done|by right]].
    rewrite Hflags. eexists; split; [done|by left].
  - unfold homa_sendmsg_user_unconnected. rewrite Hs. simpl.
    destruct (msg_name msg); [|eexists; split; [done|by left]].
    rewrite Huser, Hctl. simpl.
    destruct (copy_from_user_ok e); [|eexists; split; [done|by right]].
    rewrite Hflags. eexists; split; [done|by left].
  - by destruct Hvariant.
  - unfold homa_sendmsg_in_kernel_unconnected. rewrite Hs. simpl.
    destruct (msg_name msg); [|eexists; split; [done|by left]].
    rewrite Hctl. simpl. rewrite Hflags. eexists; split; [done|by left].
Qed.

(** The in-kernel variant for connected sockets decides on the words
    that the stack held: with those valid, a block with invalid flags
    goes through to the request or response branch. *)
Lemma homa_sendmsg_in_kernel_connected_unchecked e k hsk s msg args k1 :
  socks k !! hsk = Some s →
  connected s = true → msg_control_is_user msg = false →
  msg_name msg = None → msg_control msg = Some args →
  flags_invalid (stack_args e) = false →
  sendmsg_wmem e k hsk msg = Some (0, k1) →
  send_addr_ok s msg (target_addr s) →
  homa_sendmsg e k hsk msg =
    sendmsg_body false e k1 hsk (target_addr s) args (msg_control msg).
Proof.
  intros Hs Hconn Huser Hname Hctl Hstack Hw Haddr.
  rewrite (homa_sendmsg_body e k hsk s msg (target_addr s) args k1);
    [by rewrite Huser|done| |done|done].
  unfold send_args_ok. by rewrite Hconn, Huser.
Qed.

End Sendmsg.

Section SendmsgInputs.
Local Existing Instance linux_consts.

(** C1 as stated fails: socket 2 has no RPC at all, the id is nonzero,
    the arguments are otherwise valid, and the call returns [EINVAL]
    rather than 0, because the completion cookie is not zero. *)
Lemma homa_sendmsg_response_cookie_counterexample :
  homa_rpc_find_server k_two hsk2 (canonical_ipv6_addr addr_v6) 3 = None
  ∧ homa_sendmsg env_ok k_two hsk2
      (send_msg true (Some addr_v6) 28 args_reply_cookie 0)
    = Some (- EINVAL, k_two, Some args_reply_cookie).
Proof. vm_compute. split; reflexivity. Qed.

(** A server RPC that carries an error is ended by a response to it,
    whatever its state, and the call returns the error. *)
Example homa_sendmsg_response_rpc_error :
  ∃ k' r',
    homa_sendmsg env_ok (k_serving RPC_INCOMING (- ENOMEM)) hsk2
      (send_msg true (Some addr_v6) 28 args_reply 0)
    = Some (- ENOMEM, k', Some args_reply)
    ∧ rpcs k' !! rpc0 = Some r' ∧ rpc_state_of r' = RPC_DEAD.
Proof. eexists _, _. vm_compute. repeat split; reflexivity. Qed.

Lemma homa_sendmsg_response_outcomes_witness :
  homa_sendmsg env_ok (k_serving RPC_INCOMING 0) hsk2
    (send_msg true (Some addr_v6) 28 args_reply 0)
  = Some (- EINVAL, k_serving RPC_INCOMING 0, Some args_reply).
Proof.
  refine (proj1 (proj2 (proj2 (proj2 (proj2
    (homa_sendmsg_response_outcomes env_ok (k_serving RPC_INCOMING 0) hsk2
       (the_sock (k_serving RPC_INCOMING 0) hsk2)
       (send_msg true (Some addr_v6) 28 args_reply 0) addr_v6 args_reply
       (k_serving RPC_INCOMING 0) _ _ _ _ _ _)))))
    rpc0 (server_rpc RPC_INCOMING 0) _ _ _ _).
  - vm_compute; reflexivity.
  - vm_compute. repeat split; reflexivity.
  - vm_compute; reflexivity.
  - vm_compute. repeat split; reflexivity.
  - vm_compute. discriminate.
  - vm_compute; reflexivity.
  - vm_compute; reflexivity.
  - vm_compute; reflexivity.
  - vm_compute; reflexivity.
  - vm_compute. discriminate.
Defined.

(** C3 fails on the code: on a connected socket, an in-kernel [sendmsg]
    whose block has a flag bit outside [HOMA_SENDMSG_VALID_FLAGS] is
    accepted when the stack happens to hold zeroes, and a new RPC is
    created; the user-mode variant refuses the same block with [EINVAL];
    and a valid block is refused when the stack holds a stray bit. *)
Theorem homa_sendmsg_in_kernel_connected_tests_stack :
  flags_invalid args_bad_flags = true
  ∧ flags_invalid (stack_args env_ok) = false
  ∧ (∃ k' r,
       homa_sendmsg env_ok k_conn hsk1 (send_msg false None 0 args_bad_flags 0)
         = Some (0, k', Some (args_set_id 2 args_bad_flags))
       ∧ rpcs k_conn !! rpc0 = None
       ∧ rpcs k' !! rpc0 = Some r ∧ rpc_state_of r = RPC_OUTGOING)
  ∧ homa_sendmsg env_ok k_conn hsk1 (send_msg true None 0 args_bad_flags 0)
    = Some (- EINVAL, k_conn, Some args_bad_flags)
  ∧ flags_invalid args_request = false
  ∧ homa_sendmsg env_dirty_stack k_conn hsk1
      (send_msg false None 0 args_request 0)
    = Some (- EINVAL, k_conn, Some args_request).
Proof.
  split; [reflexivity|]. split; [reflexivity|]. split.
  - eexists _, _. vm_compute. repeat split; reflexivity.
  - vm_compute. repeat split; reflexivity.
Qed.

End SendmsgInputs.

(** ** Waiting for transmit memory *)

Section WaitWmem.
Context `{homa_consts}.

(** C8, as amended: a [sendmsg] that passes the tests on its arguments
    and finds transmit memory exhausted calls [homa_sock_wait_wmem] with
    [msg_flags & MSG_DONTWAIT], and a nonzero result of the wait is the
    result of the call.  A pending signal makes the result [EINTR],
    whatever else holds.  With [MSG_DONTWAIT] the thread never sleeps;
    without a signal the result is [EWOULDBLOCK] if memory is still
    exhausted and the socket has not been shut down, and 0 otherwise.
    Without [MSG_DONTWAIT] (and with a send timeout), memory still
    exhausted and the socket not shut down, the thread sleeps; without a
    signal the result is then [EWOULDBLOCK] if what the sleep returned
    is 0 as an [int] (the timeout passed) and 0 otherwise. *)
Theorem homa_sendmsg_wait_wmem_outcomes e k hsk s msg addr args :
  socks k !! hsk = Some s →
  send_args_ok e s msg addr args →
  wmem_avl e = false →
  ∃ result k1,
    homa_sock_wait_wmem (wmem_wait e) k hsk (Z.land (msg_flags msg) MSG_DONTWAIT)
      = Some (result, k1)
    ∧ (result ≠ 0 →
       homa_sendmsg e k hsk msg = Some (result, k1, msg_control msg))
    ∧ (signal_pending (wmem_wait e) = true → result = - EINTR)
    ∧ (Z.land (msg_flags msg) MSG_DONTWAIT ≠ 0 →
       klog k1 = klog k
       ∧ (signal_pending (wmem_wait e) = false →
          wmem_avl_at_wait (wmem_wait e) = false → shutdown s = false →
          result = - EWOULDBLOCK)
       ∧ (signal_pending (wmem_wait e) = false →
          wmem_avl_at_wait (wmem_wait e) = true ∨ shutdown s = true →
          result = 0))
    ∧ (Z.land (msg_flags msg) MSG_DONTWAIT = 0 → sk_sndtimeo s ≠ 0 →
       wmem_avl_at_wait (wmem_wait e) = false → shutdown s = false →
       klog k1 = klog k ++ [EvWaitWmem hsk (sk_sndtimeo s)]
       ∧ (signal_pending (wmem_wait e) = false →
          result = if int32 (sleep_outcome (wmem_wait e)) =? 0
                   then - EWOULDBLOCK else 0)).
Proof.
  intros Hs Hargs Hmem.
  destruct (homa_sock_wait_wmem (wmem_wait e) k hsk
              (Z.land (msg_flags msg) MSG_DONTWAIT)) as [[result k1]|] eqn:Hw;
    [|unfold homa_sock_wait_wmem in Hw; rewrite Hs in Hw; simpl in Hw;
      destruct (wait_event_interruptible_timeout _ _ _) as [? []],
        (signal_pending (wmem_wait e)), (_ =? 0); done].
  exists result, k1. split; [done|]. split.
  { intros Hres. eapply homa_sendmsg_wait_failed; [done..| |done].
    unfold sendmsg_wmem. by rewrite Hmem. }
  unfold homa_sock_wait_wmem, wait_event_interruptible_timeout in Hw.
  rewrite Hs in Hw. simpl in Hw.
  destruct (wmem_avl_at_wait (wmem_wait e)) eqn:Havl, (shutdown s) eqn:Hsh,
    (signal_pending (wmem_wait e)) eqn:Hsig;
    destruct (Z.eqb_spec (Z.land (msg_flags msg) MSG_DONTWAIT) 0) as [Hnb|Hnb];
    simpl in Hw;
    destruct (Z.eqb_spec (sk_sndtimeo s) 0) as [Ht|Ht]; simpl in Hw;
    try rewrite (eqb_false _ _ Ht) in Hw;
    destruct (Z.eqb_spec (int32 (sleep_outcome (wmem_wait e))) 0) as [Hso|Hso];
    simpl in Hw; simplify_eq; simpl;
    repeat split; intros; simplify_eq; try done; try tauto;
    try (match goal with Hor : _ ∨ _ |- _ => by destruct Hor end).
Qed.

End WaitWmem.

Section WaitWmemInputs.
Local Existing Instance linux_consts.

(** C8 as stated fails: socket 2 has been shut down, transmit memory is
    exhausted and stays so, [MSG_DONTWAIT] is set, no signal is pending,
    and the wait returns 0, not [EWOULDBLOCK]; the call then goes on and
    fails with [ESHUTDOWN] where the RPC is allocated. *)
Lemma homa_sock_wait_wmem_shutdown_counterexample :
  shutdown (the_sock k_shut hsk2) = true
  ∧ wmem_avl env_nomem = false
  ∧ wmem_avl_at_wait (wmem_wait env_nomem) = false
  ∧ signal_pending (wmem_wait env_nomem) = false
  ∧ (∃ k1,
       homa_sock_wait_wmem (wmem_wait env_nomem) k_shut hsk2
         (Z.land MSG_DONTWAIT MSG_DONTWAIT) = Some (0, k1)
       ∧ homa_sendmsg env_nomem k_shut hsk2
           (send_msg true (Some addr_v6) 28 args_request MSG_DONTWAIT)
         = Some (- ESHUTDOWN, k1, Some args_request)).
Proof.
  split; [reflexivity|]. split; [reflexivity|]. split; [reflexivity|].
  split; [reflexivity|]. eexists. vm_compute. split; reflexivity.
Qed.

Lemma homa_sendmsg_wait_wmem_outcomes_witness :
  ∃ k1,
    homa_sendmsg env_nomem k_two hsk2
      (send_msg true (Some addr_v6) 28 args_request MSG_DONTWAIT)
    = Some (- EWOULDBLOCK, k1, Some args_request)
    ∧ klog k1 = klog k_two.
Proof.
  destruct (homa_sendmsg_wait_wmem_outcomes env_nomem k_two hsk2
              (the_sock k_two hsk2)
              (send_msg true (Some addr_v6) 28 args_request MSG_DONTWAIT)
              addr_v6 args_request)
    as (result & k1 & _ & Hsend & _ & Hnb & _).
  - vm_compute; reflexivity.
  - vm_compute. repeat split; reflexivity.
  - reflexivity.
  - destruct Hnb as (Hlog & Hagain & _); [vm_compute; discriminate|].
    exists k1. rewrite Hagain in Hsend by reflexivity.
    split; [|exact Hlog]. apply Hsend. vm_compute. discriminate.
Defined.

End WaitWmemInputs.

(** ** recvmsg *)

Section Recvmsg.
Context `{homa_consts}.

Lemma recvmsg_done_state e in_k result k ctl0 control name len :
  rr_state (recvmsg_done e in_k result k ctl0 control name len) = k.
Proof.
  unfold recvmsg_done. by destruct in_k, (rcv_copy_to_user_ok e).
Qed.

Lemma recvmsg_done_back e s result k ctl0 control name len :
  let res := recvmsg_done e (in_kernel s) result k ctl0 control name len in
  handed_back e s ctl0 result control res
  ∧ rr_name res = name ∧ rr_addr_len res = len.
Proof.
  unfold recvmsg_done, handed_back.
  by destruct (in_kernel s), (rcv_copy_to_user_ok e).
Qed.

Lemma recvmsg_done_ended e s k k1 ctl0 evs rs result control :
  k1 = mk_kstate (wmem_max k) (socktab k) (nets k) (socks k) rs
         (next_rpc k) (next_outgoing_id k) (klog k ++ evs) →
  recv_ended e s k ctl0 evs rs result control
    (Some (recvmsg_done e (in_kernel s) result k1 ctl0 control None None)).
Proof.
  intros ->. eexists. split; [reflexivity|]. rewrite recvmsg_done_state.
  split; [done|]. apply recvmsg_done_back.
Qed.

Lemma collect_events_no_wait s hsk p r : no_wait (collect_events s hsk p r).
Proof.
  unfold collect_events, no_wait.
  destruct (homa_is_client _), (sock_nospace s); simpl;
    repeat constructor.
Qed.

Lemma rpc_list_find_Some rs test l p :
  rpc_list_find rs test l = Some p →
  ∃ r, rs !! p = Some r ∧ test r = true.
Proof.
  induction l as [|q l IH]; simpl; [done|].
  destruct (rs !! q) as [r|] eqn:Hq; [|done].
  destruct (test r) eqn:Ht; [|done]. intros [= <-]. by exists r.
Qed.

Lemma homa_rpc_find_client_Some k hsk id p :
  homa_rpc_find_client k hsk id = Some p → is_Some (rpcs k !! p).
Proof.
  unfold homa_rpc_find_client. destruct (socks k !! hsk); [|done]. simpl.
  intros Hf. apply rpc_list_find_Some in Hf as (r & Hr & _). by exists r.
Qed.

(** [homa_rpc_end] leaves the RPC dead and does not touch its bpages. *)
Lemma homa_rpc_end_at k p r :
  rpcs k !! p = Some r →
  ∃ r', rpcs (homa_rpc_end k p) !! p = Some r'
        ∧ rpc_state_of r' = RPC_DEAD
        ∧ msgin_num_bpages r' = msgin_num_bpages r.
Proof.
  intros Hp. unfold homa_rpc_end. rewrite Hp.
  case_bool_decide as Hd; [by exists r|]. simpl.
  destruct (socks k !! rpc_hsk r); simpl; rewrite lookup_insert_eq;
    by eexists.
Qed.

(** The part that follows the wait. *)
Lemma recvmsg_collect_spec e s k hsk msg p r ctl0 control :
  rpcs k !! p = Some r →
  (msg_name msg = None →
   recvmsg_collect e s k hsk msg p ctl0 control = None)
  ∧ (msg_name msg ≠ None →
     let result := if rpc_error r =? 0 then msgin_length r
                   else rpc_error r in
     ∃ res r',
       recvmsg_collect e s k hsk msg p ctl0 control = Some res
       ∧ klog (rr_state res) = klog k ++ collect_events s hsk p r
       ∧ socktab (rr_state res) = socktab k
       ∧ nets (rr_state res) = nets k
       ∧ handed_back e s ctl0 result
           (if 0 <=? msgin_length r
            then mk_recvmsg_args (rpc_id r) (completion_cookie r)
                   (rcv_flags control) (msgin_num_bpages r)
                   (msgin_bpage_offsets r)
            else mk_recvmsg_args (rpc_id r) (completion_cookie r)
                   (rcv_flags control) (num_bpages control)
                   (bpage_offsets control))
           res
       ∧ rr_name res = Some (sender_of s r)
       ∧ rr_addr_len res
         = Some (if sk_family s =? AF_INET6 then sizeof_sockaddr_in6
                 else sizeof_sockaddr_in)
       ∧ rpcs (rr_state res) !! p = Some r'
       ∧ msgin_num_bpages r' = 0
       ∧ rpc_state_of r'
         = (if homa_is_client (rpc_id r) || (result <? 0) then RPC_DEAD
            else RPC_IN_SERVICE)).
Proof.
  intros Hp. unfold recvmsg_collect. rewrite Hp. simpl. split.
  { by intros ->. }
  intros Hname. destruct (msg_name msg) as [nm|]; [|done]. simpl.
  assert (Hres : (if negb (rpc_error r =? 0) then rpc_error r
                  else msgin_length r)
                 = (if rpc_error r =? 0 then msgin_length r
                    else rpc_error r))
    by (by destruct (rpc_error r =? 0)).
  rewrite !Hres. clear Hres.
  set (result := if rpc_error r =? 0 then msgin_length r else rpc_error r).
  assert (Hctl : (msgin_length r >=? 0) = (0 <=? msgin_length r))
    by (rewrite Z.geb_leb; done).
  rewrite Hctl. clear Hctl.
  set (k1 := store_rpc p (rpc_set_num_bpages 0 r) k).
  assert (Hk1 : rpcs k1 !! p = Some (rpc_set_num_bpages 0 r))
    by (simpl; apply lookup_insert_eq).
  set (k2 := if homa_is_client (rpc_id r)
             then homa_rpc_end (log_event (EvPeerAddAck p) k1) p
             else if result <? 0 then homa_rpc_end k1 p
                  else store_rpc p
                         (rpc_set_state RPC_IN_SERVICE
                            (rpc_set_num_bpages 0 r)) k1).
  assert (Hk2 : klog k2 = klog k ++ (if homa_is_client (rpc_id r)
                                     then [EvPeerAddAck p] else [])
                ∧ socktab k2 = socktab k ∧ nets k2 = nets k
                ∧ ∃ r', rpcs k2 !! p = Some r'
                        ∧ msgin_num_bpages r' = 0
                        ∧ rpc_state_of r'
                          = (if homa_is_client (rpc_id r) || (result <? 0)
                             then RPC_DEAD else RPC_IN_SERVICE)).
  { unfold k2. destruct (homa_is_client (rpc_id r)); simpl.
    - destruct (homa_rpc_end_frame (log_event (EvPeerAddAck p) k1) p)
        as (Ht & Hl & Hn).
      rewrite Ht, Hl, Hn. split; [done|]. split; [done|]. split; [done|].
      destruct (homa_rpc_end_at (log_event (EvPeerAddAck p) k1) p _ Hk1)
        as (r' & Hr' & Hd & Hb).
      exists r'. by rewrite Hb.
    - destruct (result <? 0).
      + destruct (homa_rpc_end_frame k1 p) as (Ht & Hl & Hn).
        rewrite Ht, Hl, Hn. simpl. rewrite app_nil_r.
        split; [done|]. split; [done|]. split; [done|].
        destruct (homa_rpc_end_at k1 p _ Hk1) as (r' & Hr' & Hd & Hb).
        exists r'. by rewrite Hb.
      + simpl. rewrite app_nil_r. split; [done|]. split; [done|].
        split; [done|]. rewrite lookup_insert_eq. by eexists. }
  fold k1. fold k2.
  destruct Hk2 as (Hlog & Htab & Hnets & r' & Hr' & Hbp & Hst).
  eexists _, r'. split; [reflexivity|]. rewrite recvmsg_done_state.
  match goal with
  | |- context [recvmsg_done ?e (in_kernel ?s) ?res ?k ?c0 ?c ?n ?l] =>
      pose proof (recvmsg_done_back e s res k c0 c n l) as (Hback & Hn & Hl)
  end.
  unfold collect_events.
  destruct (sock_nospace s); simpl; rewrite ?Hlog, ?app_nil_r, <- ?app_assoc;
    repeat split; try done;
    try (by destruct (0 <=? msgin_length r));
    try (by unfold sender_of; destruct (sk_family s =? AF_INET6)).
Qed.

(** C7: a [homa_recvmsg] whose control block can be read.  If the
    caller's [num_bpages] exceeds [HOMA_MAX_BPAGES], or the socket has no
    buffer pool, nothing is released, no RPC is claimed, the state is
    unchanged and the result is [EINVAL] (on a socket whose [in_kernel]
    is not set, as [homa_sock_init] leaves none, a block that cannot be
    written back turns every result into [EFAULT]).  Otherwise the first
    thing the call does is to release the bpages that the caller's
    [num_bpages] and [bpage_offsets] name; if the release fails, or the
    caller names an id for which the socket has no client RPC, it ends
    there; otherwise the wait comes next, and is the only one.  When the
    wait fails the call ends with its error.  When the wait hands over
    an RPC, the result is the RPC's error or, without one, the length
    of its message; the block holds the id and the cookie of the RPC
    and, when it has a message, its offsets and its count of bpages,
    which is within [HOMA_MAX_BPAGES] as the pool keeps it; the address
    is that of the RPC's peer; and the RPC holds no bpage any more.  (A
    null [msg_name] at that point is dereferenced: the call has no
    result.) *)
Theorem homa_recvmsg_bpages e k hsk s msg flags ctl0 :
  socks k !! hsk = Some s →
  msg_control msg = Some ctl0 →
  msg_controllen msg = sizeof_homa_recvmsg_args →
  in_kernel s = true ∨ rcv_copy_from_user_ok e = true →
  recv_env_wf e k →
  let out := homa_recvmsg e k hsk msg flags in
  let nonblocking := Z.land flags MSG_DONTWAIT in
  let early := mk_recvmsg_args (rcv_id ctl0) 0 (rcv_flags ctl0)
                 (num_bpages ctl0) (bpage_offsets ctl0) in
  let freed := mk_recvmsg_args (rcv_id ctl0) 0 (rcv_flags ctl0) 0
                 (bpage_offsets ctl0) in
  let failed := mk_recvmsg_args 0 0 (rcv_flags ctl0) 0
                  (bpage_offsets ctl0) in
  (HOMA_MAX_BPAGES < num_bpages ctl0 ∨ buffer_pool s = None →
   recv_ended e s k ctl0 [] (rpcs k) (- EINVAL) early out)
  ∧ (∀ pool,
       num_bpages ctl0 ≤ HOMA_MAX_BPAGES → buffer_pool s = Some pool →
       let release := EvPoolRelease pool (num_bpages ctl0)
                        (bpage_offsets ctl0) in
       (release_result e ≠ 0 →
        recv_ended e s k ctl0 [release] (rpcs k) (release_result e) freed out)
       ∧ (release_result e = 0 → rcv_id ctl0 ≠ 0 →
          match homa_rpc_find_client k hsk (rcv_id ctl0) with
          | None =>
              recv_ended e s k ctl0 [release] (rpcs k) (- EINVAL) freed out
          | Some p =>
              if wait_private_result e =? 0
              then recv_collected e s k hsk msg ctl0
                     [release; EvWaitPrivate p nonblocking] p out
              else recv_ended e s k ctl0
                     [release; EvWaitPrivate p nonblocking]
                     (wait_effect e (rpcs k)) (wait_private_result e)
                     failed out
          end)
       ∧ (release_result e = 0 → rcv_id ctl0 = 0 →
          match wait_shared_result e with
          | inl err =>
              recv_ended e s k ctl0 [release; EvWaitShared hsk nonblocking]
                (wait_effect e (rpcs k)) err freed out
          | inr p =>
              recv_collected e s k hsk msg ctl0
                [release; EvWaitShared hsk nonblocking] p out
          end)).
Proof.
  intros Hs Hctl Hlen Hread (Hshared & Hheld). simpl.
  unfold homa_recvmsg. rewrite Hs, Hctl, Hlen. simpl. rewrite Z.eqb_refl.
  simpl.
  assert (negb (in_kernel s) && negb (rcv_copy_from_user_ok e) = false) as ->.
  { destruct Hread as [-> | ->]; [done|apply andb_false_r]. }
  assert (Hcollect : ∀ evs p k1,
            is_Some (wait_effect e (rpcs k) !! p) →
            k1 = mk_kstate (wmem_max k) (socktab k) (nets k) (socks k)
                   (wait_effect e (rpcs k)) (next_rpc k)
                   (next_outgoing_id k) (klog k ++ evs) →
            recv_collected e s k hsk msg ctl0 evs p
              (recvmsg_collect e s k1 hsk msg p ctl0
                 (mk_recvmsg_args (rcv_id ctl0) 0 (rcv_flags ctl0) 0
                    (bpage_offsets ctl0)))).
  { intros evs p k1 [r Hr] ->. exists r. split; [done|].
    match goal with
    | |- context [recvmsg_collect e s ?k1 hsk msg p ctl0 ?c] =>
        destruct (recvmsg_collect_spec e s k1 hsk msg p r ctl0 c Hr)
          as [Hnone Hsome]
    end.
    split; [done|]. intros Hname.
    destruct (Hsome Hname)
      as (res & r' & Hres & Hlog & Htab & Hnets & Hback & Hnm & Hal & Hr'
          & Hbp & Hst).
    exists res, r'. split; [done|]. simpl in Hlog.
    rewrite <- app_assoc in Hlog.
    split; [exact Hlog|]. split; [exact Htab|]. split; [exact Hnets|].
    split; [exact Hback|].
    split; [unfold msgin_ok, block_of; destruct (0 <=? msgin_length r);
            simpl; lia|].
    split; [exact Hnm|]. split; [exact Hal|].
    split; [exact Hr'|]. split; [exact Hbp|exact Hst]. }
  assert (Hsame : k = mk_kstate (wmem_max k) (socktab k) (nets k) (socks k)
                        (rpcs k) (next_rpc k) (next_outgoing_id k)
                        (klog k ++ []))
    by (rewrite app_nil_r; by destruct k).
  split.
  - intros [Hmany|Hpool].
    + rewrite (proj2 (Z.gtb_lt _ _) Hmany).
      by apply recvmsg_done_ended.
    + destruct (_ >? _); rewrite ?Hpool; by apply recvmsg_done_ended.
  - intros pool Hfew Hpool.
    assert ((num_bpages ctl0 >? HOMA_MAX_BPAGES) = false) as ->.
    { rewrite Z.gtb_ltb. apply Z.ltb_ge. lia. }
    rewrite Hpool. split; [|split].
    + intros Hrel. rewrite (eqb_false _ _ Hrel). simpl.
      by apply recvmsg_done_ended.
    + intros Hrel Hid. rewrite Hrel, (eqb_false _ _ Hid). simpl.
      change (homa_rpc_find_client (log_event _ k) hsk (rcv_id ctl0))
        with (homa_rpc_find_client k hsk (rcv_id ctl0)).
      destruct (homa_rpc_find_client k hsk (rcv_id ctl0)) as [p|] eqn:Hfind.
      * destruct (Z.eqb_spec (wait_private_result e) 0) as [Hw|Hw]; simpl.
        -- apply Hcollect.
           ++ apply Hheld. by eapply homa_rpc_find_client_Some.
           ++ unfold set_rpcs, log_event. simpl. by rewrite <- app_assoc.
        -- apply recvmsg_done_ended.
           unfold set_rpcs, log_event. simpl. by rewrite <- app_assoc.
      * by apply recvmsg_done_ended.
    + intros Hrel Hid. rewrite Hrel, Hid. simpl.
      destruct (wait_shared_result e) as [err|p] eqn:Hw.
      * apply recvmsg_done_ended.
        unfold set_rpcs, log_event. simpl. by rewrite <- app_assoc.
      * apply Hcollect; [by apply Hshared|].
        unfold set_rpcs, log_event. simpl. by rewrite <- app_assoc.
Qed.

End Recvmsg.

Section RecvmsgInputs.
Local Existing Instance linux_consts.

Lemma env_deliver_wf : recv_env_wf env_deliver (k_serving RPC_INCOMING 0).
Proof.
  unfold recv_env_wf. simpl. split; [|done].
  intros p [= <-]. by eexists.
Qed.

(** The request with id 3, of 200 bytes in one bpage, is delivered: the
    old bpage is released first, the thread waits, and the block that
    goes back holds the RPC's id, cookie and bpage; the RPC is then
    [IN_SERVICE]. *)
Example homa_recvmsg_delivers_request :
  ∃ res r',
    homa_recvmsg env_deliver (k_serving RPC_INCOMING 0) hsk2
      (recv_msg ctl_any) 0 = Some res
    ∧ rr_result res = 200
    ∧ rr_control res = Some (mk_recvmsg_args 3 0 0 1 [65536])
    ∧ klog (rr_state res) =
        [EvPoolRelease pool1 1 [131072]; EvWaitShared hsk2 0]
    ∧ rpcs (rr_state res) !! rpc0 = Some r'
    ∧ rpc_state_of r' = RPC_IN_SERVICE
    ∧ msgin_num_bpages r' = 0.
Proof. eexists _, _. vm_compute. repeat split; reflexivity. Qed.

(** The same call with a null [msg_name]: the store of the sender's
    address has nowhere to go. *)
Example homa_recvmsg_null_name :
  homa_recvmsg env_deliver (k_serving RPC_INCOMING 0) hsk2
    (recv_msg_unnamed ctl_any) 0 = None.
Proof. vm_compute. reflexivity. Qed.

(** Seventeen bpages given back, one more than [HOMA_MAX_BPAGES]:
    [EINVAL], and nothing has happened. *)
Example homa_recvmsg_too_many_bpages :
  ∃ res,
    homa_recvmsg env_deliver (k_serving RPC_INCOMING 0) hsk2
      (recv_msg ctl_many) 0 = Some res
    ∧ rr_result res = - EINVAL
    ∧ rr_state res = k_serving RPC_INCOMING 0.
Proof. eexists. vm_compute. repeat split; reflexivity. Qed.

Lemma homa_recvmsg_bpages_witness :
  recv_collected env_deliver (the_sock (k_serving RPC_INCOMING 0) hsk2)
    (k_serving RPC_INCOMING 0) hsk2 (recv_msg ctl_any) ctl_any
    [EvPoolRelease pool1 1 [131072]; EvWaitShared hsk2 0] rpc0
    (homa_recvmsg env_deliver (k_serving RPC_INCOMING 0) hsk2
       (recv_msg ctl_any) 0).
Proof.
  refine (proj2 (proj2 (proj2
    (homa_recvmsg_bpages env_deliver (k_serving RPC_INCOMING 0) hsk2
       (the_sock (k_serving RPC_INCOMING 0) hsk2) (recv_msg ctl_any) 0
       ctl_any _ _ _ _ env_deliver_wf) pool1 _ _)) _ _).
  - vm_compute; reflexivity.
  - reflexivity.
  - reflexivity.
  - left. vm_compute; reflexivity.
  - vm_compute. discriminate.
  - vm_compute; reflexivity.
  - reflexivity.
  - reflexivity.
Defined.

End RecvmsgInputs.

(** ** The counter between socket creations

    The port loop ends in every state that obeys [counters_ok]; what
    follows shows that the operations on the socket table keep it. *)

Section Counters.
Context `{homa_consts}.

Lemma bucket_find_None ss hnet port l :
  bucket_find ss hnet port l = None ↔
  ∀ p s, p ∈ l → ss !! p = Some s →
         hsk_port s = port → hsk_hnet s ≠ Some hnet.
Proof.
  induction l as [|q l IH]; simpl.
  - split; [|done]. intros _ p s Hin. by apply not_elem_of_nil in Hin.
  - destruct (ss !! q) as [sq|] eqn:Hq.
    + destruct (bool_decide (hsk_port sq = port)) eqn:Hp;
        destruct (bool_decide (hsk_hnet sq = Some hnet)) eqn:Hn; simpl.
      * split; [done|]. intros Hall. exfalso.
        apply bool_decide_eq_true in Hp, Hn.
        by apply (Hall q sq); [left|..].
      * rewrite IH. apply bool_decide_eq_false in Hn.
        split; intros Hall p s Hin Hs Hport.
        -- apply elem_of_cons in Hin as [->|Hin]; [congruence|by eapply Hall].
        -- eapply Hall; [by right|done..].
      * rewrite IH. apply bool_decide_eq_false in Hp.
        split; intros Hall p s Hin Hs Hport.
        -- apply elem_of_cons in Hin as [->|Hin]; [congruence|by eapply Hall].
        -- eapply Hall; [by right|done..].
      * rewrite IH. apply bool_decide_eq_false in Hp.
        split; intros Hall p s Hin Hs Hport.
        -- apply elem_of_cons in Hin as [->|Hin]; [congruence|by eapply Hall].
        -- eapply Hall; [by right|done..].
    + rewrite IH. split; intros Hall p s Hin Hs Hport.
      * apply elem_of_cons in Hin as [->|Hin]; [congruence|by eapply Hall].
      * eapply Hall; [by right|done..].
Qed.

(** A lookup that found nothing still finds nothing when every socket of
    the new bucket either was in the old bucket with the same port and
    namespace, or does not have the port in that namespace. *)
Lemma homa_sock_find_None_mono k k' hnet q :
  (∀ p s', p ∈ bucket_of (socktab k') (homa_socktab_bucket hnet q) →
     socks k' !! p = Some s' →
     (p ∈ bucket_of (socktab k) (homa_socktab_bucket hnet q)
      ∧ ∃ s, socks k !! p = Some s ∧ hsk_port s = hsk_port s'
             ∧ hsk_hnet s = hsk_hnet s')
     ∨ hsk_port s' ≠ q ∨ hsk_hnet s' ≠ Some hnet) →
  homa_sock_find k hnet q = None → homa_sock_find k' hnet q = None.
Proof.
  unfold homa_sock_find. rewrite !bucket_find_None.
  intros Hrel Hnone p s' Hin Hs' Hport.
  destruct (Hrel p s' Hin Hs') as [(Hin0 & s & Hs & Hp & Hn)|[?|?]];
    [|done..].
  rewrite <- Hn. eapply Hnone; [done..|congruence].
Qed.

Lemma counters_ok_boot :
  1 ≤ HOMA_MIN_DEFAULT_PORT ≤ 65535 → counters_ok k_boot.
Proof.
  intros Hmin hnet n Hn. simpl in Hn.
  apply lookup_singleton_Some in Hn as [_ <-]. simpl.
  split; [lia|]. intros _ q _. unfold homa_sock_find, bucket_of. simpl.
  by rewrite lookup_empty.
Qed.

(** [homa_sock_bind] keeps the counters in order: it adds no socket with
    a default port. *)
Lemma counters_ok_bind k hnet hsk s port result k' :
  counters_ok k →
  socks k !! hsk = Some s →
  homa_sock_bind k hnet hsk port = Some (result, k') →
  counters_ok k'.
Proof.
  intros Hok Hs. unfold homa_sock_bind.
  destruct (u16 port =? 0); [by intros [= <- <-]|].
  destruct (Z.geb_spec (u16 port) HOMA_MIN_DEFAULT_PORT) as [|Hlt];
    [by intros [= <- <-]|].
  rewrite Hs. simpl. destruct (shutdown s); [by intros [= <- <-]|].
  destruct (homa_sock_find k hnet (u16 port)) as [owner|].
  { case_bool_decide; by intros [= <- <-]. }
  intros [= <- <-] hnet' n Hn. simpl in Hn.
  destruct (Hok hnet' n Hn) as [Hrange Hinv]. split; [done|].
  intros Hprev q Hq. apply (homa_sock_find_None_mono k); [|by apply Hinv].
  simpl. intros p s' Hin Hs'.
  destruct (decide (p = hsk)) as [->|Hne].
  - rewrite lookup_insert_eq in Hs'. injection Hs' as <-. simpl.
    right. left. lia.
  - rewrite lookup_insert_ne in Hs' by done. left. split; [|by exists s'].
    unfold hlist_add_head, bucket_of in Hin.
    destruct (decide (homa_socktab_bucket hnet (u16 port)
                      = homa_socktab_bucket hnet' q)) as [Heq|Hneq].
    + rewrite Heq, lookup_insert_eq in Hin. simpl in Hin.
      apply elem_of_cons in Hin as [?|Hin]; [done|].
      fold (bucket_of (hlist_del hsk (socktab k)) (homa_socktab_bucket hnet' q)) in Hin.
      rewrite bucket_of_del in Hin. by apply list_elem_of_filter in Hin as [_ ?].
    + rewrite lookup_insert_ne in Hin by done.
      fold (bucket_of (hlist_del hsk (socktab k)) (homa_socktab_bucket hnet' q)) in Hin.
      rewrite bucket_of_del in Hin. by apply list_elem_of_filter in Hin as [_ ?].
Qed.

(** [homa_sock_init] keeps the counters in order, and leaves the one of
    the socket's namespace at a default port. *)
Lemma counters_ok_init fuel pool_alloc k hsk s result k' :
  0 ≤ HOMA_MIN_DEFAULT_PORT ≤ 65535 →
  counters_ok k →
  socks k !! hsk = Some s →
  (∀ b, hsk ∉ bucket_of (socktab k) b) →
  homa_sock_init fuel pool_alloc k hsk = Some (result, k') →
  counters_ok k'.
Proof.
  intros Hmin Hok Hs Hno. unfold homa_sock_init. rewrite Hs. simpl.
  destruct (nets k !! sk_net s) as [n0|] eqn:Hn0; [|done]. simpl.
  assert (Hframe : ∀ s1 hnet n,
            default_port_inv k hnet n →
            default_port_inv (store_sock hsk s1 k) hnet n).
  { intros s1 hnet n Hinv Hprev q Hq.
    rewrite homa_sock_find_store_unlinked by done. by apply Hinv. }
  destruct pool_alloc as [err|pool].
  { intros [= <- <-] hnet n Hn. simpl in Hn.
    destruct (Hok hnet n Hn). split; [done|]. by apply Hframe. }
  destruct (default_port_loop _ _ _ _ _) as [[found prev]|] eqn:Hloop; [|done].
  apply (default_port_loop_result Hmin) in Hloop as (Hprev & _ & _).
  destruct found; intros [= <- <-] hnet n Hn; simpl in Hn.
  - destruct (decide (sk_net s = hnet)) as [<-|Hne].
    + rewrite lookup_insert_eq in Hn. injection Hn as <-. simpl.
      split; [lia|]. intros Hlt. simpl in Hlt. lia.
    + rewrite lookup_insert_ne in Hn by done.
      destruct (Hok hnet n Hn) as [Hrange Hinv]. split; [done|].
      intros Hlt q Hq.
      apply (homa_sock_find_None_mono k); [|by apply Hinv].
      simpl. intros p s' Hin Hs'.
      destruct (decide (p = hsk)) as [->|Hp].
      * rewrite lookup_insert_eq in Hs'. injection Hs' as <-. simpl.
        right. right. congruence.
      * rewrite !lookup_insert_ne in Hs' by done. left.
        split; [|by exists s'].
        unfold hlist_add_head, bucket_of in Hin.
        destruct (decide (homa_socktab_bucket (sk_net s) prev
                          = homa_socktab_bucket hnet q)) as [Heq|Hneq].
        -- rewrite Heq, lookup_insert_eq in Hin. simpl in Hin.
           by apply elem_of_cons in Hin as [?|Hin].
        -- by rewrite lookup_insert_ne in Hin.
  - destruct (decide (sk_net s = hnet)) as [<-|Hne].
    + rewrite lookup_insert_eq in Hn. injection Hn as <-. simpl.
      split; [lia|]. intros Hlt. simpl in Hlt. lia.
    + rewrite lookup_insert_ne in Hn by done.
      destruct (Hok hnet n Hn) as [Hrange Hinv]. split; [done|].
      intros Hlt q Hq.
      apply (homa_sock_find_None_mono k); [|by apply Hinv].
      simpl. intros p s' Hin Hs'.
      destruct (decide (p = hsk)) as [->|Hp]; [by apply Hno in Hin|].
      rewrite !lookup_insert_ne in Hs' by done. left.
      split; [done|by exists s'].
Qed.

Lemma homa_rpc_end_socks_inv k p q s' :
  socks (homa_rpc_end k p) !! q = Some s' →
  ∃ s, socks k !! q = Some s ∧ hsk_port s = hsk_port s'
       ∧ hsk_hnet s = hsk_hnet s'.
Proof.
  unfold homa_rpc_end. destruct (rpcs k !! p) as [r|]; [|by exists s'].
  case_bool_decide; [by exists s'|]. simpl.
  destruct (socks k !! rpc_hsk r) as [s|] eqn:Hs; simpl; [|by exists s'].
  destruct (decide (rpc_hsk r = q)) as [Heq|Hne].
  - rewrite Heq in *. rewrite lookup_insert_eq. intros [= <-]. by exists s.
  - rewrite lookup_insert_ne by done. by exists s'.
Qed.

Lemma foldl_rpc_end_socks_inv l : ∀ k q s',
  socks (foldl homa_rpc_end k l) !! q = Some s' →
  ∃ s, socks k !! q = Some s ∧ hsk_port s = hsk_port s'
       ∧ hsk_hnet s = hsk_hnet s'.
Proof.
  induction l as [|p l IH]; intros k q s' Hq; simpl in *; [by exists s'|].
  apply IH in Hq as (s1 & Hs1 & Hp1 & Hn1).
  apply homa_rpc_end_socks_inv in Hs1 as (s & Hs & Hp & Hn).
  exists s. split; [done|]. split; congruence.
Qed.

(** [homa_sock_shutdown] keeps the counters in order: it only removes a
    socket from the table. *)
Lemma counters_ok_shutdown k hsk k1 :
  counters_ok k →
  homa_sock_shutdown k hsk = Some k1 →
  counters_ok k1.
Proof.
  intros Hok. unfold homa_sock_shutdown.
  destruct (socks k !! hsk) as [s|] eqn:Hs; [|done]. simpl.
  destruct (shutdown s || negb (hsk_homa s)); [by intros [= <-]|].
  set (k0 := homa_sock_unlink (store_sock hsk (sock_set_shutdown true s) k) hsk).
  destruct (socks (foldl homa_rpc_end k0 (active_rpcs s)) !! hsk)
    as [s1|] eqn:Hs1; [|done]. simpl. intros [= <-].
  destruct (shutdown_interests_spec (interests s1) hsk _ _ Hs1 eq_refl)
    as (Hsocks & _ & Htab & _ & Hnets).
  destruct (foldl_rpc_end_frame (active_rpcs s) k0) as (Htab0 & _ & Hnets0).
  intros hnet n Hn. rewrite Hnets, Hnets0 in Hn. simpl in Hn.
  destruct (Hok hnet n Hn) as [Hrange Hinv]. split; [done|].
  intros Hlt q Hq. apply (homa_sock_find_None_mono k); [|by apply Hinv].
  rewrite Htab, Htab0, Hsocks. simpl. intros p s' Hin Hs'.
  rewrite bucket_of_del in Hin. apply list_elem_of_filter in Hin as [Hne Hin].
  rewrite lookup_insert_ne in Hs' by done.
  apply foldl_rpc_end_socks_inv in Hs' as (s0 & Hs0 & Hp0 & Hn0).
  simpl in Hs0. rewrite lookup_insert_ne in Hs0 by done.
  left. split; [done|]. by exists s0.
Qed.

End Counters.

(** ** Socket creation *)

Section SockCreate.
Context `{homa_consts}.


End SockCreate.

Section SockInitInputs.
Local Existing Instance linux_consts.


End SockInitInputs.

(** With two default ports, both taken, a third socket gets
    [EADDRNOTAVAIL] and the table keeps its two sockets. *)
Example homa_socket_ports_exhausted :
  ∃ k', homa_socket (H := tiny_consts) sweep_fuel (inr pool1) k_full hsk3
          = Some (- EADDRNOTAVAIL, k')
        ∧ socktab k' = socktab k_full
        ∧ homa_sock_find (H := tiny_consts) k' net0 65534 = Some hsk1
        ∧ homa_sock_find (H := tiny_consts) k' net0 65535 = Some hsk2.
Proof. eexists. vm_compute. repeat split; reflexivity. Qed.

(** * The shape of the socket table

    [homa_sock_find] looks in one bucket and stops at the first match.
    That this is the owner of the port relies on how the table is kept;
    what follows shows that the system calls keep it so. *)

Section TableShape.
Context `{homa_consts}.

Lemma table_ok_empty ss : table_ok ∅ ss.
Proof.
  assert (Hb : ∀ b, bucket_of (∅ : gmap nat (list sock_ptr)) b = []).
  { intros b. unfold bucket_of. by rewrite lookup_empty. }
  split; [|split].
  - intros b. rewrite Hb. apply NoDup_nil_2.
  - intros b p. rewrite Hb. intros Hin. by apply not_elem_of_nil in Hin.
  - intros p q s u [b Hin]. rewrite Hb in Hin. by apply not_elem_of_nil in Hin.
Qed.

(** Taking sockets out of buckets, and changing sockets in fields other
    than the key, keeps the table in shape. *)
Lemma table_ok_sub t t' ss ss' :
  table_ok t ss →
  (∀ b, bucket_of t' b `sublist_of` bucket_of t b) →
  (∀ p s, table_linked t' p → ss !! p = Some s →
     ∃ s', ss' !! p = Some s' ∧ same_key s s') →
  table_ok t' ss'.
Proof.
  intros (Hnd & Hin & Huniq) Hsub Hkey.
  assert (Hl : ∀ p, table_linked t' p → table_linked t p).
  { intros p [b Hp]. exists b. by eapply elem_of_sublist. }
  split; [|split].
  - intros b. by eapply sublist_NoDup.
  - intros b p Hp.
    destruct (Hin b p) as (s & hnet & Hs & Hn & Hsh & Hb);
      [by eapply elem_of_sublist|].
    destruct (Hkey p s) as (s' & Hs' & Hport & Hnet & Hshut); [by exists b|done|].
    exists s', hnet. split; [done|]. split; [congruence|].
    split; [congruence|]. by rewrite <- Hport.
  - intros p q s' u' Hp Hq Hs' Hu' Hport Hnet.
    destruct Hp as [bp Hp']. destruct Hq as [bq Hq'].
    destruct (Hin bp p) as (s & ? & Hs & _); [by eapply elem_of_sublist|].
    destruct (Hin bq q) as (u & ? & Hu & _); [by eapply elem_of_sublist|].
    destruct (Hkey p s) as (s1 & Hs1 & Hps & Hns & _); [by exists bp|done|].
    destruct (Hkey q u) as (u1 & Hu1 & Hpu & Hnu & _); [by exists bq|done|].
    assert (s1 = s') as -> by congruence.
    assert (u1 = u') as -> by congruence.
    apply (Huniq p q s u); [apply Hl; by exists bp|apply Hl; by exists bq|
                            done|done|congruence|congruence].
Qed.

(** Putting a socket that is in no bucket at the head of the bucket of
    its namespace and port keeps the table in shape when the look-up of
    that port finds nothing. *)
Lemma table_ok_link t ss hsk s' hnet :
  table_ok t ss →
  (∀ b, hsk ∉ bucket_of t b) →
  hsk_hnet s' = Some hnet → shutdown s' = false →
  bucket_find ss hnet (hsk_port s')
    (bucket_of t (homa_socktab_bucket hnet (hsk_port s'))) = None →
  table_ok (hlist_add_head hsk (homa_socktab_bucket hnet (hsk_port s')) t)
    (<[hsk := s']> ss).
Proof.
  intros (Hnd & Hin & Huniq) Hno Hn' Hsh' Hfree.
  set (b0 := homa_socktab_bucket hnet (hsk_port s')) in *.
  assert (Hmem : ∀ b p, p ∈ bucket_of (hlist_add_head hsk b0 t) b →
            (p = hsk ∧ b = b0) ∨ (p ≠ hsk ∧ p ∈ bucket_of t b)).
  { intros b p. destruct (decide (b0 = b)) as [<-|Hne].
    - rewrite bucket_of_add_head. intros [->|Hp]%elem_of_cons; [by left|].
      right. split; [|done]. intros ->. by apply Hno in Hp.
    - rewrite bucket_of_add_head_ne by done. intros Hp.
      right. split; [|done]. intros ->. by apply Hno in Hp. }
  assert (Hclash : ∀ q u, q ≠ hsk → table_linked t q → ss !! q = Some u →
            hsk_port s' = hsk_port u → hsk_hnet s' = hsk_hnet u → False).
  { intros q u Hq [b Hb] Hu Hport Hnet.
    destruct (Hin b q Hb) as (u1 & hn & Hu1 & Hhn & _ & Hbq).
    assert (u1 = u) as -> by congruence.
    assert (hn = hnet) as -> by congruence.
    rewrite <- Hport in Hbq. fold b0 in Hbq. subst b.
    pose proof (proj1 (bucket_find_None _ _ _ _) Hfree q u Hb Hu
                  (eq_sym Hport)) as Hx.
    congruence. }
  split; [|split].
  - intros b. destruct (decide (b0 = b)) as [<-|Hne].
    + rewrite bucket_of_add_head. apply NoDup_cons_2; [apply Hno|apply Hnd].
    + rewrite bucket_of_add_head_ne by done. apply Hnd.
  - intros b p Hp. destruct (Hmem b p Hp) as [[-> ->]|[Hne Hp']].
    + exists s', hnet. by rewrite lookup_insert_eq.
    + rewrite lookup_insert_ne by done. by apply Hin.
  - intros p q s u [bp Hp] [bq Hq] Hs Hu Hport Hnet.
    destruct (Hmem bp p Hp) as [[-> ->]|[Hnp Hp']];
      destruct (Hmem bq q Hq) as [[-> ->]|[Hnq Hq']]; [done|..].
    + rewrite lookup_insert_eq in Hs. injection Hs as <-.
      rewrite lookup_insert_ne in Hu by done.
      exfalso. apply (Hclash q u); [done|by exists bq|done..].
    + rewrite lookup_insert_eq in Hu. injection Hu as <-.
      rewrite lookup_insert_ne in Hs by done.
      exfalso. apply (Hclash p s); [done|by exists bp|done|done|done].
    + rewrite lookup_insert_ne in Hs, Hu by done.
      apply (Huniq p q s u); [by exists bp|by exists bq|done..].
Qed.

Lemma default_port_loop_found fuel k hnet start : ∀ prev p,
  default_port_loop fuel k hnet start prev = Some (true, p) →
  homa_sock_find k hnet p = None.
Proof.
  induction fuel as [|fuel IH]; intros prev p; simpl; [done|].
  destruct (homa_sock_find k hnet (next_default_port prev)) eqn:Hfind.
  - destruct (_ =? _); [done|]. apply IH.
  - by intros [= <-].
Qed.

End TableShape.

Section TableInvariant.
Context `{homa_consts}.

Lemma same_key_refl s : same_key s s.
Proof. done. Qed.

Lemma table_ok_store t ss hsk s' :
  table_ok t ss →
  (table_linked t hsk → ∃ s, ss !! hsk = Some s ∧ same_key s s') →
  table_ok t (<[hsk := s']> ss).
Proof.
  intros Hok Hkey. apply (table_ok_sub t t ss); [done|done|].
  intros p s Hl Hs. destruct (decide (p = hsk)) as [->|Hne].
  - rewrite lookup_insert_eq. destruct (Hkey Hl) as (s0 & Hs0 & Hk).
    exists s'. split; [done|]. congruence.
  - rewrite lookup_insert_ne by done. by exists s.
Qed.

Lemma table_ok_del t ss hsk :
  table_ok t ss → table_ok (hlist_del hsk t) ss.
Proof.
  intros Hok. apply (table_ok_sub t _ ss); [done| |].
  - intros b. rewrite bucket_of_del. apply sublist_filter.
  - intros p s _ Hs. by exists s.
Qed.

Lemma bucket_find_None_del ss hnet port hsk t b :
  bucket_find ss hnet port (bucket_of t b) = None →
  bucket_find ss hnet port (bucket_of (hlist_del hsk t) b) = None.
Proof.
  rewrite !bucket_find_None. intros Hnone p s Hin.
  rewrite bucket_of_del in Hin. apply list_elem_of_filter in Hin as [_ Hin].
  by apply Hnone.
Qed.

(** [homa_sock_init] on a block that is in no bucket. *)
Lemma socktab_ok_init fuel pool_alloc k hsk s result k' :
  socktab_ok k →
  socks k !! hsk = Some s →
  (∀ b, hsk ∉ bucket_of (socktab k) b) →
  homa_sock_init fuel pool_alloc k hsk = Some (result, k') →
  socktab_ok k'.
Proof.
  intros Hok Hs Hno. unfold homa_sock_init. rewrite Hs. simpl.
  destruct (nets k !! sk_net s) as [n0|]; [|done]. simpl.
  assert (Hun : ∀ s1, table_ok (socktab k) (<[hsk := s1]> (socks k))).
  { intros s1. apply table_ok_store; [done|].
    intros [b Hb]. by apply Hno in Hb. }
  destruct pool_alloc as [err|pool]; [intros [= <- <-]; apply Hun|].
  destruct (default_port_loop _ _ _ _ _) as [[found prev]|] eqn:Hloop; [|done].
  destruct found; intros [= <- <-]; unfold socktab_ok; simpl;
    rewrite insert_insert_eq; [|apply Hun].
  apply default_port_loop_found in Hloop.
  rewrite homa_sock_find_store_unlinked in Hloop by done.
  set (s1 := sock_init_homa (sk_net s) pool (sock_init_begin (wmem_max k) s)).
  by apply (table_ok_link (socktab k) (socks k) hsk
              (sock_init_done prev s1) (sk_net s)).
Qed.

Lemma socktab_ok_bind k hnet hsk s port result k' :
  socktab_ok k →
  socks k !! hsk = Some s → hsk_hnet s = Some hnet →
  homa_sock_bind k hnet hsk port = Some (result, k') →
  socktab_ok k'.
Proof.
  intros Hok Hs Hn. unfold homa_sock_bind.
  destruct (u16 port =? 0); [by intros [= <- <-]|].
  destruct (u16 port >=? HOMA_MIN_DEFAULT_PORT); [by intros [= <- <-]|].
  rewrite Hs. simpl. destruct (shutdown s) eqn:Hsh; [by intros [= <- <-]|].
  destruct (homa_sock_find k hnet (u16 port)) as [owner|] eqn:Hf.
  { case_bool_decide; by intros [= <- <-]. }
  intros [= <- <-]. unfold socktab_ok. simpl.
  apply (table_ok_link (hlist_del hsk (socktab k)) (socks k) hsk
           (sock_bound (u16 port) s) hnet).
  - by apply table_ok_del.
  - intros b. apply not_in_bucket_of_del.
  - done.
  - done.
  - simpl. by apply bucket_find_None_del.
Qed.

Lemma socktab_ok_shutdown k hsk k1 :
  socktab_ok k →
  homa_sock_shutdown k hsk = Some k1 →
  socktab_ok k1.
Proof.
  intros Hok. unfold homa_sock_shutdown.
  destruct (socks k !! hsk) as [s|] eqn:Hs; [|done]. simpl.
  destruct (shutdown s || negb (hsk_homa s)); [by intros [= <-]|].
  set (k0 := homa_sock_unlink (store_sock hsk (sock_set_shutdown true s) k) hsk).
  destruct (socks (foldl homa_rpc_end k0 (active_rpcs s)) !! hsk)
    as [s1|] eqn:Hs1; [|done]. simpl. intros [= <-].
  destruct (shutdown_interests_spec (interests s1) hsk _ _ Hs1 eq_refl)
    as (Hsocks & _ & Htab & _ & _).
  destruct (foldl_rpc_end_frame (active_rpcs s) k0) as (Htab0 & _ & _).
  unfold socktab_ok. rewrite Htab, Htab0, Hsocks. simpl.
  apply (table_ok_sub (socktab k) _ (socks k)); [done| |].
  - intros b. rewrite bucket_of_del. apply sublist_filter.
  - intros p s0 [b Hb] Hs0.
    assert (p ≠ hsk) as Hne.
    { intros ->. by apply not_in_bucket_of_del in Hb. }
    rewrite lookup_insert_ne by done.
    destruct (foldl_rpc_end_socks (active_rpcs s) k0 p s0) as (a & d & Hp).
    { simpl. by rewrite lookup_insert_ne. }
    by eexists.
Qed.

Lemma socktab_ok_destroy k hsk k1 :
  socktab_ok k →
  homa_sock_destroy k hsk = Some k1 →
  socktab_ok k1.
Proof.
  intros Hok. unfold homa_sock_destroy.
  destruct (socks k !! hsk) as [s|] eqn:Hs; [|done]. simpl.
  destruct (negb (hsk_homa s)); [by intros [= <-]|].
  intros [= <-]. unfold socktab_ok.
  assert (Htab : ∀ k2, socktab k2 = socktab k → socks k2 = socks k →
            table_ok (socktab (store_sock hsk (sock_destroyed s) k2))
                     (socks (store_sock hsk (sock_destroyed s) k2))).
  { intros k2 Ht Hss. simpl. rewrite Ht, Hss. apply table_ok_store; [done|].
    intros _. by exists s. }
  apply Htab; case_bool_decide; destruct (buffer_pool s); done.
Qed.

Lemma socktab_ok_connect k hsk addr addrlen result k' :
  socktab_ok k →
  homa_connect k hsk addr addrlen = Some (result, k') →
  socktab_ok k'.
Proof.
  intros Hok. unfold homa_connect, __homa_connect.
  destruct (socks k !! hsk) as [s|] eqn:Hs; [|done]. simpl.
  assert (Hst : ∀ a, socktab_ok (store_sock hsk (sock_connected a s) k)).
  { intros a. unfold socktab_ok. simpl. apply table_ok_store; [done|].
    intros _. by exists s. }
  repeat (match goal with
          | |- context [if ?c then _ else _] => destruct c
          end; try (by intros [= <- <-])); intros [= <- <-]; apply Hst.
Qed.

Lemma keys_kept_socktab_ok k k' :
  socktab_ok k → keys_kept k k' → socktab_ok k'.
Proof.
  intros Hok (Htab & Hkeys & _). unfold socktab_ok. rewrite Htab.
  apply (table_ok_sub (socktab k) _ (socks k)); [done|done|].
  intros p s _. apply Hkeys.
Qed.

Lemma keys_kept_refl k : keys_kept k k.
Proof. split; [done|]. split; [|done]. intros p s Hs. by exists s. Qed.

Lemma keys_kept_trans k1 k2 k3 :
  keys_kept k1 k2 → keys_kept k2 k3 → keys_kept k1 k3.
Proof.
  intros (Ht1 & Hk1 & Hn1) (Ht2 & Hk2 & Hn2). split; [congruence|].
  split; [|congruence].
  intros p s Hs. destruct (Hk1 p s Hs) as (s2 & Hs2 & Hp & Hn & Hsh).
  destruct (Hk2 p s2 Hs2) as (s3 & Hs3 & Hp' & Hn' & Hsh').
  exists s3. split; [done|]. repeat split; congruence.
Qed.

Lemma keys_kept_same k k' :
  socktab k' = socktab k → socks k' = socks k → nets k' = nets k →
  keys_kept k k'.
Proof.
  intros Ht Hs Hn. split; [done|]. split; [|done].
  rewrite Hs. intros p s Hp. by exists s.
Qed.

Lemma keys_kept_store k hsk s s' :
  socks k !! hsk = Some s → same_key s s' →
  keys_kept k (store_sock hsk s' k).
Proof.
  intros Hs Hkey. split; [done|]. split; [|done]. intros p u Hu. simpl.
  destruct (decide (p = hsk)) as [->|Hne].
  - rewrite lookup_insert_eq. exists s'. split; [done|]. congruence.
  - rewrite lookup_insert_ne by done. by exists u.
Qed.

Lemma keys_kept_rpc_end k p : keys_kept k (homa_rpc_end k p).
Proof.
  split; [apply homa_rpc_end_frame|]. split; [|apply homa_rpc_end_frame].
  intros q s Hq.
  destruct (homa_rpc_end_socks k p q s Hq) as (a & d & Hs). by eexists.
Qed.

Lemma keys_kept_wait_wmem w k hsk nonblocking result k1 :
  homa_sock_wait_wmem w k hsk nonblocking = Some (result, k1) →
  keys_kept k k1.
Proof.
  unfold homa_sock_wait_wmem.
  destruct (socks k !! hsk) as [s|] eqn:Hs; [|done]. simpl.
  destruct (wait_event_interruptible_timeout _ _ _) as [res slept].
  assert (Hst : keys_kept k (store_sock hsk (sock_set_nospace s) k))
    by (by eapply keys_kept_store).
  assert (Hlog : ∀ ev, keys_kept k
            (log_event ev (store_sock hsk (sock_set_nospace s) k))).
  { intros ev. eapply keys_kept_trans; [exact Hst|]. by apply keys_kept_same. }
  destruct slept, (signal_pending w), (int32 res =? 0); intros [= <- <-];
    done.
Qed.

Lemma keys_kept_alloc_client err k hsk dest a k1 :
  homa_rpc_alloc_client err k hsk dest = Some (a, k1) → keys_kept k k1.
Proof.
  unfold homa_rpc_alloc_client.
  destruct (socks k !! hsk) as [s|] eqn:Hs; [|done]. simpl.
  destruct (negb (err =? 0)); [intros [= <- <-]; apply keys_kept_refl|].
  destruct (shutdown s); intros [= <- <-]; [apply keys_kept_refl|].
  split; [done|]. split; [|done]. simpl. intros p u Hu.
  destruct (decide (p = hsk)) as [->|Hne].
  - rewrite lookup_insert_eq. eexists. split; [done|].
    assert (u = s) as -> by congruence. done.
  - rewrite lookup_insert_ne by done. by exists u.
Qed.

Lemma keys_kept_fill e k p : keys_kept k (homa_message_out_fill e k p).2.
Proof.
  unfold homa_message_out_fill. simpl.
  destruct (fill_kills e).
  - eapply keys_kept_trans; [|apply keys_kept_rpc_end]. by apply keys_kept_same.
  - by apply keys_kept_same.
Qed.

Local Opaque homa_message_out_fill.

Lemma keys_kept_sendmsg_body user e k hsk addr args ctl result k1 ctl1 :
  sendmsg_body user e k hsk addr args ctl = Some (result, k1, ctl1) →
  keys_kept k k1.
Proof.
  unfold sendmsg_body. destruct (args_id args =? 0).
  - unfold sendmsg_request.
    destruct (homa_rpc_alloc_client _ k hsk addr) as [[[err|p] k2]|] eqn:Ha;
      simpl; [| |done].
    { intros [= <- <- <-]. by eapply keys_kept_alloc_client. }
    apply keys_kept_alloc_client in Ha.
    destruct (rpcs k2 !! p) as [r|]; [|done]. simpl.
    set (r1 := rpc_set_cookie _ _).
    pose proof (keys_kept_fill e (store_rpc p r1 k2) p) as Hfill.
    destruct (homa_message_out_fill e (store_rpc p r1 k2) p) as [res k3].
    simpl in Hfill.
    assert (H3 : keys_kept k k3).
    { eapply keys_kept_trans; [exact Ha|].
      eapply keys_kept_trans; [|exact Hfill]. by apply keys_kept_same. }
    destruct (negb (res =? 0)).
    { intros [= <- <- <-]. eapply keys_kept_trans; [exact H3|].
      apply keys_kept_rpc_end. }
    destruct (user && negb (copy_to_user_ok e)); intros [= <- <- <-]; [|done].
    destruct (homa_rpc_find_client k3 hsk _); [|done].
    eapply keys_kept_trans; [exact H3|]. apply keys_kept_rpc_end.
  - unfold sendmsg_response.
    destruct (negb (args_completion_cookie args =? 0));
      [intros [= <- <- <-]; apply keys_kept_refl|].
    destruct (homa_rpc_find_server k hsk _ _) as [p|];
      [|intros [= <- <- <-]; apply keys_kept_refl].
    destruct (rpcs k !! p) as [r|]; [|done]. simpl.
    destruct (negb (rpc_error r =? 0));
      [intros [= <- <- <-]; apply keys_kept_rpc_end|].
    destruct (negb (bool_decide (rpc_state_of r = RPC_IN_SERVICE)));
      [intros [= <- <- <-]; apply keys_kept_refl|].
    set (k2 := store_rpc p (rpc_set_state RPC_OUTGOING r) k).
    pose proof (keys_kept_fill e k2 p) as Hfill.
    destruct (homa_message_out_fill e k2 p) as [res k3]. simpl in Hfill.
    assert (H3 : keys_kept k k3).
    { eapply keys_kept_trans; [|exact Hfill]. by apply keys_kept_same. }
    destruct (rpcs k3 !! p) as [r'|]; [|done]. simpl.
    destruct (_ && _); intros [= <- <- <-]; [|done].
    eapply keys_kept_trans; [exact H3|]. apply keys_kept_rpc_end.
Qed.

Local Transparent homa_message_out_fill.

Lemma keys_kept_sendmsg e k hsk msg result k1 ctl1 :
  homa_sendmsg e k hsk msg = Some (result, k1, ctl1) → keys_kept k k1.
Proof.
  assert (Hw : ∀ k2 r, sendmsg_wmem e k hsk msg = Some (r, k2) →
            keys_kept k k2).
  { intros k2 r. unfold sendmsg_wmem. destruct (negb (wmem_avl e)).
    - apply keys_kept_wait_wmem.
    - intros [= <- <-]. apply keys_kept_refl. }
  assert (Hbody : ∀ user k2 addr args ctl,
            keys_kept k k2 →
            sendmsg_body user e k2 hsk addr args ctl
              = Some (result, k1, ctl1) → keys_kept k k1).
  { intros user k2 addr args ctl H2 Hb. eapply keys_kept_trans; [exact H2|].
    by eapply keys_kept_sendmsg_body. }
  unfold homa_sendmsg.
  destruct (socks k !! hsk) as [s|] eqn:Hs; [|done]. simpl.
  destruct (msg_control_is_user msg) eqn:Huser, (connected s).
  - unfold homa_sendmsg_user_connected. rewrite Hs. simpl.
    case_bool_decide; [intros [= <- <- <-]; apply keys_kept_refl|].
    rewrite Huser. simpl.
    destruct (if copy_from_user_ok e then msg_control msg else None)
      as [args|]; [|intros [= <- <- <-]; apply keys_kept_refl].
    destruct (flags_invalid args); [intros [= <- <- <-]; apply keys_kept_refl|].
    destruct (sendmsg_wmem e k hsk msg) as [[r k2]|] eqn:Hwm; [|done].
    simpl. specialize (Hw _ _ eq_refl).
    destruct (negb (r =? 0)); [by intros [= <- <- <-]|].
    destruct (negb (_ =? _)); [by intros [= <- <- <-]|].
    destruct (negb (_ =? _)); [by intros [= <- <- <-]|].
    by apply Hbody.
  - unfold homa_sendmsg_user_unconnected. rewrite Hs. simpl.
    destruct (msg_name msg) as [addr|];
      [|intros [= <- <- <-]; apply keys_kept_refl].
    rewrite Huser. simpl.
    destruct (if copy_from_user_ok e then msg_control msg else None)
      as [args|]; [|intros [= <- <- <-]; apply keys_kept_refl].
    destruct (flags_invalid args); [intros [= <- <- <-]; apply keys_kept_refl|].
    destruct (sendmsg_wmem e k hsk msg) as [[r k2]|] eqn:Hwm; [|done].
    simpl. specialize (Hw _ _ eq_refl).
    destruct (negb (r =? 0)); [by intros [= <- <- <-]|].
    destruct (negb (_ =? _)); [by intros [= <- <- <-]|].
    destruct (namelen_too_short _ _); [by intros [= <- <- <-]|].
    by apply Hbody.
  - unfold homa_sendmsg_in_kernel_connected. rewrite Hs. simpl.
    case_bool_decide; [intros [= <- <- <-]; apply keys_kept_refl|].
    destruct (flags_invalid _); [intros [= <- <- <-]; apply keys_kept_refl|].
    destruct (sendmsg_wmem e k hsk msg) as [[r k2]|] eqn:Hwm; [|done].
    simpl. specialize (Hw _ _ eq_refl).
    destruct (negb (r =? 0)); [by intros [= <- <- <-]|].
    destruct (negb (_ =? _)); [by intros [= <- <- <-]|].
    destruct (negb (_ =? _)); [by intros [= <- <- <-]|].
    destruct (msg_control msg) as [args|]; [|done]. simpl.
    by apply Hbody.
  - unfold homa_sendmsg_in_kernel_unconnected. rewrite Hs. simpl.
    destruct (msg_name msg) as [addr|];
      [|intros [= <- <- <-]; apply keys_kept_refl].
    destruct (msg_control msg) as [args|]; [|done]. simpl.
    destruct (flags_invalid args); [intros [= <- <- <-]; apply keys_kept_refl|].
    destruct (sendmsg_wmem e k hsk msg) as [[r k2]|] eqn:Hwm; [|done].
    simpl. specialize (Hw _ _ eq_refl).
    destruct (negb (r =? 0)); [by intros [= <- <- <-]|].
    destruct (negb (_ =? _)); [by intros [= <- <- <-]|].
    destruct (namelen_too_short _ _); [by intros [= <- <- <-]|].
    by apply Hbody.
Qed.

Lemma keys_kept_recvmsg_collect e s k hsk msg p ctl0 control res :
  recvmsg_collect e s k hsk msg p ctl0 control = Some res →
  keys_kept k (rr_state res).
Proof.
  unfold recvmsg_collect. destruct (rpcs k !! p) as [r|]; [|done]. simpl.
  destruct (msg_name msg); [|done]. simpl.
  intros [= <-]. rewrite recvmsg_done_state.
  set (k1 := store_rpc p (rpc_set_num_bpages 0 r) k).
  assert (H1 : keys_kept k k1) by (by apply keys_kept_same).
  assert (Hlog : ∀ k2 ev, keys_kept k k2 → keys_kept k (log_event ev k2)).
  { intros k2 ev H2. eapply keys_kept_trans; [exact H2|].
    by apply keys_kept_same. }
  assert (Hend : ∀ k2 q, keys_kept k k2 → keys_kept k (homa_rpc_end k2 q)).
  { intros k2 q H2. eapply keys_kept_trans; [exact H2|].
    apply keys_kept_rpc_end. }
  assert (Hst : ∀ k2 q r2, keys_kept k k2 → keys_kept k (store_rpc q r2 k2)).
  { intros k2 q r2 H2. eapply keys_kept_trans; [exact H2|].
    by apply keys_kept_same. }
  destruct (homa_is_client (rpc_id r)), (sock_nospace s);
    repeat match goal with
      | |- context [if ?b then _ else _] => destruct b
      end; auto.
Qed.

Lemma keys_kept_recvmsg e k hsk msg flags res :
  homa_recvmsg e k hsk msg flags = Some res → keys_kept k (rr_state res).
Proof.
  unfold homa_recvmsg.
  destruct (socks k !! hsk) as [s|] eqn:Hs; [|done]. simpl.
  destruct (msg_control msg) as [ctl0|];
    [|intros [= <-]; apply keys_kept_refl].
  destruct (negb (_ =? _)); [intros [= <-]; apply keys_kept_refl|].
  destruct (_ && _); [intros [= <-]; apply keys_kept_refl|].
  simpl.
  destruct (_ >? _);
    [intros [= <-]; rewrite recvmsg_done_state; apply keys_kept_refl|].
  destruct (buffer_pool s) as [pool|];
    [|intros [= <-]; rewrite recvmsg_done_state; apply keys_kept_refl].
  destruct (negb (release_result e =? 0));
    [intros [= <-]; rewrite recvmsg_done_state; by apply keys_kept_same|].
  destruct (negb (rcv_id ctl0 =? 0)).
  - destruct (homa_rpc_find_client _ hsk _) as [p|];
      [|intros [= <-]; rewrite recvmsg_done_state; by apply keys_kept_same].
    destruct (negb (wait_private_result e =? 0));
      [intros [= <-]; rewrite recvmsg_done_state; by apply keys_kept_same|].
    intros Hc. apply keys_kept_recvmsg_collect in Hc.
    eapply keys_kept_trans; [|exact Hc]. by apply keys_kept_same.
  - destruct (wait_shared_result e) as [err|p];
      [intros [= <-]; rewrite recvmsg_done_state; by apply keys_kept_same|].
    intros Hc. apply keys_kept_recvmsg_collect in Hc.
    eapply keys_kept_trans; [|exact Hc]. by apply keys_kept_same.
Qed.

(** One call keeps the table in shape. *)
Lemma sock_call_socktab_ok k k' :
  socktab_ok k → sock_call k k' → socktab_ok k'.
Proof.
  intros Hok [fuel pa hsk s result k1 Hs Hno Hcall
             |hsk addr len result k1 Hcall
             |hsk addr len result k1 Hcall
             |hsk how result k1 Hcall
             |hsk timeout k1 Hcall
             |e hsk msg result k1 ctl Hcall
             |e hsk msg flags res Hcall].
  - unfold homa_socket in Hcall.
    destruct (homa_sock_init fuel pa k hsk) as [[r k2]|] eqn:Hinit; [|done].
    simpl in Hcall.
    pose proof (socktab_ok_init _ _ _ _ _ _ _ Hok Hs Hno Hinit) as Hok2.
    destruct (negb (r =? 0)); [|by injection Hcall as <- <-].
    destruct (homa_sock_shutdown k2 hsk) as [k3|] eqn:Hsh; [|done].
    simpl in Hcall.
    destruct (homa_sock_destroy k3 hsk) as [k4|] eqn:Hd; [|done].
    injection Hcall as <- <-.
    eapply socktab_ok_destroy; [|done]. by eapply socktab_ok_shutdown.
  - unfold homa_bind in Hcall.
    destruct (socks k !! hsk) as [s|] eqn:Hs; [|done]. simpl in Hcall.
    destruct (negb _); [by injection Hcall as <- <-|].
    destruct (hsk_hnet s) as [hnet|] eqn:Hn.
    + repeat (match type of Hcall with
              | context [if ?c then _ else _] => destruct c
              end; try (by injection Hcall as <- <-));
        simpl in Hcall; by eapply socktab_ok_bind.
    + repeat (match type of Hcall with
              | context [if ?c then _ else _] => destruct c
              end; try (by injection Hcall as <- <-)); done.
  - by eapply socktab_ok_connect.
  - unfold homa_shutdown in Hcall.
    destruct (homa_sock_shutdown k hsk) as [k2|] eqn:Hsh; [|done].
    injection Hcall as <- <-. by eapply socktab_ok_shutdown.
  - unfold homa_close, sk_common_release in Hcall.
    destruct (homa_sock_shutdown k hsk) as [k2|] eqn:Hsh; [|done].
    simpl in Hcall. eapply socktab_ok_destroy; [|done].
    by eapply socktab_ok_shutdown.
  - eapply keys_kept_socktab_ok; [done|]. by eapply keys_kept_sendmsg.
  - eapply keys_kept_socktab_ok; [done|]. by eapply keys_kept_recvmsg.
Qed.

End TableInvariant.

Section TableLookup.
Context `{homa_consts}.

Lemma unlinked_bucket_of t p : unlinked t p → ∀ b, p ∉ bucket_of t b.
Proof.
  intros Hun b. unfold bucket_of. destruct (t !! b) as [l|] eqn:Hb; simpl.
  - by apply (Hun b l).
  - apply not_elem_of_nil.
Qed.

(** In a table in good shape the look-up finds every socket of the table
    under its own port. *)
Lemma homa_sock_find_linked k hnet p s :
  socktab_ok k → table_linked (socktab k) p →
  socks k !! p = Some s → hsk_hnet s = Some hnet →
  homa_sock_find k hnet (hsk_port s) = Some p.
Proof.
  intros (Hnd & Hin & Huniq) [b Hb] Hs Hn.
  destruct (Hin b p Hb) as (s1 & hn & Hs1 & Hn1 & _ & Hbucket).
  assert (s1 = s) as -> by congruence.
  assert (hn = hnet) as -> by congruence. subst b.
  destruct (homa_sock_find k hnet (hsk_port s)) as [q|] eqn:Hf.
  - f_equal. pose proof Hf as Hf'.
    apply homa_sock_find_owner in Hf as (u & Hu & Hport & Hnet).
    apply bucket_find_Some in Hf' as [Hq _].
    apply (Huniq q p u s); [by eexists|by eexists|done|done|done|congruence].
  - exfalso. unfold homa_sock_find in Hf.
    by apply (proj1 (bucket_find_None _ _ _ _) Hf p s Hb Hs eq_refl).
Qed.

Lemma homa_sock_shutdown_socks_inv k hsk k1 q u1 :
  homa_sock_shutdown k hsk = Some k1 →
  socks k1 !! q = Some u1 →
  ∃ u, socks k !! q = Some u ∧ hsk_port u = hsk_port u1
       ∧ hsk_hnet u = hsk_hnet u1.
Proof.
  unfold homa_sock_shutdown.
  destruct (socks k !! hsk) as [s|] eqn:Hs; [|done]. simpl.
  destruct (shutdown s || negb (hsk_homa s)); [intros [= <-]; by exists u1|].
  set (k0 := homa_sock_unlink (store_sock hsk (sock_set_shutdown true s) k) hsk).
  destruct (socks (foldl homa_rpc_end k0 (active_rpcs s)) !! hsk)
    as [s1|] eqn:Hs1; [|done]. simpl. intros [= <-].
  destruct (shutdown_interests_spec (interests s1) hsk _ _ Hs1 eq_refl)
    as (Hsocks & _). rewrite Hsocks.
  destruct (decide (q = hsk)) as [->|Hne].
  - rewrite lookup_insert_eq. intros [= <-]. simpl.
    apply foldl_rpc_end_socks_inv in Hs1 as (s0 & Hs0 & Hp0 & Hn0).
    simpl in Hs0. rewrite lookup_insert_eq in Hs0. injection Hs0 as <-.
    by exists s.
  - rewrite lookup_insert_ne by done. intros Hq.
    apply foldl_rpc_end_socks_inv in Hq as (s0 & Hs0 & Hp0 & Hn0).
    simpl in Hs0. rewrite lookup_insert_ne in Hs0 by done. by exists s0.
Qed.

(** What [homa_sock_destroy] does to a socket whose [homa] is set. *)
Lemma homa_sock_destroy_live k hsk s :
  socks k !! hsk = Some s → hsk_homa s = true →
  ∃ k1, homa_sock_destroy k hsk = Some k1
        ∧ socks k1 = <[hsk := sock_destroyed s]> (socks k)
        ∧ socktab k1 = socktab k
        ∧ klog k1 = klog k
                    ++ (if bool_decide (dead_rpcs s = []) then []
                        else [EvRpcReap hsk])
                    ++ match buffer_pool s with
                       | Some pool => [EvPoolFree pool]
                       | None => []
                       end.
Proof.
  intros Hs Hh. unfold homa_sock_destroy. rewrite Hs. simpl. rewrite Hh.
  simpl. eexists. split; [reflexivity|].
  case_bool_decide; destruct (buffer_pool s); simpl;
    rewrite <- ?app_assoc, ?app_nil_r; done.
Qed.

End TableLookup.

Section TableTheorems.
Context `{homa_consts}.

(** X1: the shape of the socket table is an invariant of the system
    calls.  From a state whose table is in good shape, every sequence of
    socket creations (on blocks that are not in the table), [homa_bind],
    [homa_connect], [homa_shutdown], [homa_close], [homa_sendmsg] and
    [homa_recvmsg] calls, whatever their arguments, surroundings and
    results, leads to a state whose table is in good
    shape: no socket is on a list twice, every socket of the table is
    live and sits in the bucket of its namespace and port, and no two
    sockets of the table share a port within a namespace. *)
Theorem sock_calls_socktab_ok k k' :
  socktab_ok k → sock_calls k k' → socktab_ok k'.
Proof.
  intros Hok Hcalls. induction Hcalls as [|k1 k2 _ IH Hcall]; [done|].
  by eapply sock_call_socktab_ok.
Qed.

(** X2: in a table in good shape, [homa_sock_find] is exact.  It returns
    socket [p] for a namespace and port if and only if [p] is in the
    table with that port in that namespace; and what it returns has not
    been shut down. *)
Theorem homa_sock_find_exact k hnet port p :
  socktab_ok k →
  (homa_sock_find k hnet port = Some p ↔
     table_linked (socktab k) p
     ∧ ∃ s, socks k !! p = Some s ∧ hsk_port s = port
            ∧ hsk_hnet s = Some hnet)
  ∧ (homa_sock_find k hnet port = Some p →
     ∃ s, socks k !! p = Some s ∧ shutdown s = false).
Proof.
  intros Hok. split; [split|].
  - intros Hf. pose proof Hf as Hf'.
    apply bucket_find_Some in Hf as [Hin _].
    split; [by eexists|]. by apply homa_sock_find_owner.
  - intros (Hl & s & Hs & <- & Hn). by apply homa_sock_find_linked.
  - intros Hf. apply bucket_find_Some in Hf as [Hin _].
    destruct Hok as (_ & Hmem & _).
    destruct (Hmem _ _ Hin) as (s & hn & Hs & _ & Hsh & _). by exists s.
Qed.

(** X3: closing a socket frees its port.  When [homa_close] is applied
    to the initialised socket that the table finds under a port, the
    table stays in good shape, no look-up returns the socket any more,
    the port is free, the socket is marked shut down and has given up its
    buffer pool (freed by the last call that the close makes), and any
    live socket of the namespace can then bind the port if it is a
    bindable one. *)
Theorem homa_close_frees_port k hsk s hnet port timeout k1 :
  socktab_ok k →
  socks k !! hsk = Some s → hsk_homa s = true →
  homa_sock_find k hnet port = Some hsk →
  homa_close k hsk timeout = Some k1 →
  socktab_ok k1
  ∧ (∀ hnet' port', homa_sock_find k1 hnet' port' ≠ Some hsk)
  ∧ homa_sock_find k1 hnet port = None
  ∧ (∃ s1, socks k1 !! hsk = Some s1 ∧ shutdown s1 = true
           ∧ buffer_pool s1 = None)
  ∧ (∀ pool, buffer_pool s = Some pool →
       last (klog k1) = Some (EvPoolFree pool))
  ∧ (∀ q sq, socks k1 !! q = Some sq → hsk_hnet sq = Some hnet →
       shutdown sq = false → 0 < port < HOMA_MIN_DEFAULT_PORT →
       port < 65536 →
       ∃ k2, homa_sock_bind k1 hnet q port = Some (0, k2)
             ∧ homa_sock_find k2 hnet port = Some q).
Proof.
  intros Hok Hs Hh Hf Hclose.
  assert (Hok1 : socktab_ok k1).
  { apply (sock_call_socktab_ok k); [done|]. by eapply call_close. }
  pose proof Hf as Hlinked. apply bucket_find_Some in Hlinked as [Hlinked _].
  pose proof Hf as Hown.
  apply homa_sock_find_owner in Hown as (s0 & Hs0 & Hport & Hnet).
  assert (s0 = s) as -> by congruence.
  assert (Hsh : shutdown s = false).
  { destruct Hok as (_ & Hmem & _).
    destruct (Hmem _ _ Hlinked) as (s0 & ? & Hs0' & _ & Hsh & _). congruence. }
  destruct (homa_sock_shutdown_live k hsk s Hs Hh Hsh)
    as (k0 & a & d & Hk0 & Hs1 & Htab & Hlog & _).
  unfold homa_close, sk_common_release in Hclose. rewrite Hk0 in Hclose.
  simpl in Hclose.
  destruct (homa_sock_destroy_live k0 hsk _ Hs1 Hh)
    as (k1' & Hd & Hsocks1 & Htab1 & Hlog1).
  assert (k1' = k1) as -> by congruence.
  assert (Hgone : ∀ hnet' port', homa_sock_find k1 hnet' port' ≠ Some hsk).
  { intros hnet' port'. apply homa_sock_find_not_linked. intros b.
    rewrite Htab1, Htab. apply not_in_bucket_of_del. }
  assert (Hfree : homa_sock_find k1 hnet port = None).
  { destruct (homa_sock_find k1 hnet port) as [q|] eqn:Hq; [|done].
    exfalso. assert (q ≠ hsk) as Hne by (intros ->; by apply Hgone in Hq).
    pose proof Hq as Hq'.
    apply bucket_find_Some in Hq' as [Hin _].
    apply homa_sock_find_owner in Hq as (u1 & Hu1 & Hp1 & Hn1).
    rewrite Hsocks1, lookup_insert_ne in Hu1 by done.
    destruct (homa_sock_shutdown_socks_inv k hsk k0 q u1 Hk0 Hu1)
      as (u & Hu & Hpu & Hnu).
    rewrite Htab1, Htab, bucket_of_del in Hin.
    apply list_elem_of_filter in Hin as [_ Hin].
    destruct Hok as (_ & _ & Huniq). apply Hne.
    apply (Huniq q hsk u s); [by eexists|by eexists|done|done|
                              congruence|congruence]. }
  split; [done|]. split; [done|]. split; [done|]. split; [|split].
  - eexists. rewrite Hsocks1, lookup_insert_eq. done.
  - intros pool Hpool. rewrite Hlog1. simpl. rewrite Hpool.
    rewrite !app_assoc. apply last_snoc.
  - intros q sq Hq Hn Hshq Hp Hp'.
    destruct (homa_sock_bind_free k1 hnet q sq port)
      as (k2 & Hb & _ & Hfound & _); try done; try lia.
    by exists k2.
Qed.

End TableTheorems.

Section TableWitnesses.
Local Existing Instance linux_consts.

Lemma socktab_ok_k_one : socktab_ok k_one.
Proof.
  apply (sock_call_socktab_ok k_boot); [apply table_ok_empty|].
  apply (call_socket k_boot sweep_fuel (inr pool1) hsk1
           (zeroed_sock net0 AF_INET6 100) 0 k_one).
  - reflexivity.
  - apply unlinked_bucket_of.
    apply (bool_decide_eq_true_1 _ (Decision0 := unlinked_dec _ _)).
    vm_compute. reflexivity.
  - vm_compute. reflexivity.
Qed.

Lemma sock_call_k_two : sock_call k_one k_two.
Proof.
  apply (call_socket k_one sweep_fuel (inr pool1) hsk2
           (zeroed_sock net0 AF_INET6 100) 0 k_two).
  - vm_compute. reflexivity.
  - apply unlinked_bucket_of.
    apply (bool_decide_eq_true_1 _ (Decision0 := unlinked_dec _ _)).
    vm_compute. reflexivity.
  - vm_compute. reflexivity.
Qed.

Lemma socktab_ok_k_two : socktab_ok k_two.
Proof.
  apply (sock_call_socktab_ok k_one);
    [apply socktab_ok_k_one|apply sock_call_k_two].
Qed.

Lemma socktab_ok_k_bound : socktab_ok k_bound.
Proof.
  apply (socktab_ok_bind k_two net0 hsk2 (the_sock k_two hsk2) 100 0);
    [apply socktab_ok_k_two|vm_compute; reflexivity..].
Qed.

Lemma sock_calls_socktab_ok_witness : socktab_ok k_two.
Proof.
  refine (sock_calls_socktab_ok k_one k_two _ _).
  - apply socktab_ok_k_one.
  - apply (calls_more k_one k_one); [apply calls_none|apply sock_call_k_two].
Defined.

Lemma homa_sock_find_exact_witness :
  (homa_sock_find k_two net0 32769 = Some hsk2 ↔
     table_linked (socktab k_two) hsk2
     ∧ ∃ s, socks k_two !! hsk2 = Some s ∧ hsk_port s = 32769
            ∧ hsk_hnet s = Some net0)
  ∧ (homa_sock_find k_two net0 32769 = Some hsk2 →
     ∃ s, socks k_two !! hsk2 = Some s ∧ shutdown s = false).
Proof.
  refine (homa_sock_find_exact k_two net0 32769 hsk2 _).
  apply socktab_ok_k_two.
Defined.

Lemma homa_close_frees_port_witness :
  socktab_ok k_closed
  ∧ (∀ hnet' port', homa_sock_find k_closed hnet' port' ≠ Some hsk2)
  ∧ homa_sock_find k_closed net0 100 = None
  ∧ (∃ s1, socks k_closed !! hsk2 = Some s1 ∧ shutdown s1 = true
           ∧ buffer_pool s1 = None)
  ∧ (∀ pool, buffer_pool (the_sock k_bound hsk2) = Some pool →
       last (klog k_closed) = Some (EvPoolFree pool))
  ∧ (∀ q sq, socks k_closed !! q = Some sq → hsk_hnet sq = Some net0 →
       shutdown sq = false → 0 < 100 < HOMA_MIN_DEFAULT_PORT →
       100 < 65536 →
       ∃ k2, homa_sock_bind k_closed net0 q 100 = Some (0, k2)
             ∧ homa_sock_find k2 net0 100 = Some q).
Proof.
  refine (homa_close_frees_port k_bound hsk2 (the_sock k_bound hsk2)
            net0 100 0 k_closed _ _ _ _ _).
  - apply socktab_ok_k_bound.
  - vm_compute. reflexivity.
  - vm_compute. reflexivity.
  - vm_compute. reflexivity.
  - vm_compute. reflexivity.
Defined.

End TableWitnesses.

(** * Scans of the socket table *)

Section Scan.
Context `{homa_consts} `{homa_hdrs}.

Lemma buckets_from_S t b n :
  0 ≤ b →
  buckets_from t b (S n) = bucket_of t (Z.to_nat b) ++ buckets_from t (b + 1) n.
Proof.
  intros Hb. unfold buckets_from. simpl.
  by replace (Z.to_nat (b + 1)) with (S (Z.to_nat b)) by lia.
Qed.

Lemma elem_of_buckets_from t n : ∀ b p,
  0 ≤ b →
  p ∈ buckets_from t b n ↔
  ∃ i, (Z.to_nat b ≤ i < Z.to_nat b + n)%nat ∧ p ∈ bucket_of t i.
Proof.
  induction n as [|n IH]; intros b p Hb.
  - unfold buckets_from. simpl. split.
    + intros Hin. by apply not_elem_of_nil in Hin.
    + intros (i & Hi & _). lia.
  - rewrite buckets_from_S by done. rewrite elem_of_app, IH by lia. split.
    + intros [Hin|(i & Hi & Hin)].
      * exists (Z.to_nat b). split; [lia|done].
      * exists i. split; [lia|done].
    + intros (i & Hi & Hin).
      destruct (decide (i = Z.to_nat b)) as [->|Hne]; [by left|].
      right. exists i. split; [lia|done].
Qed.

(** Where the [for] loop of [homa_socktab_next] stops. *)
Lemma scan_buckets_spec n : ∀ t b,
  0 ≤ b →
  match scan_buckets n t b with
  | (b', Some q, rest) =>
      b ≤ b' < b + Z.of_nat n
      ∧ bucket_of t (Z.to_nat b') = q :: rest
      ∧ buckets_from t b n
        = q :: rest ++ buckets_from t (b' + 1) (n - S (Z.to_nat (b' - b)))
  | (b', None, _) => b' = b + Z.of_nat n ∧ buckets_from t b n = []
  end.
Proof.
  induction n as [|n IH]; intros t b Hb; simpl.
  - split; [lia|done].
  - rewrite buckets_from_S by done.
    destruct (bucket_of t (Z.to_nat b)) as [|q rest] eqn:Hbucket.
    + specialize (IH t (b + 1) ltac:(lia)).
      destruct (scan_buckets n t (b + 1)) as [[b' [q|]] rest].
      * destruct IH as (Hrange & Hq & Hrest). split; [lia|]. split; [done|].
        simpl. rewrite Hrest. do 3 f_equal. lia.
      * destruct IH as [-> Hrest]. split; [lia|done].
    + split; [lia|]. split; [done|]. simpl.
      replace (Z.to_nat (b - b)) with 0%nat by lia.
      by rewrite Nat.sub_0_r.
Qed.

Lemma scan_returns_rest fuel : ∀ k scan p,
  scan_hsk scan = Some p →
  0 ≤ current_bucket scan →
  (length (scan_rest k scan p) ≤ fuel)%nat →
  scan_returns fuel k scan (Some p) = Some (scan_rest k scan p).
Proof.
  induction fuel as [|fuel IH]; intros k [hsk links c] p Hp Hc Hlen;
    simpl in *; [lia|].
  unfold homa_socktab_next. subst hsk. simpl. unfold scan_rest in *.
  simpl in *. destruct links as [|q links]; simpl in *.
  - pose proof (scan_buckets_spec
                  (Z.to_nat (HOMA_SOCKTAB_BUCKETS - (c + 1)))
                  (socktab k) (c + 1) ltac:(lia)) as Hspec.
    destruct (scan_buckets _ (socktab k) (c + 1)) as [[b' [q|]] rest].
    + destruct Hspec as (Hrange & Hq & Hrest). rewrite Hrest in *.
      replace (Z.to_nat (HOMA_SOCKTAB_BUCKETS - (c + 1))
               - S (Z.to_nat (b' - (c + 1))))%nat
        with (Z.to_nat (HOMA_SOCKTAB_BUCKETS - (b' + 1))) in * by lia.
      rewrite (IH k (mk_scan (Some q) rest b') q); simpl in *; try done; lia.
    + destruct Hspec as [_ ->]. by destruct fuel.
  - rewrite (IH k (mk_scan (Some q) links c) q); simpl; try done. lia.
Qed.

Lemma bucket_of_unique k b b' p :
  socktab_ok k →
  p ∈ bucket_of (socktab k) b → p ∈ bucket_of (socktab k) b' → b = b'.
Proof.
  intros (_ & Hin & _) Hb Hb'.
  destruct (Hin _ _ Hb) as (s & hn & Hs & Hn & _ & ->).
  destruct (Hin _ _ Hb') as (s' & hn' & Hs' & Hn' & _ & ->).
  congruence.
Qed.

Lemma buckets_from_NoDup k n : ∀ b,
  socktab_ok k → 0 ≤ b → NoDup (buckets_from (socktab k) b n).
Proof.
  induction n as [|n IH]; intros b Hok Hb.
  - apply NoDup_nil_2.
  - rewrite buckets_from_S by done. apply NoDup_app. split; [apply Hok|].
    split; [|apply IH; [done|lia]].
    intros p Hp Hp'. apply elem_of_buckets_from in Hp' as (i & Hi & Hp'); [|lia].
    pose proof (bucket_of_unique k _ _ p Hok Hp Hp'). lia.
Qed.

(** X4: a scan returns the whole table.  Starting with
    [homa_socktab_start_scan] and going on with [homa_socktab_next]
    while the table is left alone, the sockets returned are those of
    buckets 0 to [HOMA_SOCKTAB_BUCKETS - 1], bucket by bucket and in the
    order of each list, and then the null pointer; the number of calls
    is the number of sockets plus one.  So every socket of such a bucket
    is returned, and in a table in good shape no socket is returned
    twice. *)
Theorem homa_socktab_scan_returns_all fuel k :
  (length (all_buckets k) ≤ fuel)%nat →
  scan_returns fuel k (homa_socktab_start_scan k).1
    (homa_socktab_start_scan k).2 = Some (all_buckets k)
  ∧ (∀ b p, Z.of_nat b < HOMA_SOCKTAB_BUCKETS →
       p ∈ bucket_of (socktab k) b → p ∈ all_buckets k)
  ∧ (socktab_ok k → NoDup (all_buckets k)).
Proof.
  intros Hlen. split; [|split].
  - unfold homa_socktab_start_scan, homa_socktab_next, all_buckets in *.
    simpl.
    replace (HOMA_SOCKTAB_BUCKETS - (-1 + 1)) with HOMA_SOCKTAB_BUCKETS by lia.
    replace (-1 + 1) with 0 by lia.
    pose proof (scan_buckets_spec (Z.to_nat HOMA_SOCKTAB_BUCKETS)
                  (socktab k) 0 ltac:(lia)) as Hspec.
    destruct (scan_buckets _ (socktab k) 0) as [[b' [q|]] rest]; simpl.
    + destruct Hspec as (Hrange & Hq & Hrest). rewrite Hrest in *.
      replace (Z.to_nat HOMA_SOCKTAB_BUCKETS - S (Z.to_nat (b' - 0)))%nat
        with (Z.to_nat (HOMA_SOCKTAB_BUCKETS - (b' + 1))) in * by lia.
      rewrite (scan_returns_rest fuel k (mk_scan (Some q) rest b') q);
        unfold scan_rest; simpl in *; try done; lia.
    + destruct Hspec as [_ ->]. by destruct fuel.
  - intros b p Hb Hp. apply elem_of_buckets_from; [lia|].
    exists b. split; [lia|done].
  - intros Hok. by apply buckets_from_NoDup.
Qed.

End Scan.

Section ScanInputs.
Local Existing Instance linux_consts.
Local Existing Instance sample_hdrs.

Lemma homa_socktab_scan_returns_all_witness :
  scan_returns 3 k_two (homa_socktab_start_scan k_two).1
    (homa_socktab_start_scan k_two).2 = Some (all_buckets k_two)
  ∧ (∀ b p, Z.of_nat b < HOMA_SOCKTAB_BUCKETS →
       p ∈ bucket_of (socktab k_two) b → p ∈ all_buckets k_two)
  ∧ (socktab_ok k_two → NoDup (all_buckets k_two)).
Proof.
  refine (homa_socktab_scan_returns_all 3 k_two _).
  vm_compute. lia.
Defined.

(** The two sockets of [k_two] sit in buckets 0 and 1. *)
Example all_buckets_k_two : all_buckets k_two = [hsk1; hsk2].
Proof. vm_compute. reflexivity. Qed.

End ScanInputs.

(** ** Destruction of the table *)

Section Destroy.
Context `{homa_consts} `{homa_hdrs}.

Lemma sock_kept_refl s : sock_kept s s.
Proof. done. Qed.

Lemma sock_kept_trans s1 s2 s3 :
  sock_kept s1 s2 → sock_kept s2 s3 → sock_kept s1 s3.
Proof.
  intros (? & ? & ? & ? & ?) (? & ? & ? & ? & ?).
  repeat split; try congruence; auto.
Qed.

Lemma homa_sock_shutdown_others k hsk k1 q u :
  homa_sock_shutdown k hsk = Some k1 →
  q ≠ hsk → socks k !! q = Some u →
  ∃ a d, socks k1 !! q = Some (sock_set_rpc_lists a d u).
Proof.
  intros Hsh Hne Hq. revert Hsh. unfold homa_sock_shutdown.
  destruct (socks k !! hsk) as [s|] eqn:Hs; [|done]. simpl.
  destruct (shutdown s || negb (hsk_homa s)).
  { intros [= <-]. exists (active_rpcs u), (dead_rpcs u).
    by rewrite sock_set_rpc_lists_id. }
  set (k0 := homa_sock_unlink (store_sock hsk (sock_set_shutdown true s) k) hsk).
  destruct (socks (foldl homa_rpc_end k0 (active_rpcs s)) !! hsk)
    as [s1|] eqn:Hs1; [|done]. simpl. intros [= <-].
  destruct (shutdown_interests_spec (interests s1) hsk _ _ Hs1 eq_refl)
    as (Hsocks & _). rewrite Hsocks, lookup_insert_ne by done.
  apply foldl_rpc_end_socks. simpl. by rewrite lookup_insert_ne.
Qed.

(** The body of the loop on a socket that it does not pass over. *)
Lemma destroy_body_spec k p s :
  socks k !! p = Some s → hsk_homa s = true → shutdown s = false →
  ∃ k1 s1,
    (k0 ← homa_sock_shutdown k p; homa_sock_destroy k0 p) = Some k1
    ∧ socktab k1 = hlist_del p (socktab k)
    ∧ socks k1 !! p = Some s1 ∧ sock_kept s s1
    ∧ shutdown s1 = true ∧ buffer_pool s1 = None
    ∧ (∀ q u, q ≠ p → socks k !! q = Some u →
         ∃ a d, socks k1 !! q = Some (sock_set_rpc_lists a d u)).
Proof.
  intros Hs Hh Hsh.
  destruct (homa_sock_shutdown_live k p s Hs Hh Hsh)
    as (k0 & a & d & Hk0 & Hs0 & Htab & _).
  destruct (homa_sock_destroy_live k0 p _ Hs0 Hh)
    as (k1 & Hk1 & Hsocks & Htab1 & _).
  exists k1. eexists. rewrite Hk0. simpl. split; [done|].
  split; [congruence|]. rewrite Hsocks, lookup_insert_eq.
  split; [done|]. split; [done|]. split; [done|]. split; [done|].
  intros q u Hne Hq. rewrite lookup_insert_ne by done.
  by eapply homa_sock_shutdown_others.
Qed.

Lemma buckets_from_ext t t' n : ∀ b,
  0 ≤ b →
  (∀ i, (Z.to_nat b ≤ i)%nat → bucket_of t i = bucket_of t' i) →
  buckets_from t b n = buckets_from t' b n.
Proof.
  induction n as [|n IH]; intros b Hb Hext; [done|].
  rewrite !buckets_from_S by done. rewrite Hext by lia.
  rewrite (IH (b + 1)); [done|lia|]. intros i Hi. apply Hext. lia.
Qed.

Lemma filter_ne_id (p : sock_ptr) (l : list sock_ptr) :
  p ∉ l → filter (fun q => q ≠ p) l = l.
Proof.
  induction l as [|q l IH]; [done|]. intros [Hne Hl]%not_elem_of_cons.
  rewrite filter_cons_True by done. by rewrite IH.
Qed.

Lemma filter_ne_middle (p : sock_ptr) (pre post : list sock_ptr) :
  NoDup (pre ++ p :: post) →
  filter (fun q => q ≠ p) (pre ++ p :: post) = pre ++ post.
Proof.
  intros Hnd. apply NoDup_app in Hnd as (_ & Hdisj & Hpost).
  apply NoDup_cons in Hpost as [Hp _].
  rewrite filter_app, filter_cons_False by (intros Hne; by apply Hne).
  rewrite !filter_ne_id; [done|done|].
  intros Hin. apply (Hdisj p Hin). by left.
Qed.

Lemma sock_kept_rpc_lists a d u : sock_kept u (sock_set_rpc_lists a d u).
Proof. done. Qed.

(** One turn of the loop. *)
Lemma destroy_step hnet k p pre links c :
  socktab_ok k → all_initialised k →
  bucket_of (socktab k) c = pre ++ p :: links →
  ∃ s k1,
    socks k !! p = Some s
    ∧ (if bool_decide (hnet ≠ None) && bool_decide (hnet ≠ hsk_hnet s)
       then Some k
       else k0 ← homa_sock_shutdown k p; homa_sock_destroy k0 p) = Some k1
    ∧ destroy_post hnet k k1 [p]
    ∧ all_initialised k1
    ∧ (∃ pre', bucket_of (socktab k1) c = pre' ++ links)
    ∧ (∀ b, b ≠ c → bucket_of (socktab k1) b = bucket_of (socktab k) b).
Proof.
  intros Hok Hinit Hbucket.
  assert (Hp : p ∈ bucket_of (socktab k) c).
  { rewrite Hbucket. apply elem_of_app. right. by left. }
  pose proof Hok as (Hnd & Hin & _).
  destruct (Hin c p Hp) as (s & hn & Hs & Hn & Hsh & _).
  assert (Hh : hsk_homa s = true) by (apply (Hinit p); [by exists c|done]).
  exists s.
  destruct (bool_decide (hnet ≠ None) && bool_decide (hnet ≠ hsk_hnet s))
    eqn:Hskip.
  - apply andb_true_iff in Hskip as [Hsome Hdiff].
    apply bool_decide_eq_true in Hsome, Hdiff.
    assert (Hnot : ¬ destroy_selects hnet (socks k) p).
    { intros (s' & Hs' & Hsel). assert (s' = s) as -> by congruence.
      by destruct Hsel. }
    exists k. split; [done|]. split; [done|]. split; [|split; [done|split]].
    + split; [done|]. split.
      * intros b q. split; [|by intros [? _]].
        intros Hq. split; [done|]. intros [->%list_elem_of_singleton Hsel].
        done.
      * intros q u Hq. exists u. split; [done|]. split; [done|].
        intros ->%list_elem_of_singleton Hsel. done.
    + exists (pre ++ [p]). by rewrite <- app_assoc.
    + done.
  - assert (Hsel : destroy_selects hnet (socks k) p).
    { exists s. split; [done|].
      apply andb_false_iff in Hskip as [Hf|Hf];
        apply bool_decide_eq_false in Hf.
      - left. by destruct hnet; [exfalso; apply Hf|].
      - right. by destruct (decide (hnet = hsk_hnet s)). }
    destruct (destroy_body_spec k p s Hs Hh Hsh)
      as (k1 & s1 & Hbody & Htab & Hs1 & Hkept & Hsh1 & Hpool & Hothers).
    exists k1. split; [done|]. split; [done|].
    assert (Hok1 : socktab_ok k1).
    { apply (sock_call_socktab_ok k); [done|].
      by apply (call_close k p 0 k1). }
    assert (Hmem : ∀ b q, q ∈ bucket_of (socktab k1) b ↔
              q ≠ p ∧ q ∈ bucket_of (socktab k) b).
    { intros b q. rewrite Htab, bucket_of_del.
      apply (list_elem_of_filter (fun q => q ≠ p)). }
    split; [|split; [|split]].
    + split; [done|]. split.
      * intros b q. rewrite Hmem. split.
        -- intros [Hne Hq]. split; [done|].
           by intros [->%list_elem_of_singleton _].
        -- intros [Hq Hnot]. split; [|done]. intros ->. apply Hnot.
           split; [by apply list_elem_of_singleton|done].
      * intros q u Hq. destruct (decide (q = p)) as [->|Hne].
        -- assert (u = s) as -> by congruence. exists s1. done.
        -- destruct (Hothers q u Hne Hq) as (a & d & Hq1).
           eexists. split; [done|]. split; [apply sock_kept_rpc_lists|].
           by intros ->%list_elem_of_singleton.
    + intros q u1 [b Hq] Hu1. apply Hmem in Hq as [Hne Hq].
      destruct (Hin b q Hq) as (u & ? & Hu & _).
      destruct (Hothers q u Hne Hu) as (a & d & Hq1).
      assert (u1 = sock_set_rpc_lists a d u) as -> by congruence.
      simpl. apply (Hinit q); [by exists b|done].
    + exists pre. rewrite Htab, bucket_of_del, Hbucket.
      apply filter_ne_middle. rewrite <- Hbucket. apply Hnd.
    + intros b Hb. rewrite Htab, bucket_of_del. apply filter_ne_id.
      intros Hpb. apply Hb. by apply (bucket_of_unique k b c p).
Qed.

Lemma destroy_selects_kept hnet k k1 q u u1 :
  socks k !! q = Some u → socks k1 !! q = Some u1 → sock_kept u u1 →
  destroy_selects hnet (socks k) q ↔ destroy_selects hnet (socks k1) q.
Proof.
  intros Hu Hu1 (_ & Hn & _). split.
  - intros (u' & Hu' & Hsel). assert (u' = u) as -> by congruence.
    exists u1. split; [done|]. by rewrite Hn.
  - intros (u' & Hu' & Hsel). assert (u' = u1) as -> by congruence.
    exists u. split; [done|]. by rewrite <- Hn.
Qed.

(** The turn on [p] followed by the run over [R]. *)
Lemma destroy_post_cons hnet k k1 k' p R :
  socktab_ok k →
  destroy_post hnet k k1 [p] → destroy_post hnet k1 k' R →
  destroy_post hnet k k' (p :: R).
Proof.
  intros Hok (_ & Hb1 & Hs1) (Hok' & Hb2 & Hs2).
  assert (Hsel : ∀ b q, q ∈ bucket_of (socktab k) b →
            destroy_selects hnet (socks k) q
            ↔ destroy_selects hnet (socks k1) q).
  { intros b q Hq. destruct Hok as (_ & Hin & _).
    destruct (Hin b q Hq) as (u & ? & Hu & _).
    destruct (Hs1 q u Hu) as (u1 & Hu1 & Hkept & _).
    by eapply destroy_selects_kept. }
  split; [done|]. split.
  - intros b q. rewrite Hb2, Hb1. split.
    + intros [[Hq Hnp] Hnr]. split; [done|].
      intros [[->|HR]%elem_of_cons Hs].
      * apply Hnp. split; [by apply list_elem_of_singleton|done].
      * apply Hnr. split; [done|]. by apply (Hsel b q).
    + intros [Hq Hn]. split; [split; [done|]|].
      * intros [->%list_elem_of_singleton Hs]. apply Hn.
        split; [by left|done].
      * intros [HR Hs]. apply Hn. split; [by right|]. by apply (Hsel b q).
  - intros q u Hu. destruct (Hs1 q u Hu) as (u1 & Hu1 & Hk1 & Hdone1).
    destruct (Hs2 q u1 Hu1) as (u' & Hu' & Hk2 & Hdone2).
    exists u'. split; [done|]. split; [by eapply sock_kept_trans|].
    intros HR Hs Hl. destruct (decide (q = p)) as [->|Hne].
    + destruct Hdone1 as [Hsh Hpool];
        [by apply list_elem_of_singleton|done|done|].
      destruct Hk2 as (_ & _ & _ & Hmsh & Hmpool). split; auto.
    + apply elem_of_cons in HR as [?|HR]; [done|].
      destruct Hl as [b Hq]. apply Hdone2; [done| |].
      * by apply (destroy_selects_kept hnet k k1 q u u1).
      * exists b. apply Hb1. split; [done|].
        by intros [->%list_elem_of_singleton _].
Qed.

Lemma destroy_post_nil hnet k : socktab_ok k → destroy_post hnet k k [].
Proof.
  intros Hok. split; [done|]. split.
  - intros b q. split; [|by intros [? _]]. intros Hq. split; [done|].
    intros [Hin _]. by apply not_elem_of_nil in Hin.
  - intros q u Hu. exists u. split; [done|]. split; [done|].
    intros Hin. by apply not_elem_of_nil in Hin.
Qed.

(** The loop, from a socket [p] that the scan has just returned: given
    a turn for each socket that the scan has still to return, it ends,
    and has dealt with all of them. *)
Lemma destroy_loop_spec hnet fuel : ∀ k scan p pre,
  socktab_ok k → all_initialised k →
  scan_hsk scan = Some p → 0 ≤ current_bucket scan →
  bucket_of (socktab k) (Z.to_nat (current_bucket scan))
    = pre ++ p :: scan_links scan →
  (length (scan_rest k scan p) ≤ fuel)%nat →
  ∃ k', socktab_destroy_loop fuel hnet k scan (Some p) = Some k'
        ∧ destroy_post hnet k k' (scan_rest k scan p).
Proof.
  induction fuel as [|fuel IH];
    intros k [hsk links c] p pre Hok Hinit Hp Hc Hbucket Hlen;
    unfold scan_rest in *; simpl in *; [lia|]. subst hsk.
  destruct (destroy_step hnet k p pre links (Z.to_nat c) Hok Hinit Hbucket)
    as (s & k1 & Hs & Hbody & Hpost1 & Hinit1 & [pre' Hpre'] & Hothers).
  rewrite Hs. simpl. rewrite Hbody. simpl.
  pose proof Hpost1 as (Hok1 & _).
  set (n := Z.to_nat (HOMA_SOCKTAB_BUCKETS - (c + 1))) in *.
  assert (Hrest : buckets_from (socktab k) (c + 1) n
                  = buckets_from (socktab k1) (c + 1) n).
  { apply buckets_from_ext; [lia|]. intros i Hi. symmetry.
    apply Hothers. lia. }
  rewrite Hrest in *. unfold homa_socktab_next. simpl.
  destruct links as [|q links]; simpl in *.
  - pose proof (scan_buckets_spec n (socktab k1) (c + 1) ltac:(lia)) as Hspec.
    fold n. destruct (scan_buckets n (socktab k1) (c + 1))
      as [[b' [q|]] rest].
    + destruct Hspec as (Hrange & Hq & Hfrom). rewrite Hfrom in *.
      replace (n - S (Z.to_nat (b' - (c + 1))))%nat
        with (Z.to_nat (HOMA_SOCKTAB_BUCKETS - (b' + 1))) in * by lia.
      destruct (IH k1 (mk_scan (Some q) rest b') q [])
        as (k' & Hloop & Hpost); simpl in *; try done; try lia.
      exists k'. split; [done|]. by apply (destroy_post_cons hnet k k1).
    + destruct Hspec as [_ ->]. exists k1. split; [by destruct fuel|done].
  - unfold n in *.
    destruct (IH k1 (mk_scan (Some q) links c) q pre')
      as (k' & Hloop & Hpost); simpl in *; try done; try lia.
    exists k'. split; [done|]. by apply (destroy_post_cons hnet k k1).
Qed.

(** X5: [homa_socktab_destroy] removes the sockets of the namespace and
    no others.  In a table in good shape whose sockets are initialised
    and sit in buckets below [HOMA_SOCKTAB_BUCKETS], the call ends; a
    socket is in the table afterwards if and only if it was in the table
    and was passed over (a namespace was given and the socket belongs to
    another one); every socket that was not passed over is shut down and
    has given up its buffer pool; no port of the namespace given (of any
    namespace, with a null pointer) leads to a socket any more; and the
    ports of the other namespaces lead to the sockets that they led to
    before. *)
Theorem homa_socktab_destroy_outcome fuel k hnet :
  socktab_ok k → all_initialised k →
  (∀ b p, p ∈ bucket_of (socktab k) b → Z.of_nat b < HOMA_SOCKTAB_BUCKETS) →
  (length (all_buckets k) ≤ fuel)%nat →
  ∃ k', homa_socktab_destroy fuel k hnet = Some k'
    ∧ socktab_ok k'
    ∧ (∀ q, table_linked (socktab k') q ↔
         table_linked (socktab k) q ∧ ¬ destroy_selects hnet (socks k) q)
    ∧ (∀ q, table_linked (socktab k) q → destroy_selects hnet (socks k) q →
         ∃ u', socks k' !! q = Some u' ∧ shutdown u' = true
               ∧ buffer_pool u' = None)
    ∧ (∀ hn port, hnet = None ∨ hnet = Some hn →
         homa_sock_find k' hn port = None)
    ∧ (∀ hn port, hnet ≠ None → hnet ≠ Some hn →
         homa_sock_find k' hn port = homa_sock_find k hn port).
Proof.
  intros Hok Hinit Hwithin Hlen.
  assert (Hrun : ∃ k', homa_socktab_destroy fuel k hnet = Some k'
            ∧ destroy_post hnet k k' (all_buckets k)).
  { unfold homa_socktab_destroy, homa_socktab_start_scan, homa_socktab_next,
      all_buckets in *. simpl.
    replace (HOMA_SOCKTAB_BUCKETS - (-1 + 1)) with HOMA_SOCKTAB_BUCKETS by lia.
    replace (-1 + 1) with 0 by lia.
    pose proof (scan_buckets_spec (Z.to_nat HOMA_SOCKTAB_BUCKETS)
                  (socktab k) 0 ltac:(lia)) as Hspec.
    destruct (scan_buckets _ (socktab k) 0) as [[b' [q|]] rest]; simpl.
    - destruct Hspec as (Hrange & Hq & Hrest). rewrite Hrest in *.
      replace (Z.to_nat HOMA_SOCKTAB_BUCKETS - S (Z.to_nat (b' - 0)))%nat
        with (Z.to_nat (HOMA_SOCKTAB_BUCKETS - (b' + 1))) in * by lia.
      destruct (destroy_loop_spec hnet fuel k (mk_scan (Some q) rest b') q [])
        as (k' & Hloop & Hpost); unfold scan_rest in *; simpl in *;
        try done; try lia.
      exists k'. split; assumption.
    - destruct Hspec as [_ ->]. exists k. split; [by destruct fuel|].
      by apply destroy_post_nil. }
  destruct Hrun as (k' & Hrun & Hok' & Hmem & Hsocks).
  assert (Hall : ∀ b q, q ∈ bucket_of (socktab k) b → q ∈ all_buckets k).
  { intros b q Hq. apply elem_of_buckets_from; [lia|]. exists b.
    split; [|done]. pose proof (Hwithin b q Hq). lia. }
  assert (Hlinked : ∀ q, table_linked (socktab k') q ↔
            table_linked (socktab k) q ∧ ¬ destroy_selects hnet (socks k) q).
  { intros q. split.
    - intros [b Hq]. apply Hmem in Hq as [Hq Hn]. split; [by exists b|].
      intros Hsel. apply Hn. split; [by eapply Hall|done].
    - intros [[b Hq] Hn]. exists b. apply Hmem. split; [done|].
      by intros [_ ?]. }
  assert (Hrec : ∀ q u', table_linked (socktab k') q →
            socks k' !! q = Some u' →
            ∃ u, socks k !! q = Some u ∧ sock_kept u u').
  { intros q u' Hq Hu'. apply Hlinked in Hq as [[b Hq] _].
    destruct Hok as (_ & Hin & _).
    destruct (Hin b q Hq) as (u & ? & Hu & _).
    destruct (Hsocks q u Hu) as (u1 & Hu1 & Hkept & _).
    exists u. split; [done|]. congruence. }
  exists k'. split; [done|]. split; [done|]. split; [done|].
  split; [|split].
  - intros q [b Hq] Hsel. destruct Hok as (_ & Hin & _).
    destruct (Hin b q Hq) as (u & ? & Hu & _).
    destruct (Hsocks q u Hu) as (u' & Hu' & _ & Hdone).
    exists u'. split; [done|]. apply Hdone; [by eapply Hall|done|by exists b].
  - intros hn port Hhn.
    destruct (homa_sock_find k' hn port) as [q|] eqn:Hf; [|done]. exfalso.
    pose proof Hf as Hf'. apply bucket_find_Some in Hf' as [Hq _].
    apply homa_sock_find_owner in Hf as (u' & Hu' & _ & Hn').
    assert (Hl : table_linked (socktab k') q) by (by eexists).
    destruct (Hrec q u' Hl Hu') as (u & Hu & _ & Hn & _).
    apply Hlinked in Hl as [_ Hnsel]. apply Hnsel. exists u.
    split; [done|]. destruct Hhn as [? | ->]; [by left|right; congruence].
  - intros hn port Hsome Hdiff.
    destruct (homa_sock_find k hn port) as [q|] eqn:Hf.
    + pose proof Hf as Hf'. apply bucket_find_Some in Hf' as [Hq _].
      apply homa_sock_find_owner in Hf as (u & Hu & Hport & Hn).
      destruct (Hsocks q u Hu) as (u' & Hu' & (Hp' & Hn' & _) & _).
      rewrite <- Hport, <- Hp'. apply homa_sock_find_linked; [done| |done|].
      * apply Hlinked. split; [by eexists|].
        intros (u0 & Hu0 & Hsel). assert (u0 = u) as -> by congruence.
        destruct Hsel as [?|Hsel]; [done|]. apply Hdiff. congruence.
      * congruence.
    + destruct (homa_sock_find k' hn port) as [q|] eqn:Hf'; [|done]. exfalso.
      pose proof Hf' as Hq. apply bucket_find_Some in Hq as [Hq _].
      apply homa_sock_find_owner in Hf' as (u' & Hu' & Hport' & Hn').
      assert (Hl : table_linked (socktab k') q) by (by eexists).
      destruct (Hrec q u' Hl Hu') as (u & Hu & Hp & Hn & _).
      apply Hlinked in Hl as [Hl _].
      pose proof (homa_sock_find_linked k hn q u Hok Hl Hu
                    ltac:(congruence)) as Hfound.
      congruence.
Qed.

End Destroy.

Section DestroyChecks.
Context `{homa_consts} `{homa_hdrs}.

Lemma socktab_ok_after_socket k hsk s :
  socktab_ok k → socks k !! hsk = Some s → unlinked (socktab k) hsk →
  socktab_ok (after_socket k hsk).
Proof.
  intros Hok Hs Hun. unfold after_socket, state_of.
  destruct (homa_socket sweep_fuel (inr pool1) k hsk) as [[r k']|] eqn:Hcall;
    [|done].
  apply (sock_call_socktab_ok k); [done|].
  apply (call_socket k sweep_fuel (inr pool1) hsk s r k'); [done| |done].
  by apply unlinked_bucket_of.
Qed.

Lemma all_initialised_check k :
  map_Forall (fun _ l =>
    Forall (fun p => hsk_homa <$> socks k !! p = Some true) l) (socktab k) →
  all_initialised k.
Proof.
  intros Hall p s [b Hp] Hs. unfold bucket_of in Hp.
  destruct (socktab k !! b) as [l|] eqn:Hb; simpl in Hp;
    [|by apply not_elem_of_nil in Hp].
  pose proof (Hall b l Hb) as Hl. rewrite Forall_forall in Hl.
  specialize (Hl p Hp). rewrite Hs in Hl. simpl in Hl. congruence.
Qed.

Lemma buckets_within_check k :
  map_Forall (fun b l => l = [] ∨ Z.of_nat b < HOMA_SOCKTAB_BUCKETS)
    (socktab k) →
  ∀ b p, p ∈ bucket_of (socktab k) b → Z.of_nat b < HOMA_SOCKTAB_BUCKETS.
Proof.
  intros Hall b p Hp. unfold bucket_of in Hp.
  destruct (socktab k !! b) as [l|] eqn:Hb; simpl in Hp;
    [|by apply not_elem_of_nil in Hp].
  destruct (Hall b l Hb) as [->|?]; [by apply not_elem_of_nil in Hp|done].
Qed.

End DestroyChecks.

Section DestroyInputs.
Local Existing Instance linux_consts.
Local Existing Instance sample_hdrs.

Lemma socktab_ok_k_nets : socktab_ok k_nets.
Proof.
  unfold k_nets.
  apply (socktab_ok_after_socket _ hsk3 (zeroed_sock net1 AF_INET 100));
    [|vm_compute; reflexivity
     |apply (bool_decide_eq_true_1 _ (Decision0 := unlinked_dec _ _));
      vm_compute; reflexivity].
  apply (socktab_ok_after_socket _ hsk2 (zeroed_sock net0 AF_INET6 100));
    [|vm_compute; reflexivity
     |apply (bool_decide_eq_true_1 _ (Decision0 := unlinked_dec _ _));
      vm_compute; reflexivity].
  apply (socktab_ok_after_socket _ hsk1 (zeroed_sock net0 AF_INET6 100));
    [|vm_compute; reflexivity
     |apply (bool_decide_eq_true_1 _ (Decision0 := unlinked_dec _ _));
      vm_compute; reflexivity].
  apply table_ok_empty.
Qed.

Lemma homa_socktab_destroy_outcome_witness :
  ∃ k', homa_socktab_destroy 4 k_nets (Some net0) = Some k'
    ∧ socktab_ok k'
    ∧ (∀ q, table_linked (socktab k') q ↔
         table_linked (socktab k_nets) q
         ∧ ¬ destroy_selects (Some net0) (socks k_nets) q)
    ∧ (∀ q, table_linked (socktab k_nets) q →
         destroy_selects (Some net0) (socks k_nets) q →
         ∃ u', socks k' !! q = Some u' ∧ shutdown u' = true
               ∧ buffer_pool u' = None)
    ∧ (∀ hn port, Some net0 = None ∨ Some net0 = Some hn →
         homa_sock_find k' hn port = None)
    ∧ (∀ hn port, Some net0 ≠ None → Some net0 ≠ Some hn →
         homa_sock_find k' hn port = homa_sock_find k_nets hn port).
Proof.
  refine (homa_socktab_destroy_outcome 4 k_nets (Some net0) _ _ _ _).
  - apply socktab_ok_k_nets.
  - apply all_initialised_check. refine (bool_decide_eq_true_1 _ _).
    vm_compute. reflexivity.
  - apply buckets_within_check. refine (bool_decide_eq_true_1 _ _).
    vm_compute. reflexivity.
  - vm_compute. lia.
Defined.

(** The same call, evaluated: sockets 1 and 2 have left the table,
    socket 3 of the other namespace is where it was. *)
Example homa_socktab_destroy_k_nets :
  ∃ k', homa_socktab_destroy 4 k_nets (Some net0) = Some k'
        ∧ all_buckets k_nets = [hsk1; hsk3; hsk2]
        ∧ all_buckets k' = [hsk3]
        ∧ homa_sock_find k' net1 32768 = Some hsk3
        ∧ klog k' = [EvPoolFree pool1; EvPoolFree pool1].
Proof. eexists. vm_compute. repeat split; reflexivity. Qed.

End DestroyInputs.

(** * Socket options, ioctl and poll *)

Section Options.
Context `{homa_consts} `{homa_hdrs}.

(** A look-up does not depend on fields of the sockets other than port
    and namespace. *)
Lemma bucket_find_store_key ss hsk s s' hnet port l :
  ss !! hsk = Some s →
  hsk_port s' = hsk_port s → hsk_hnet s' = hsk_hnet s →
  bucket_find (<[hsk := s']> ss) hnet port l = bucket_find ss hnet port l.
Proof.
  intros Hs Hp Hn. induction l as [|q l IH]; simpl; [done|].
  destruct (decide (q = hsk)) as [->|Hne].
  - rewrite lookup_insert_eq, Hs, Hp, Hn. by rewrite IH.
  - rewrite lookup_insert_ne by done. by rewrite IH.
Qed.

Lemma to_size_t_int len :
  - 2147483648 ≤ len ≤ 2147483647 →
  sizeof_int ≤ len ∨ len < 0 → sizeof_int ≤ to_size_t len.
Proof.
  intros Hrange [Hpos|Hneg]; unfold to_size_t, sizeof_int in *.
  - rewrite Z.mod_small; lia.
  - replace len with (len + 18446744073709551616 - 1 * 18446744073709551616)
      by lia.
    rewrite Zminus_mod, Z_mod_mult, Z.sub_0_r, Z.mod_mod by lia.
    rewrite Z.mod_small; lia.
Qed.

(** X6: [SO_HOMA_SERVER] set and read back.  A [setsockopt] of the
    option with a readable [int] of the right size returns 0 and changes
    nothing but the socket's [is_server], which becomes whether the
    [int] is nonzero; look-ups of ports are as before.  A [getsockopt]
    of the option that follows, with room for an [int] (a negative
    length counts as room, the comparison being unsigned), returns 0,
    stores 1 or 0 accordingly and sets the length to the size of an
    [int]. *)
Theorem homa_sockopt_server_round_trip e e' cur k hsk s optval len :
  SO_HOMA_RCVBUF ≠ SO_HOMA_SERVER →
  socks k !! hsk = Some s →
  opt_copy_from_ok e = true →
  opt_copy_from_ok e' = true → opt_copy_to_optlen_ok e' = true →
  opt_copy_to_optval_ok e' = true →
  - 2147483648 ≤ len ≤ 2147483647 → sizeof_int ≤ len ∨ len < 0 →
  ∃ k',
    homa_setsockopt e cur k hsk IPPROTO_HOMA SO_HOMA_SERVER optval sizeof_int
      = Some (0, k')
    ∧ k' = store_sock hsk
             (sock_set_is_server (negb (opt_int optval =? 0)) s) k
    ∧ (∀ hnet port, homa_sock_find k' hnet port = homa_sock_find k hnet port)
    ∧ homa_getsockopt e' k' hsk IPPROTO_HOMA SO_HOMA_SERVER len
      = Some (mk_getsockopt_result 0 (Some sizeof_int)
                (Some (inr (if opt_int optval =? 0 then 0 else 1)))).
Proof.
  intros Hopt Hs Hfrom Hfrom' Hto1 Hto2 Hrange Hlen.
  apply to_size_t_int in Hlen; [|done].
  unfold homa_setsockopt, homa_getsockopt.
  rewrite !Z.eqb_refl. simpl.
  rewrite (eqb_false SO_HOMA_SERVER SO_HOMA_RCVBUF) by done.
  rewrite Hfrom, Hfrom', Hs. simpl.
  eexists. split; [reflexivity|]. split.
  { by destruct (opt_int optval =? 0). }
  split.
  { intros hnet port. unfold homa_sock_find.
    destruct (opt_int optval =? 0); simpl;
      by apply (bucket_find_store_key _ _ s). }
  rewrite (proj2 (Z.ltb_ge _ _) Hlen).
  destruct (opt_int optval =? 0); simpl; rewrite lookup_insert_eq; simpl;
    by rewrite Hto1, Hto2.
Qed.

(** X7: [SO_HOMA_SERVER] after socket creation and after bind.  A
    [getsockopt] of the option on a socket that [homa_sock_init] has just
    set up reports 0; after a [homa_sock_bind] that moves the socket to
    a free port below [HOMA_MIN_DEFAULT_PORT] it reports 1. *)
Theorem homa_getsockopt_server_tracks_bind e fuel pool k hsk s k1 hnet port :
  SO_HOMA_RCVBUF ≠ SO_HOMA_SERVER →
  opt_copy_from_ok e = true → opt_copy_to_optlen_ok e = true →
  opt_copy_to_optval_ok e = true →
  socks k !! hsk = Some s →
  homa_sock_init fuel (inr pool) k hsk = Some (0, k1) →
  hnet = sk_net s →
  0 < port < 65536 → port < HOMA_MIN_DEFAULT_PORT →
  homa_sock_find k1 hnet port = None →
  homa_getsockopt e k1 hsk IPPROTO_HOMA SO_HOMA_SERVER sizeof_int
    = Some (mk_getsockopt_result 0 (Some sizeof_int) (Some (inr 0)))
  ∧ ∃ k2, homa_sock_bind k1 hnet hsk port = Some (0, k2)
      ∧ homa_getsockopt e k2 hsk IPPROTO_HOMA SO_HOMA_SERVER sizeof_int
        = Some (mk_getsockopt_result 0 (Some sizeof_int) (Some (inr 1))).
Proof.
  intros Hopt Hfrom Hto1 Hto2 Hs Hinit -> Hport Hmin Hfree.
  assert (Hs1 : ∃ s1, socks k1 !! hsk = Some s1 ∧ is_server s1 = false
                      ∧ shutdown s1 = false ∧ hsk_hnet s1 = Some (sk_net s)).
  { revert Hinit. unfold homa_sock_init. rewrite Hs. simpl.
    destruct (nets k !! sk_net s); [|done]. simpl.
    destruct (default_port_loop _ _ _ _ _) as [[[] prev]|]; [| |done].
    - intros [= <-]. simpl. rewrite lookup_insert_eq. by eexists.
    - by intros [=]. }
  destruct Hs1 as (s1 & Hs1 & Hsrv & Hsh & Hn).
  assert (Hget : ∀ k' s', socks k' !! hsk = Some s' →
            homa_getsockopt e k' hsk IPPROTO_HOMA SO_HOMA_SERVER sizeof_int
            = Some (mk_getsockopt_result 0 (Some sizeof_int)
                      (Some (inr (if is_server s' then 1 else 0))))).
  { intros k' s' Hs'. unfold homa_getsockopt. rewrite Hfrom, !Z.eqb_refl.
    simpl. rewrite (eqb_false SO_HOMA_SERVER SO_HOMA_RCVBUF) by done.
    change (to_size_t sizeof_int <? sizeof_int) with false. simpl.
    rewrite Hs'. simpl. by rewrite Hto1, Hto2. }
  split; [by rewrite (Hget k1 s1 Hs1), Hsrv|].
  destruct (homa_sock_bind_free k1 (sk_net s) hsk s1 port)
    as (k2 & Hb & Hsocks & _); try done.
  exists k2. split; [done|].
  rewrite (Hget k2 (sock_bound port s1)); [done|].
  rewrite Hsocks. apply lookup_insert_eq.
Qed.

End Options.

Section IoctlPoll.
Context `{homa_consts} `{homa_hdrs}.

Lemma to_u32_is_cmd cmd c :
  - 2147483648 ≤ cmd ≤ 2147483647 → 0 ≤ c < 4294967296 →
  to_u32 cmd = c ↔ int_is_cmd cmd c.
Proof.
  intros Hcmd Hc. unfold to_u32, int_is_cmd.
  destruct (Z_lt_le_dec cmd 0).
  - replace (cmd mod 4294967296) with (cmd + 4294967296); [lia|].
    apply (Z.mod_unique _ _ (-1)); lia.
  - rewrite Z.mod_small by lia. lia.
Qed.

(** X8: the outcomes of [homa_ioctl], whatever the functions that abort
    RPCs do.  The command is an [int] and the two commands are unsigned
    constants: the negative [int] with the bits of [HOMAIOCABORT] is
    that command.  The call returns 0, [EINVAL] or [EFAULT], and a call
    that fails changes nothing.  A command other than [HOMAIOCABORT]
    changes nothing, and returns 0 for [HOMAIOCFREEZE] and [EINVAL]
    otherwise.  An abort request that cannot be read gives [EFAULT]; one
    with a nonzero padding word gives [EINVAL]; one with id 0 returns 0
    after [homa_abort_sock_rpcs]; one that names an RPC gives [EINVAL]
    when the socket has no client RPC with that id, and otherwise
    returns 0 after [homa_rpc_end], with error 0, or [homa_rpc_abort]
    on that RPC; after [homa_rpc_end] the RPC is [DEAD]. *)
Theorem homa_ioctl_outcomes e k hsk s cmd karg :
  socks k !! hsk = Some s →
  - 2147483648 ≤ cmd ≤ 2147483647 →
  0 ≤ HOMAIOCABORT < 4294967296 → 0 ≤ HOMAIOCFREEZE < 4294967296 →
  ∃ r k',
    homa_ioctl e k hsk cmd karg = Some (r, k')
    ∧ (r = 0 ∨ r = - EINVAL ∨ r = - EFAULT)
    ∧ (r ≠ 0 → k' = k)
    ∧ (¬ int_is_cmd cmd HOMAIOCABORT →
       k' = k
       ∧ (int_is_cmd cmd HOMAIOCFREEZE → r = 0)
       ∧ (¬ int_is_cmd cmd HOMAIOCFREEZE → r = - EINVAL))
    ∧ (int_is_cmd cmd HOMAIOCABORT →
       (ioc_copy_from_ok e = false → r = - EFAULT)
       ∧ (ioc_copy_from_ok e = true →
          ab_pad1 karg ≠ 0 ∨ ab_pad2_0 karg ≠ 0 ∨ ab_pad2_1 karg ≠ 0 →
          r = - EINVAL)
       ∧ (ioc_copy_from_ok e = true →
          ab_pad1 karg = 0 → ab_pad2_0 karg = 0 → ab_pad2_1 karg = 0 →
          (ab_id karg = 0 →
           r = 0
           ∧ k' = homa_abort_sock_rpcs e k hsk (int32 (- ab_error karg)))
          ∧ (ab_id karg ≠ 0 →
             match homa_rpc_find_client k hsk (ab_id karg) with
             | None => r = - EINVAL
             | Some p =>
                 r = 0
                 ∧ (ab_error karg = 0 →
                    k' = homa_rpc_end k p
                    ∧ ∃ rp, rpcs k' !! p = Some rp
                            ∧ rpc_state_of rp = RPC_DEAD
                            ∧ homa_is_client (rpc_id rp) = true)
                 ∧ (ab_error karg ≠ 0 →
                    k' = homa_rpc_abort e k p (int32 (- ab_error karg)))
             end))).
Proof.
  intros Hs Hint Habort Hfreeze. unfold homa_ioctl.
  pose proof (to_u32_is_cmd cmd HOMAIOCABORT Hint Habort) as Ha.
  pose proof (to_u32_is_cmd cmd HOMAIOCFREEZE Hint Hfreeze) as Hf.
  destruct (Z.eqb_spec (to_u32 cmd) HOMAIOCABORT) as [Hcmd|Hcmd].
  2: { destruct (Z.eqb_spec (to_u32 cmd) HOMAIOCFREEZE) as [Hfr|Hfr];
         eexists _, _; (split; [reflexivity|]).
       - split; [by left|]. split; [done|]. split; [|tauto].
         intros _. split; [done|]. split; [done|]. tauto.
       - split; [by right; left|]. split; [done|]. split; [|tauto].
         intros _. split; [done|]. split; [tauto|done]. }
  apply Ha in Hcmd. unfold homa_ioc_abort.
  destruct (ioc_copy_from_ok e) eqn:Hcopy; simpl.
  2: { eexists _, _. split; [reflexivity|].
       split; [by right; right|]. split; [done|]. split; [tauto|].
       intros _. repeat split; done. }
  destruct (Z.eqb_spec (ab_pad1 karg) 0) as [Hp1|Hp1]; simpl.
  2: { eexists _, _. split; [reflexivity|].
       split; [by right; left|]. split; [done|]. split; [tauto|].
       intros _. repeat split; done. }
  destruct (Z.eqb_spec (ab_pad2_0 karg) 0) as [Hp2|Hp2]; simpl.
  2: { eexists _, _. split; [reflexivity|].
       split; [by right; left|]. split; [done|]. split; [tauto|].
       intros _. repeat split; done. }
  destruct (Z.eqb_spec (ab_pad2_1 karg) 0) as [Hp3|Hp3]; simpl.
  2: { eexists _, _. split; [reflexivity|].
       split; [by right; left|]. split; [done|]. split; [tauto|].
       intros _. repeat split; done. }
  destruct (Z.eqb_spec (ab_id karg) 0) as [Hid|Hid].
  { eexists _, _. split; [reflexivity|].
    split; [by left|]. split; [done|]. split; [tauto|].
    intros _. split; [done|]. split; [intros _ [?|[?|?]]; done|].
    intros _ _ _ _. split; [done|]. intros ?. done. }
  rewrite Hs. simpl.
  destruct (homa_rpc_find_client k hsk (ab_id karg)) as [p|] eqn:Hfind.
  2: { eexists _, _. split; [reflexivity|].
       split; [by right; left|]. split; [done|]. split; [tauto|].
       intros _. split; [done|]. split; [done|].
       intros _ _ _ _. split; [done|]. done. }
  destruct (Z.eqb_spec (ab_error karg) 0) as [Herr|Herr].
  - eexists _, _. split; [reflexivity|].
    split; [by left|]. split; [done|]. split; [tauto|].
    intros _. split; [done|]. split; [intros _ [?|[?|?]]; done|].
    intros _ _ _ _. split; [done|]. intros _.
    split; [done|]. split; [|done]. intros _. split; [done|].
    unfold homa_rpc_find_client in Hfind.
    rewrite Hs in Hfind. simpl in Hfind.
    apply rpc_list_find_Some in Hfind as (r0 & Hr0 & Htest).
    apply andb_true_iff in Htest as [Hclient _].
    destruct (homa_rpc_end_rpcs k p p r0 Hr0) as (r' & Hr' & Hdead & _).
    exists r'. split; [done|]. split; [by apply Hdead|].
    revert Hr'. unfold homa_rpc_end. rewrite Hr0.
    case_bool_decide; [intros; by simplify_eq|]. simpl.
    destruct (socks k !! rpc_hsk r0); simpl; rewrite lookup_insert_eq;
      by intros [= <-].
  - eexists _, _. split; [reflexivity|].
    split; [by left|]. split; [done|]. split; [tauto|].
    intros _. split; [done|]. split; [intros _ [?|[?|?]]; done|].
    intros _ _ _ _. split; [done|]. intros _.
    split; [done|]. split; [done|]. done.
Qed.

(** X9: the mask of [homa_poll].  [EPOLLIN] is set exactly when the
    socket has been shut down or has a ready RPC, [EPOLLRDNORM] exactly
    when it has a ready RPC, [EPOLLOUT] and [EPOLLWRNORM] exactly when
    transmit memory is available; no other bit is set.  The state
    changes only when memory is not available: [SOCK_NOSPACE] is set
    then. *)
Theorem homa_poll_mask avl ready k hsk s :
  socks k !! hsk = Some s →
  ∃ mask k',
    homa_poll avl ready k hsk = Some (mask, k')
    ∧ (Z.land mask EPOLLIN ≠ 0 ↔ shutdown s = true ∨ ready = true)
    ∧ (Z.land mask EPOLLRDNORM ≠ 0 ↔ ready = true)
    ∧ (Z.land mask EPOLLOUT ≠ 0 ↔ avl = true)
    ∧ (Z.land mask EPOLLWRNORM ≠ 0 ↔ avl = true)
    ∧ Z.land mask
        (Z.lnot (Z.lor (Z.lor EPOLLIN EPOLLRDNORM)
                   (Z.lor EPOLLOUT EPOLLWRNORM))) = 0
    ∧ (avl = true → k' = k)
    ∧ (avl = false → k' = store_sock hsk (sock_set_nospace s) k).
Proof.
  intros Hs. unfold homa_poll. rewrite Hs. simpl.
  destruct avl, (shutdown s), ready; simpl;
    eexists _, _; (split; [reflexivity|]); vm_compute;
    repeat split; try done; try (intros; by left); try (intros; by right);
    try (by intros [?|?]); intros Hx; by exfalso.
Qed.

(** X10: a socket that has been shut down polls as readable.  After
    [homa_shutdown] on an initialised socket, every [homa_poll] on it
    has [EPOLLIN] in its mask, whatever the memory and the ready list
    are. *)
Theorem homa_poll_after_shutdown avl ready k hsk s how k1 :
  socks k !! hsk = Some s → hsk_homa s = true →
  homa_shutdown k hsk how = Some (0, k1) →
  ∃ mask k2, homa_poll avl ready k1 hsk = Some (mask, k2)
             ∧ Z.land mask EPOLLIN = EPOLLIN.
Proof.
  intros Hs Hh Hshut.
  assert (Hs1 : ∃ s1, socks k1 !! hsk = Some s1 ∧ shutdown s1 = true).
  { unfold homa_shutdown in Hshut. destruct (shutdown s) eqn:Hsh.
    - unfold homa_sock_shutdown in Hshut. rewrite Hs in Hshut.
      simpl in Hshut. rewrite Hsh in Hshut. simpl in Hshut.
      injection Hshut as <-. by exists s.
    - destruct (homa_sock_shutdown_live k hsk s Hs Hh Hsh)
        as (k0 & a & d & Hk0 & Hs0 & _).
      rewrite Hk0 in Hshut. simpl in Hshut. injection Hshut as <-.
      by eexists. }
  destruct Hs1 as (s1 & Hs1 & Hsh1).
  unfold homa_poll. rewrite Hs1. simpl. rewrite Hsh1.
  destruct avl, ready; eexists _, _; split; try reflexivity;
    vm_compute; reflexivity.
Qed.

End IoctlPoll.

Section OptionsInputs.
Local Existing Instance linux_consts.
Local Existing Instance sample_hdrs.

Lemma homa_sockopt_server_round_trip_witness :
  ∃ k',
    homa_setsockopt sockopt_env_ok false k_two hsk1 IPPROTO_HOMA
      SO_HOMA_SERVER (mk_sockopt_block (mk_rcvbuf_args 0 0) 5) sizeof_int
      = Some (0, k')
    ∧ k' = store_sock hsk1
             (sock_set_is_server (negb (5 =? 0)) (the_sock k_two hsk1)) k_two
    ∧ (∀ hnet port,
         homa_sock_find k' hnet port = homa_sock_find k_two hnet port)
    ∧ homa_getsockopt sockopt_env_ok k' hsk1 IPPROTO_HOMA SO_HOMA_SERVER (-1)
      = Some (mk_getsockopt_result 0 (Some sizeof_int)
                (Some (inr (if 5 =? 0 then 0 else 1)))).
Proof.
  refine (homa_sockopt_server_round_trip sockopt_env_ok sockopt_env_ok false
            k_two hsk1 (the_sock k_two hsk1)
            (mk_sockopt_block (mk_rcvbuf_args 0 0) 5) (-1) _ _ _ _ _ _ _ _);
    try (vm_compute; reflexivity); try (vm_compute; discriminate).
  - split; vm_compute; discriminate.
  - right. lia.
Defined.

Lemma homa_getsockopt_server_tracks_bind_witness :
  homa_getsockopt sockopt_env_ok k_one hsk1 IPPROTO_HOMA SO_HOMA_SERVER
    sizeof_int
    = Some (mk_getsockopt_result 0 (Some sizeof_int) (Some (inr 0)))
  ∧ ∃ k2, homa_sock_bind k_one net0 hsk1 100 = Some (0, k2)
      ∧ homa_getsockopt sockopt_env_ok k2 hsk1 IPPROTO_HOMA SO_HOMA_SERVER
          sizeof_int
        = Some (mk_getsockopt_result 0 (Some sizeof_int) (Some (inr 1))).
Proof.
  refine (homa_getsockopt_server_tracks_bind sockopt_env_ok sweep_fuel pool1
            k_boot hsk1 (zeroed_sock net0 AF_INET6 100) k_one net0 100
            _ _ _ _ _ _ _ _ _ _);
    try (vm_compute; reflexivity); try (vm_compute; discriminate).
  - split; vm_compute; reflexivity.
Defined.

Lemma homa_ioctl_outcomes_witness :
  ∃ r k',
    homa_ioctl ioctl_env_ok k_request hsk1 cmd_abort
      (mk_abort_args 2 0 0 0 0) = Some (r, k')
    ∧ (r = 0 ∨ r = - EINVAL ∨ r = - EFAULT)
    ∧ (r ≠ 0 → k' = k_request)
    ∧ (¬ int_is_cmd cmd_abort HOMAIOCABORT →
       k' = k_request
       ∧ (int_is_cmd cmd_abort HOMAIOCFREEZE → r = 0)
       ∧ (¬ int_is_cmd cmd_abort HOMAIOCFREEZE → r = - EINVAL))
    ∧ (int_is_cmd cmd_abort HOMAIOCABORT →
       (true = false → r = - EFAULT)
       ∧ (true = true → 0 ≠ 0 ∨ 0 ≠ 0 ∨ 0 ≠ 0 → r = - EINVAL)
       ∧ (true = true → 0 = 0 → 0 = 0 → 0 = 0 →
          (2 = 0 →
           r = 0
           ∧ k' = homa_abort_sock_rpcs ioctl_env_ok k_request hsk1
                    (int32 (- 0)))
          ∧ (2 ≠ 0 →
             match homa_rpc_find_client k_request hsk1 2 with
             | None => r = - EINVAL
             | Some p =>
                 r = 0
                 ∧ (0 = 0 →
                    k' = homa_rpc_end k_request p
                    ∧ ∃ rp, rpcs k' !! p = Some rp
                            ∧ rpc_state_of rp = RPC_DEAD
                            ∧ homa_is_client (rpc_id rp) = true)
                 ∧ (0 ≠ 0 →
                    k' = homa_rpc_abort ioctl_env_ok k_request p
                           (int32 (- 0)))
             end))).
Proof.
  refine (homa_ioctl_outcomes ioctl_env_ok k_request hsk1
            (the_sock k_request hsk1) cmd_abort (mk_abort_args 2 0 0 0 0)
            _ _ _ _).
  - vm_compute. reflexivity.
  - unfold cmd_abort. lia.
  - simpl. lia.
  - simpl. lia.
Defined.

(** The same call, evaluated: the negative [int] is the abort command,
    the call returns 0 and RPC 2 is dead. *)
Example homa_ioctl_abort_request :
  int_is_cmd cmd_abort HOMAIOCABORT
  ∧ homa_rpc_find_client k_request hsk1 2 = Some rpc0
  ∧ ∃ k' rp, homa_ioctl ioctl_env_ok k_request hsk1 cmd_abort
               (mk_abort_args 2 0 0 0 0) = Some (0, k')
             ∧ rpcs k' !! rpc0 = Some rp ∧ rpc_state_of rp = RPC_DEAD
             ∧ homa_rpc_find_client k' hsk1 2 = None.
Proof.
  split; [by right|]. split; [vm_compute; reflexivity|].
  eexists _, _. vm_compute. done.
Qed.

Lemma homa_poll_mask_witness :
  ∃ mask k',
    homa_poll false true k_two hsk1 = Some (mask, k')
    ∧ (Z.land mask EPOLLIN ≠ 0 ↔
         shutdown (the_sock k_two hsk1) = true ∨ true = true)
    ∧ (Z.land mask EPOLLRDNORM ≠ 0 ↔ true = true)
    ∧ (Z.land mask EPOLLOUT ≠ 0 ↔ false = true)
    ∧ (Z.land mask EPOLLWRNORM ≠ 0 ↔ false = true)
    ∧ Z.land mask
        (Z.lnot (Z.lor (Z.lor EPOLLIN EPOLLRDNORM)
                   (Z.lor EPOLLOUT EPOLLWRNORM))) = 0
    ∧ (false = true → k' = k_two)
    ∧ (false = false →
       k' = store_sock hsk1 (sock_set_nospace (the_sock k_two hsk1)) k_two).
Proof.
  refine (homa_poll_mask false true k_two hsk1 (the_sock k_two hsk1) _).
  vm_compute. reflexivity.
Defined.

Lemma homa_poll_after_shutdown_witness :
  ∃ mask k2, homa_poll false false k_shut hsk2 = Some (mask, k2)
             ∧ Z.land mask EPOLLIN = EPOLLIN.
Proof.
  refine (homa_poll_after_shutdown false false k_two hsk2
            (the_sock k_two hsk2) 0 k_shut _ _ _);
    vm_compute; reflexivity.
Defined.

End OptionsInputs.

(** * Incoming packets *)

Section Softirq.
Context `{homa_hdrs}.

Lemma same_rpc_iff a b :
  same_rpc a b = true ↔
  h_sender_id a = h_sender_id b ∧ skb_saddr a = skb_saddr b.
Proof.
  unfold same_rpc. rewrite andb_true_iff, !Z.eqb_eq. split; intros [? ?]; done.
Qed.

Lemma same_rpc_trans a b c :
  same_rpc a b = true → same_rpc b c = true → same_rpc a c = true.
Proof. rewrite !same_rpc_iff. intros [? ?] [? ?]. split; congruence. Qed.

Lemma same_rpc_sym a b : same_rpc a b = true → same_rpc b a = true.
Proof. rewrite !same_rpc_iff. intros [? ?]. done. Qed.

Lemma same_rpc_refl a : same_rpc a a = true.
Proof. by apply same_rpc_iff. Qed.

(** The first loop sorts the packets into three kinds. *)
Lemma softirq_first_pass_spec pkts :
  discarded (softirq_first_pass pkts).1
    = filter (fun p => pkt_accepted p = false) pkts
  ∧ dispatches (softirq_first_pass pkts).1
    = map (fun p => [p])
        (filter (fun p => pkt_accepted p = true ∧ pkt_short p = true) pkts)
  ∧ (softirq_first_pass pkts).2
    = filter (fun p => pkt_accepted p = true ∧ pkt_short p = false) pkts.
Proof.
  induction pkts as [|skb next (IH1 & IH2 & IH3)]; [done|]. simpl.
  destruct (softirq_first_pass next) as [evs packets]. simpl in *.
  rewrite !filter_cons.
  remember (pkt_accepted skb) as acc eqn:Hacc. unfold pkt_accepted in Hacc.
  destruct (header_avl skb), (pkt_bogus skb), (h_type skb =? FREEZE),
    (pkt_short skb); simpl in *; subst acc;
    repeat case_decide; simpl; rewrite ?IH1, ?IH2, ?IH3; try done;
    intuition congruence.
Qed.

Lemma softirq_split_spec skb l :
  (softirq_split skb l).1 = filter (fun q => same_rpc skb q = true) l
  ∧ (softirq_split skb l).2 = filter (fun q => same_rpc skb q = false) l.
Proof.
  induction l as [|skb2 next [IH1 IH2]]; [done|]. simpl.
  destruct (softirq_split skb next) as [same others]. simpl in *.
  rewrite !filter_cons.
  destruct (same_rpc skb skb2); simpl; repeat case_decide; try done;
    by rewrite ?IH1, ?IH2.
Qed.

Lemma softirq_split_perm skb l :
  (softirq_split skb l).1 ++ (softirq_split skb l).2 ≡ₚ l.
Proof.
  destruct (softirq_split_spec skb l) as [-> ->].
  rewrite <- (filter_app_complement (fun q => same_rpc skb q = true) l) at 3.
  apply Permutation_app; [done|].
  induction l as [|q l IH]; [done|]. rewrite !filter_cons.
  destruct (same_rpc skb q); repeat case_decide; try done;
    try (by constructor); exfalso; auto.
Qed.

(** The second loop ends within one turn for each packet; the lists
    that it passes on make up the packets that it was given, each list
    in the order of arrival. *)
Lemma softirq_second_pass_spec fuel : ∀ packets,
  (length packets ≤ fuel)%nat →
  ∃ bs, softirq_second_pass fuel packets = Some (map SoftDispatch bs)
        ∧ concat bs ≡ₚ packets
        ∧ batches_ok bs
        ∧ (∀ b, b ∈ bs → b `sublist_of` packets).
Proof.
  induction fuel as [|fuel IH]; intros [|skb rest] Hlen; simpl in *;
    try lia; try (exists []; repeat split; try done;
                  intros; by match goal with
                             | Hx : _ ∈ [] |- _ => apply not_elem_of_nil in Hx
                             | Hx : [] !! _ = Some _ |- _ => idtac
                             end).
  destruct (softirq_split_spec skb rest) as [Hsame Hothers].
  pose proof (softirq_split_perm skb rest) as Hperm.
  destruct (softirq_split skb rest) as [same others]. simpl in *.
  destruct (IH others) as (bs & Hrun & Hcat & [Hhom Hdistinct] & Hsub).
  { rewrite Hothers. pose proof (length_filter (fun q => same_rpc skb q = false) rest).
    lia. }
  exists ((skb :: same) :: bs). rewrite Hrun. simpl.
  split; [done|]. split; [|split; [split|]].
  - constructor. by rewrite Hcat.
  - intros b [->|Hb]%elem_of_cons; [|by apply Hhom].
    exists skb, same. split; [done|]. rewrite Hsame.
    apply Forall_forall. intros q Hq.
    by apply list_elem_of_filter in Hq as [? _].
  - assert (Hfirst : ∀ j b2 p q, bs !! j = Some b2 → p ∈ skb :: same →
              q ∈ b2 → same_rpc p q = true → False).
    { intros j b2 p q Hb2 Hp Hq Hpq.
      assert (Hsp : same_rpc skb p = true).
      { apply elem_of_cons in Hp as [->|Hp]; [apply same_rpc_refl|].
        rewrite Hsame in Hp. by apply list_elem_of_filter in Hp as [? _]. }
      assert (Hqo : q ∈ others).
      { eapply elem_of_sublist; [exact Hq|]. apply Hsub.
        by eapply list_elem_of_lookup_2. }
      rewrite Hothers in Hqo. apply list_elem_of_filter in Hqo as [Hno _].
      rewrite (same_rpc_trans skb p q) in Hno; done. }
    intros [|i] [|j] b1 b2 p q Hb1 Hb2 Hp Hq Hpq; simpl in *.
    + done.
    + injection Hb1 as <-. exfalso. by eapply Hfirst.
    + injection Hb2 as <-. exfalso. apply same_rpc_sym in Hpq.
      by eapply Hfirst.
    + f_equal. by eapply Hdistinct.
  - intros b [->|Hb]%elem_of_cons.
    + apply sublist_skip. rewrite Hsame. apply sublist_filter.
    + apply sublist_cons. etrans; [by apply Hsub|].
      rewrite Hothers. apply sublist_filter.
Qed.

End Softirq.

Section SoftirqTheorems.
Context `{homa_hdrs}.

Lemma dispatches_map bs : dispatches (map SoftDispatch bs) = bs.
Proof. induction bs as [|b bs IH]; [done|]. simpl. by rewrite IH. Qed.

Lemma discarded_map bs : discarded (map SoftDispatch bs) = [].
Proof. induction bs as [|b bs IH]; [done|]. simpl. by rewrite IH. Qed.

Lemma concat_singletons (l : list sk_buff) :
  concat (map (fun p => [p]) l) = l.
Proof. induction l as [|p l IH]; [done|]. simpl. by rewrite IH. Qed.

Lemma filter_accepted_split (l : list sk_buff) :
  filter (fun p => pkt_accepted p = true ∧ pkt_short p = true) l
  ++ filter (fun p => pkt_accepted p = true ∧ pkt_short p = false) l
  ≡ₚ filter (fun p => pkt_accepted p = true) l.
Proof.
  induction l as [|p l IH]; [done|]. rewrite !filter_cons.
  destruct (pkt_accepted p), (pkt_short p); repeat case_decide;
    try done; try (exfalso; intuition congruence).
  - simpl. by constructor.
  - rewrite <- Permutation_middle. by constructor.
Qed.

(** What a run of [homa_softirq] with a turn of the second loop for each
    packet gives. *)
Lemma homa_softirq_run fuel skb frag_list :
  (length (skb :: frag_list) ≤ fuel)%nat →
  ∃ evs1 bs,
    homa_softirq fuel skb frag_list = Some (0, evs1 ++ map SoftDispatch bs)
    ∧ evs1 = (softirq_first_pass (skb :: frag_list)).1
    ∧ concat bs ≡ₚ (softirq_first_pass (skb :: frag_list)).2
    ∧ batches_ok bs
    ∧ (∀ b, b ∈ bs → b `sublist_of` skb :: frag_list).
Proof.
  intros Hlen. unfold homa_softirq.
  pose proof (softirq_first_pass_spec (skb :: frag_list)) as (_ & _ & Hkept).
  destruct (softirq_first_pass (skb :: frag_list)) as [evs1 packets].
  simpl in Hkept.
  destruct (softirq_second_pass_spec fuel packets)
    as (bs & Hrun & Hcat & Hok & Hsub).
  { rewrite Hkept.
    pose proof (length_filter
      (fun p => pkt_accepted p = true ∧ pkt_short p = false)
      (skb :: frag_list)). lia. }
  exists evs1, bs. rewrite Hrun. simpl. split; [done|]. split; [done|].
  split; [done|]. split; [done|].
  intros b Hb. etrans; [by apply Hsub|]. rewrite Hkept. apply sublist_filter.
Qed.

(** X11: [homa_softirq] hands on or frees every packet, once.  With a
    turn of the second loop for each packet the call returns 0; the
    packets that it frees are, in order, those without an available
    header, too short, of a bogus type or of type [FREEZE]; the packets
    that it passes to [homa_dispatch_pkts], all calls taken together,
    are the others, each one once; and no call passes an empty list. *)
Theorem homa_softirq_conserves fuel skb frag_list :
  (length (skb :: frag_list) ≤ fuel)%nat →
  ∃ evs,
    homa_softirq fuel skb frag_list = Some (0, evs)
    ∧ discarded evs
      = filter (fun p => pkt_accepted p = false) (skb :: frag_list)
    ∧ concat (dispatches evs)
      ≡ₚ filter (fun p => pkt_accepted p = true) (skb :: frag_list)
    ∧ (∀ b, b ∈ dispatches evs → b ≠ []).
Proof.
  intros Hlen.
  destruct (homa_softirq_run fuel skb frag_list Hlen)
    as (evs1 & bs & Hrun & -> & Hcat & [Hhom _] & _).
  pose proof (softirq_first_pass_spec (skb :: frag_list))
    as (Hdisc & Hdisp & Hkept).
  eexists. split; [exact Hrun|].
  unfold discarded, dispatches in *. rewrite !omap_app.
  fold (discarded (map SoftDispatch bs)) (dispatches (map SoftDispatch bs)).
  rewrite discarded_map, dispatches_map, app_nil_r.
  split; [exact Hdisc|]. split.
  - rewrite Hdisp, concat_app, concat_singletons, Hcat, Hkept.
    apply filter_accepted_split.
  - intros b [Hb|Hb]%elem_of_app.
    + rewrite Hdisp in Hb. apply list_elem_of_fmap in Hb as (p & -> & _).
      done.
    + destruct (Hhom b Hb) as (h & t & -> & _). done.
Qed.

(** X12: the second loop of [homa_softirq] passes on the long data
    packets RPC by RPC.  The calls to [homa_dispatch_pkts] are one for
    each control packet and each data packet of a short message, in the
    order of arrival, followed by calls whose lists make up the data
    packets of long messages: each list holds packets of one sender id
    and source address, in the order of arrival, and no two lists hold
    packets of the same sender id and source address. *)
Theorem homa_softirq_batches fuel skb frag_list :
  (length (skb :: frag_list) ≤ fuel)%nat →
  ∃ evs bs,
    homa_softirq fuel skb frag_list = Some (0, evs)
    ∧ dispatches evs
      = map (fun p => [p])
          (filter (fun p => pkt_accepted p = true ∧ pkt_short p = true)
             (skb :: frag_list))
        ++ bs
    ∧ concat bs
      ≡ₚ filter (fun p => pkt_accepted p = true ∧ pkt_short p = false)
           (skb :: frag_list)
    ∧ batches_ok bs
    ∧ (∀ b, b ∈ bs → b `sublist_of` skb :: frag_list).
Proof.
  intros Hlen.
  destruct (homa_softirq_run fuel skb frag_list Hlen)
    as (evs1 & bs & Hrun & -> & Hcat & Hok & Hsub).
  pose proof (softirq_first_pass_spec (skb :: frag_list))
    as (_ & Hdisp & Hkept).
  eexists _, bs. split; [exact Hrun|].
  unfold dispatches in *. rewrite omap_app.
  fold (dispatches (map SoftDispatch bs)). rewrite dispatches_map, Hdisp.
  split; [done|]. split; [by rewrite Hcat, Hkept|]. done.
Qed.

End SoftirqTheorems.

Section SoftirqInputs.
Local Existing Instance sample_hdrs.

Lemma homa_softirq_conserves_witness :
  ∃ evs,
    homa_softirq 5 (pkt_data 7 0)
      [pkt_grant; pkt_data 9 0; pkt_runt; pkt_data 7 1400] = Some (0, evs)
    ∧ discarded evs
      = filter (fun p => pkt_accepted p = false)
          (pkt_data 7 0
           :: [pkt_grant; pkt_data 9 0; pkt_runt; pkt_data 7 1400])
    ∧ concat (dispatches evs)
      ≡ₚ filter (fun p => pkt_accepted p = true)
           (pkt_data 7 0
            :: [pkt_grant; pkt_data 9 0; pkt_runt; pkt_data 7 1400])
    ∧ (∀ b, b ∈ dispatches evs → b ≠ []).
Proof.
  refine (homa_softirq_conserves 5 (pkt_data 7 0)
            [pkt_grant; pkt_data 9 0; pkt_runt; pkt_data 7 1400] _).
  simpl. lia.
Defined.

Lemma homa_softirq_batches_witness :
  ∃ evs bs,
    homa_softirq 5 (pkt_data 7 0)
      [pkt_grant; pkt_data 9 0; pkt_runt; pkt_data 7 1400] = Some (0, evs)
    ∧ dispatches evs
      = map (fun p => [p])
          (filter (fun p => pkt_accepted p = true ∧ pkt_short p = true)
             (pkt_data 7 0
              :: [pkt_grant; pkt_data 9 0; pkt_runt; pkt_data 7 1400]))
        ++ bs
    ∧ concat bs
      ≡ₚ filter (fun p => pkt_accepted p = true ∧ pkt_short p = false)
           (pkt_data 7 0
            :: [pkt_grant; pkt_data 9 0; pkt_runt; pkt_data 7 1400])
    ∧ batches_ok bs
    ∧ (∀ b, b ∈ bs →
         b `sublist_of`
           pkt_data 7 0
           :: [pkt_grant; pkt_data 9 0; pkt_runt; pkt_data 7 1400]).
Proof.
  refine (homa_softirq_batches 5 (pkt_data 7 0)
            [pkt_grant; pkt_data 9 0; pkt_runt; pkt_data 7 1400] _).
  simpl. lia.
Defined.

(** The same run, evaluated: the grant goes first, the runt is freed,
    and the two packets of RPC 7 go together, ahead of the packet of
    RPC 9 that arrived between them. *)
Example homa_softirq_run_example :
  homa_softirq 5 (pkt_data 7 0)
    [pkt_grant; pkt_data 9 0; pkt_runt; pkt_data 7 1400]
  = Some (0, [SoftDispatch [pkt_grant]; SoftDiscard pkt_runt;
              SoftDispatch [pkt_data 7 0; pkt_data 7 1400];
              SoftDispatch [pkt_data 9 0]]).
Proof. vm_compute. reflexivity. Qed.

End SoftirqInputs.

(** * Loading and unloading the module *)

Section Load.

(** X13: a load that fails leaves nothing behind.  [homa_load] returns
    0 exactly when none of its calls fails, and then every part is up.
    Otherwise it returns the status of the first call that fails
    ([ENOMEM] when that is the registration of the sysctl table), and
    by then it has taken down every part that it had brought up, each
    one once and in the reverse of the order in which they came up. *)
Theorem homa_load_rollback e :
  ((homa_load e).1 = 0 ↔ first_failure e = None)
  ∧ (first_failure e = None →
     module_unwind (homa_load e).2 [] =
       Some [PartTimetrace; PartGroHook; PartTimerThread; PartPernet;
             PartOffload; PartSysctl; PartMetrics; PartHoma; PartProtocolV6;
             PartProtocol; PartProtoswV6; PartProtosw; PartProtoV6;
             PartProto])
  ∧ (∀ p, first_failure e = Some p →
       (homa_load e).1 = (if bool_decide (p = PartSysctl) then - ENOMEM
                          else load_result e p)
       ∧ (homa_load e).1 ≠ 0
       ∧ module_unwind (homa_load e).2 [] = Some []
       ∧ module_live (homa_load e).2 [] = Some []).
Proof.
  unfold homa_load, first_failure, timer_err, net_err, offload_err,
    sysctl_err, metrics_err, homa_init_err, add_protocol_v6_err,
    add_protocol_err, register_protosw_v6_err, proto_register_v6_err,
    proto_register_err.
  rewrite !filter_cons, filter_nil.
  repeat match goal with
    | |- context [load_result e ?p =? 0] =>
        destruct (Z.eqb_spec (load_result e p) 0); simpl;
        [rewrite (decide_False (P := load_result e p ≠ 0)) by tauto
        |rewrite (decide_True (P := load_result e p ≠ 0)) by tauto;
         simpl;
         split; [split; [intros Hx; exfalso;
                         first [tauto|by vm_compute in Hx]|discriminate]|];
         split; [discriminate|];
         intros ? [= <-];
         rewrite ?bool_decide_eq_false_2 by done;
         rewrite ?bool_decide_eq_true_2 by done;
         repeat split; try done; by vm_compute]
    end.
  simpl. split; [by split|]. split; [by vm_compute|]. by intros.
Qed.

(** X14: unloading undoes a successful load.  After a [homa_load] that
    returns 0, the calls of [homa_unload] take down every part that is
    up, each one once: nothing stays registered, and nothing is
    unregistered that is not registered. *)
Theorem homa_load_unload e :
  (homa_load e).1 = 0 →
  module_live ((homa_load e).2 ++ homa_unload true) [] = Some [].
Proof.
  unfold homa_load, timer_err, net_err, offload_err,
    sysctl_err, metrics_err, homa_init_err, add_protocol_v6_err,
    add_protocol_err, register_protosw_v6_err, proto_register_v6_err,
    proto_register_err.
  repeat match goal with
    | |- context [load_result e ?p =? 0] =>
        destruct (Z.eqb_spec (load_result e p) 0); simpl;
        [|try done; by vm_compute]
    end.
  intros _. vm_compute. reflexivity.
Qed.

Lemma homa_load_unload_witness :
  module_live ((homa_load (mk_load_env (fun _ => 0))).2 ++ homa_unload true)
    [] = Some [].
Proof.
  refine (homa_load_unload (mk_load_env (fun _ => 0)) _).
  vm_compute. reflexivity.
Defined.

(** A load in which [homa_init] fails with [ENOMEM]. *)
Example homa_load_init_fails :
  homa_load (mk_load_env (fun p => if bool_decide (p = PartHoma)
                                   then - ENOMEM else 0))
  = (- ENOMEM,
     [ModUp PartProto; ModUp PartProtoV6; ModUp PartProtosw;
      ModUp PartProtoswV6; ModUp PartProtocol; ModUp PartProtocolV6;
      ModDown PartProtocolV6; ModDown PartProtocol; ModDown PartProtoswV6;
      ModDown PartProtosw; ModDown PartProtoV6; ModDown PartProto]).
Proof. vm_compute. reflexivity. Qed.

End Load.

(** * Socket creation in the states that the system calls lead to *)

Section Reachable.
Context `{homa_consts}.

Lemma counters_ok_keys_kept k k' :
  socktab_ok k → counters_ok k → keys_kept k k' → counters_ok k'.
Proof.
  intros (_ & Hmem & _) Hok (Htab & Hkeys & Hnets) hnet n Hn.
  rewrite Hnets in Hn. destruct (Hok hnet n Hn) as [Hrange Hinv].
  split; [done|]. intros Hlt q Hq.
  apply (homa_sock_find_None_mono k); [|by apply Hinv].
  rewrite Htab. intros p s' Hin Hs'. left. split; [done|].
  destruct (Hmem _ _ Hin) as (s & ? & Hs & _).
  destruct (Hkeys p s Hs) as (s1 & Hs1 & Hp & Hnet & _).
  exists s. split; [done|]. split; congruence.
Qed.

Lemma keys_kept_destroy k hsk k1 :
  homa_sock_destroy k hsk = Some k1 → keys_kept k k1.
Proof.
  unfold homa_sock_destroy.
  destruct (socks k !! hsk) as [s|] eqn:Hs; [|done]. simpl.
  destruct (negb (hsk_homa s)); [intros [= <-]; apply keys_kept_refl|].
  intros [= <-].
  assert (Hst : ∀ k2, keys_kept k k2 → socks k2 !! hsk = Some s →
            keys_kept k (store_sock hsk (sock_destroyed s) k2)).
  { intros k2 H2 Hs2. eapply keys_kept_trans; [exact H2|].
    by eapply keys_kept_store. }
  apply Hst; case_bool_decide; destruct (buffer_pool s); simpl; try done;
    by apply keys_kept_same.
Qed.

Lemma keys_kept_connect k hsk addr addrlen result k' :
  homa_connect k hsk addr addrlen = Some (result, k') → keys_kept k k'.
Proof.
  unfold homa_connect, __homa_connect.
  destruct (socks k !! hsk) as [s|] eqn:Hs; [|done]. simpl.
  assert (Hst : ∀ a, keys_kept k (store_sock hsk (sock_connected a s) k))
    by (intros a; by eapply keys_kept_store).
  repeat (match goal with
          | |- context [if ?c then _ else _] => destruct c
          end; try (intros [= <- <-]; apply keys_kept_refl));
    intros [= <- <-]; apply Hst.
Qed.

(** One call keeps the counters in order. *)
Lemma sock_call_counters_ok k k' :
  0 ≤ HOMA_MIN_DEFAULT_PORT ≤ 65535 →
  socktab_ok k → counters_ok k → sock_call k k' → counters_ok k'.
Proof.
  intros Hmin Hok Hcnt
    [fuel pa hsk s result k1 Hs Hno Hcall
    |hsk addr len result k1 Hcall
    |hsk addr len result k1 Hcall
    |hsk how result k1 Hcall
    |hsk timeout k1 Hcall
    |e hsk msg result k1 ctl Hcall
    |e hsk msg flags res Hcall].
  - unfold homa_socket in Hcall.
    destruct (homa_sock_init fuel pa k hsk) as [[r k2]|] eqn:Hinit; [|done].
    simpl in Hcall.
    pose proof (counters_ok_init _ _ _ _ _ _ _ Hmin Hcnt Hs Hno Hinit) as Hc2.
    pose proof (socktab_ok_init _ _ _ _ _ _ _ Hok Hs Hno Hinit) as Hok2.
    destruct (negb (r =? 0)); [|by injection Hcall as <- <-].
    destruct (homa_sock_shutdown k2 hsk) as [k3|] eqn:Hsh; [|done].
    simpl in Hcall.
    destruct (homa_sock_destroy k3 hsk) as [k4|] eqn:Hd; [|done].
    injection Hcall as <- <-.
    apply (counters_ok_keys_kept k3);
      [by eapply socktab_ok_shutdown|by eapply counters_ok_shutdown|
       by eapply keys_kept_destroy].
  - unfold homa_bind in Hcall.
    destruct (socks k !! hsk) as [s|] eqn:Hs; [|done]. simpl in Hcall.
    destruct (negb _); [by injection Hcall as <- <-|].
    destruct (hsk_hnet s) as [hnet|] eqn:Hn;
      repeat (match type of Hcall with
              | context [if ?c then _ else _] => destruct c
              end; try (by injection Hcall as <- <-));
      simpl in Hcall; try done; by eapply counters_ok_bind.
  - apply (counters_ok_keys_kept k); [done|done|].
    by eapply keys_kept_connect.
  - unfold homa_shutdown in Hcall.
    destruct (homa_sock_shutdown k hsk) as [k2|] eqn:Hsh; [|done].
    injection Hcall as <- <-. by eapply counters_ok_shutdown.
  - unfold homa_close, sk_common_release in Hcall.
    destruct (homa_sock_shutdown k hsk) as [k2|] eqn:Hsh; [|done].
    simpl in Hcall.
    apply (counters_ok_keys_kept k2);
      [by eapply socktab_ok_shutdown|by eapply counters_ok_shutdown|
       by eapply keys_kept_destroy].
  - apply (counters_ok_keys_kept k); [done|done|].
    by eapply keys_kept_sendmsg.
  - apply (counters_ok_keys_kept k); [done|done|].
    by eapply keys_kept_recvmsg.
Qed.

Lemma sock_calls_invariants k0 k :
  0 ≤ HOMA_MIN_DEFAULT_PORT ≤ 65535 →
  socktab_ok k0 → counters_ok k0 → sock_calls k0 k →
  socktab_ok k ∧ counters_ok k.
Proof.
  intros Hmin Hok Hcnt Hcalls.
  induction Hcalls as [|k1 k2 _ [IH1 IH2] Hcall]; [done|]. split.
  - by eapply sock_call_socktab_ok.
  - by eapply sock_call_counters_ok.
Qed.

(** X15: socket creation never hangs.  In every state that a sequence
    of system calls leads to from a state whose table and counters are
    in order (the state at boot is one), [homa_socket] on a fresh block
    with a buffer pool returns within 65536 turns of the port loop; it
    returns 0 or [EADDRNOTAVAIL], and the table and the counters are in
    order again afterwards. *)
Theorem homa_socket_always_returns k0 k fuel pool hsk s :
  0 ≤ HOMA_MIN_DEFAULT_PORT ≤ 65535 →
  socktab_ok k0 → counters_ok k0 → sock_calls k0 k →
  socks k !! hsk = Some s → is_Some (nets k !! sk_net s) →
  (∀ b, hsk ∉ bucket_of (socktab k) b) →
  (sweep_fuel ≤ fuel)%nat →
  ∃ result k',
    homa_socket fuel (inr pool) k hsk = Some (result, k')
    ∧ (result = 0 ∨ result = - EADDRNOTAVAIL)
    ∧ socktab_ok k' ∧ counters_ok k'.
Proof.
  intros Hmin Hok0 Hcnt0 Hcalls Hs [n Hn] Hno Hfuel.
  destruct (sock_calls_invariants k0 k Hmin Hok0 Hcnt0 Hcalls) as [Hok Hcnt].
  destruct (Hcnt _ _ Hn) as [Hprev Hinv].
  destruct (default_port_loop_total Hmin fuel k (sk_net s) n Hprev Hinv Hfuel)
    as (found & p & Hloop & _).
  assert (Hrun : ∃ result k',
            homa_socket fuel (inr pool) k hsk = Some (result, k')
            ∧ (result = 0 ∨ result = - EADDRNOTAVAIL)).
  { unfold homa_socket, homa_sock_init. rewrite Hs. simpl. rewrite Hn. simpl.
    rewrite (default_port_loop_ext _ _ k)
      by (intros; by apply homa_sock_find_store_unlinked).
    rewrite Hloop. destruct found; simpl.
    - eexists _, _. split; [reflexivity|by left].
    - unfold homa_sock_shutdown. simpl. rewrite lookup_insert_eq. simpl.
      unfold homa_sock_destroy. simpl. rewrite lookup_insert_eq. simpl.
      eexists _, _. split; [reflexivity|by right]. }
  destruct Hrun as (result & k' & Hrun & Hres).
  exists result, k'. split; [done|]. split; [done|].
  assert (Hcall : sock_call k k') by (by eapply call_socket).
  split; [by eapply sock_call_socktab_ok|by eapply sock_call_counters_ok].
Qed.

(** X16: a socket creation that fails leaves no trace in the table.
    When [homa_socket] fails on a zeroed block that is not in the
    table, the table and every look-up are as before and no RPC has
    changed; without a buffer pool the result is the error of
    [homa_pool_alloc] and nothing is freed; with one, the result is
    [EADDRNOTAVAIL], the pool is freed once, by the one call that the
    creation leaves in the log, and the block is marked shut down. *)
Theorem homa_socket_failure_clean fuel pool_alloc k hsk s result k' :
  socks k !! hsk = Some s → hsk_homa s = false →
  (∀ b, hsk ∉ bucket_of (socktab k) b) →
  homa_socket fuel pool_alloc k hsk = Some (result, k') → result ≠ 0 →
  socktab k' = socktab k
  ∧ (∀ hnet port, homa_sock_find k' hnet port = homa_sock_find k hnet port)
  ∧ rpcs k' = rpcs k
  ∧ match pool_alloc with
    | inl err => result = err ∧ klog k' = klog k
    | inr pool =>
        result = - EADDRNOTAVAIL
        ∧ klog k' = klog k ++ [EvPoolFree pool]
        ∧ ∃ s', socks k' !! hsk = Some s' ∧ shutdown s' = true
                ∧ hsk_homa s' = false
    end.
Proof.
  intros Hs Hh Hno. unfold homa_socket, homa_sock_init. rewrite Hs. simpl.
  destruct (nets k !! sk_net s) as [n|]; [|done]. simpl.
  assert (Hfind : ∀ k2, socktab k2 = socktab k →
            (∀ q, q ≠ hsk → socks k2 !! q = socks k !! q) →
            ∀ hnet port, homa_sock_find k2 hnet port = homa_sock_find k hnet port).
  { intros k2 Ht Hss hnet port. unfold homa_sock_find. rewrite Ht.
    apply bucket_find_ext. intros q Hq. apply Hss. intros ->.
    by apply Hno in Hq. }
  destruct pool_alloc as [err|pool]; simpl.
  - destruct (err =? 0) eqn:Herr; simpl; [intros [= <- <-] Hne; lia|].
    unfold homa_sock_shutdown. simpl. rewrite lookup_insert_eq. simpl.
    rewrite Hh. rewrite orb_true_r. simpl.
    unfold homa_sock_destroy. simpl. rewrite lookup_insert_eq. simpl.
    rewrite Hh. simpl. intros [= <- <-] _.
    split; [done|]. split; [|done]. apply Hfind; [done|].
    intros q Hq. simpl. by rewrite lookup_insert_ne.
  - destruct (default_port_loop _ _ _ _ _) as [[[] prev]|]; [| |done]; simpl.
    + intros [= <- <-] Hne. done.
    + unfold homa_sock_shutdown. simpl. rewrite lookup_insert_eq. simpl.
      unfold homa_sock_destroy. simpl. rewrite lookup_insert_eq. simpl.
      intros [= <- <-] _. split; [done|]. split; [|split; [done|]].
      * apply Hfind; [done|]. intros q Hq. simpl.
        by rewrite !lookup_insert_ne.
      * split; [done|]. split; [done|]. simpl. rewrite lookup_insert_eq.
        by eexists.
Qed.

(** X17: a bind that fails changes nothing.  [homa_bind] returns 0,
    [EAFNOSUPPORT], [EINVAL], [ESHUTDOWN] or [EADDRINUSE]; whenever the
    result is not 0 the state is as before; an address of a family
    other than the socket's gives [EAFNOSUPPORT]; an address of the
    socket's family with a length from 0 up to, and not including, the
    size of the structure of that family gives [EINVAL], whatever the
    port; and with a length of at least that size, or a negative one
    (the length is an [int] and the test is made on [size_t]), the call
    is [homa_sock_bind] on the port of the address. *)
Theorem homa_bind_failure_frame k hsk s addr addr_len result k' :
  socks k !! hsk = Some s →
  homa_bind k hsk addr addr_len = Some (result, k') →
  (result = 0 ∨ result = - EAFNOSUPPORT ∨ result = - EINVAL
   ∨ result = - ESHUTDOWN ∨ result = - EADDRINUSE)
  ∧ (result ≠ 0 → k' = k)
  ∧ (sa_family addr ≠ sk_family s → result = - EAFNOSUPPORT)
  ∧ (sa_family addr = sk_family s →
     (sa_family addr = AF_INET6 ∧ 0 ≤ addr_len < sizeof_sockaddr_in6)
     ∨ (sa_family addr = AF_INET ∧ 0 ≤ addr_len < sizeof_sockaddr_in) →
     result = - EINVAL)
  ∧ (sa_family addr = sk_family s →
     (sa_family addr = AF_INET6
      ∧ (sizeof_sockaddr_in6 ≤ addr_len ∨ addr_len < 0))
     ∨ (sa_family addr = AF_INET
        ∧ (sizeof_sockaddr_in ≤ addr_len ∨ addr_len < 0)) →
     - 2147483648 ≤ addr_len ≤ 2147483647 →
     ∃ hnet, hsk_hnet s = Some hnet
             ∧ homa_sock_bind k hnet hsk (ntohs (sa_port addr))
               = Some (result, k')).
Proof.
  intros Hs. unfold homa_bind. rewrite Hs. simpl.
  assert (Hsb : ∀ hnet port,
            homa_sock_bind k hnet hsk port = Some (result, k') →
            (result = 0 ∨ result = - EINVAL ∨ result = - ESHUTDOWN
             ∨ result = - EADDRINUSE)
            ∧ (result ≠ 0 → k' = k)).
  { intros hnet port. unfold homa_sock_bind.
    destruct (u16 port =? 0); [intros [= <- <-]; split; [by left|done]|].
    destruct (u16 port >=? HOMA_MIN_DEFAULT_PORT);
      [intros [= <- <-]; split; [by right; left|done]|].
    rewrite Hs. simpl.
    destruct (shutdown s); [intros [= <- <-]; split; [by right; right; left|done]|].
    destruct (homa_sock_find k hnet (u16 port)).
    - case_bool_decide; intros [= <- <-]; split; try done;
        [by right; right; right|by left].
    - intros [= <- <-]. split; [by left|done]. }
  assert (Hshort : ∀ n, 0 ≤ addr_len < n → n ≤ 28 →
            (to_size_t addr_len <? n) = true)
    by (intros; apply to_size_t_ltb_short; lia).
  assert (Hlong : ∀ n, n ≤ addr_len ∨ addr_len < 0 →
            - 2147483648 ≤ addr_len ≤ 2147483647 → 0 ≤ n ≤ 28 →
            (to_size_t addr_len <? n) = false).
  { intros n [?|?] ? ?;
      [apply to_size_t_ltb_long|apply to_size_t_ltb_negative]; lia. }
  destruct (Z.eqb_spec (sa_family addr) (sk_family s)) as [Hfam|Hfam]; simpl.
  2: { intros [= <- <-]. split; [by right; left|]. split; [done|].
       split; [done|]. split; intros Heq; by destruct Hfam. }
  destruct (Z.eqb_spec (sa_family addr) AF_INET6) as [H6|H6].
  - destruct (to_size_t addr_len <? sizeof_sockaddr_in6) eqn:Hlen.
    + intros [= <- <-]. split; [by right; right; left|]. split; [done|].
      split; [done|]. split; [done|].
      intros _ [[_ Hl]|[H4 _]] Hint;
        [|rewrite H6 in H4; discriminate].
      rewrite Hlong in Hlen
        by (unfold sizeof_sockaddr_in6 in *; (done || lia)).
      discriminate.
    + destruct (hsk_hnet s) as [hnet|]; [|done]. simpl. intros Hb.
      destruct (Hsb _ _ Hb) as [Hres Hframe].
      split; [destruct Hres as [?|[?|[?|?]]]; auto|]. split; [done|].
      split; [done|]. split.
      * intros _ [[_ Hl]|[H4 _]]; [|rewrite H6 in H4; discriminate].
        rewrite Hshort in Hlen by (unfold sizeof_sockaddr_in6 in *; lia).
        discriminate.
      * intros _ _ _. by exists hnet.
  - destruct (Z.eqb_spec (sa_family addr) AF_INET) as [H4|H4].
    + destruct (to_size_t addr_len <? sizeof_sockaddr_in) eqn:Hlen.
      * intros [= <- <-]. split; [by right; right; left|]. split; [done|].
        split; [done|]. split; [done|].
        intros _ [[? _]|[_ Hl]] Hint; [done|].
        rewrite Hlong in Hlen
          by (unfold sizeof_sockaddr_in in *; (done || lia)).
        discriminate.
      * destruct (hsk_hnet s) as [hnet|]; [|done]. simpl. intros Hb.
        destruct (Hsb _ _ Hb) as [Hres Hframe].
        split; [destruct Hres as [?|[?|[?|?]]]; auto|]. split; [done|].
        split; [done|]. split.
        -- intros _ [[? _]|[_ Hl]]; [done|].
           rewrite Hshort in Hlen by (unfold sizeof_sockaddr_in in *; lia).
           discriminate.
        -- intros _ _ _. by exists hnet.
    + destruct (hsk_hnet s) as [hnet|]; [|done]. simpl. intros Hb.
      destruct (Hsb _ _ Hb) as [Hres Hframe].
      split; [destruct Hres as [?|[?|[?|?]]]; auto|]. split; [done|].
      split; [done|]. split; intros _ [[? _]|[? _]]; done.
Qed.

(** The length is an [int] and the test is made on [size_t]: a negative
    length is not short for the code, which binds the port. *)
Lemma homa_bind_negative_addr_len k hsk s hnet addr addr_len :
  socks k !! hsk = Some s → hsk_hnet s = Some hnet →
  sa_family addr = sk_family s →
  sa_family addr = AF_INET ∨ sa_family addr = AF_INET6 →
  - 2147483648 ≤ addr_len < 0 →
  homa_bind k hsk addr addr_len
  = homa_sock_bind k hnet hsk (ntohs (sa_port addr)).
Proof.
  intros Hs Hn Hfam Hf Hlen. unfold homa_bind. rewrite Hs. simpl.
  rewrite <- Hfam, Z.eqb_refl. simpl.
  destruct Hf as [Hf|Hf]; rewrite Hf; simpl;
    rewrite to_size_t_ltb_negative
      by (unfold sizeof_sockaddr_in, sizeof_sockaddr_in6; lia);
    by rewrite Hn.
Qed.

End Reachable.

Section ReachableInputs.
Local Existing Instance linux_consts.

Lemma sock_call_k_one : sock_call k_boot k_one.
Proof.
  apply (call_socket k_boot sweep_fuel (inr pool1) hsk1
           (zeroed_sock net0 AF_INET6 100) 0 k_one).
  - reflexivity.
  - apply unlinked_bucket_of.
    apply (bool_decide_eq_true_1 _ (Decision0 := unlinked_dec _ _)).
    vm_compute. reflexivity.
  - vm_compute. reflexivity.
Qed.

Lemma homa_socket_always_returns_witness :
  ∃ result k',
    homa_socket sweep_fuel (inr pool1) k_two hsk3 = Some (result, k')
    ∧ (result = 0 ∨ result = - EADDRNOTAVAIL)
    ∧ socktab_ok k' ∧ counters_ok k'.
Proof.
  refine (homa_socket_always_returns k_boot k_two sweep_fuel pool1 hsk3
            (zeroed_sock net0 AF_INET6 100) _ _ _ _ _ _ _ _).
  - simpl. lia.
  - apply table_ok_empty.
  - apply counters_ok_boot. simpl. lia.
  - apply (calls_more k_boot k_one);
      [apply (calls_more k_boot k_boot); [apply calls_none|]|].
    + apply sock_call_k_one.
    + apply sock_call_k_two.
  - vm_compute. reflexivity.
  - exists (mk_net 32769). vm_compute. reflexivity.
  - apply unlinked_bucket_of.
    apply (bool_decide_eq_true_1 _ (Decision0 := unlinked_dec _ _)).
    vm_compute. reflexivity.
  - reflexivity.
Defined.

Lemma homa_bind_failure_frame_witness :
  (- EINVAL = 0 ∨ - EINVAL = - EAFNOSUPPORT
   ∨ - EINVAL = - EINVAL ∨ - EINVAL = - ESHUTDOWN
   ∨ - EINVAL = - EADDRINUSE)
  ∧ (- EINVAL ≠ 0 → k_two = k_two)
  ∧ (sa_family addr_v6 ≠ sk_family (the_sock k_two hsk2) →
     - EINVAL = - EAFNOSUPPORT)
  ∧ (sa_family addr_v6 = sk_family (the_sock k_two hsk2) →
     (sa_family addr_v6 = AF_INET6 ∧ 0 ≤ 16 < sizeof_sockaddr_in6)
     ∨ (sa_family addr_v6 = AF_INET ∧ 0 ≤ 16 < sizeof_sockaddr_in) →
     - EINVAL = - EINVAL)
  ∧ (sa_family addr_v6 = sk_family (the_sock k_two hsk2) →
     (sa_family addr_v6 = AF_INET6
      ∧ (sizeof_sockaddr_in6 ≤ 16 ∨ 16 < 0))
     ∨ (sa_family addr_v6 = AF_INET
        ∧ (sizeof_sockaddr_in ≤ 16 ∨ 16 < 0)) →
     - 2147483648 ≤ 16 ≤ 2147483647 →
     ∃ hnet, hsk_hnet (the_sock k_two hsk2) = Some hnet
             ∧ homa_sock_bind k_two hnet hsk2 (ntohs (sa_port addr_v6))
               = Some (- EINVAL, k_two)).
Proof.
  refine (homa_bind_failure_frame k_two hsk2 (the_sock k_two hsk2)
            addr_v6 16 (- EINVAL) k_two _ _).
  - vm_compute. reflexivity.
  - vm_compute. reflexivity.
Defined.

(** A length of -1 with the same address: the socket is bound to port
    9000. *)
Example homa_bind_minus_one :
  ∃ k', homa_bind k_two hsk2 addr_v6 (-1) = Some (0, k')
        ∧ homa_sock_find k' net0 9000 = Some hsk2.
Proof. eexists. vm_compute. split; reflexivity. Qed.

End ReachableInputs.

Section FailureInputs.
Local Existing Instance tiny_consts.

Lemma homa_socket_failure_clean_witness :
  socktab (after_socket k_full hsk3) = socktab k_full
  ∧ (∀ hnet port, homa_sock_find (after_socket k_full hsk3) hnet port
                  = homa_sock_find k_full hnet port)
  ∧ rpcs (after_socket k_full hsk3) = rpcs k_full
  ∧ - EADDRNOTAVAIL = - EADDRNOTAVAIL
  ∧ klog (after_socket k_full hsk3) = klog k_full ++ [EvPoolFree pool1]
  ∧ ∃ s', socks (after_socket k_full hsk3) !! hsk3 = Some s'
          ∧ shutdown s' = true ∧ hsk_homa s' = false.
Proof.
  refine (homa_socket_failure_clean sweep_fuel (inr pool1) k_full hsk3
            (zeroed_sock net0 AF_INET6 100) (- EADDRNOTAVAIL)
            (after_socket k_full hsk3) _ _ _ _ _).
  - vm_compute. reflexivity.
  - reflexivity.
  - apply unlinked_bucket_of.
    apply (bool_decide_eq_true_1 _ (Decision0 := unlinked_dec _ _)).
    vm_compute. reflexivity.
  - vm_compute. reflexivity.
  - vm_compute. discriminate.
Defined.

End FailureInputs.

(** * The sysctl target gen3_softirq_cores *)

Section Sysctl.
(** [N] stands for [NUM_GEN3_SOFTIRQ_CORES] and [nr] for [nr_cpu_ids]. *)
Variable N : nat.
Variable nr : nat.

Lemma softirq_cores_set_row_take values i row : ∀ n,
  (n ≤ N)%nat → length row = N → (i + N < length values)%nat →
  foldl (fun r j => <[j := default 0 (values !! (i + j + 1)%nat)]> r) row
    (seq 0 n)
  = take n (drop (S i) values) ++ drop n row.
Proof.
  induction n as [|n IH]; intros Hn Hrow Hlen; [by rewrite drop_0|].
  rewrite seq_S, foldl_app. simpl. rewrite IH by lia.
  assert (Hv : is_Some (values !! (i + n + 1)%nat))
    by (apply lookup_lt_is_Some; lia).
  destruct Hv as [v Hv]. rewrite Hv. simpl.
  assert (Hr : is_Some (row !! n)) by (apply lookup_lt_is_Some; lia).
  destruct Hr as [x Hx].
  rewrite (drop_S row x n Hx).
  rewrite insert_app_r_alt by (rewrite length_take, length_drop; lia).
  rewrite length_take, length_drop.
  replace (n - n `min` (length values - S i))%nat with 0%nat by lia. simpl.
  rewrite (take_S_r _ n v)
    by (rewrite lookup_drop; rewrite <- Hv; f_equal; lia).
  by rewrite <- app_assoc.
Qed.

Lemma softirq_cores_set_row_record pre c row tail old :
  length row = N → length old = N →
  softirq_cores_set_row N (pre ++ c :: row ++ tail) (length pre) old = row.
Proof.
  intros Hrow Hold. unfold softirq_cores_set_row.
  assert (length pre + N < length (pre ++ c :: row ++ tail))%nat
    by (rewrite !length_app; simpl; rewrite length_app; lia).
  rewrite softirq_cores_set_row_take by (done || lia).
  rewrite (drop_ge old) by lia. rewrite app_nil_r.
  replace (S (length pre)) with (length (pre ++ [c]))
    by (rewrite length_app; simpl; lia).
  replace (pre ++ c :: row ++ tail) with ((pre ++ [c]) ++ row ++ tail)
    by (by rewrite <- app_assoc).
  rewrite drop_app_length. rewrite <- Hrow. by rewrite take_app_length.
Qed.

Lemma softirq_cores_store_records : ∀ recs a n pre rest cores,
  length pre = (a * (N + 1))%nat →
  Forall (record_ok N) recs →
  records_end rest →
  length (pre ++ flat_records recs ++ rest) = ((a + n) * (N + 1))%nat →
  Forall (fun row => length row = N) cores →
  softirq_cores_store N
    ((fun r => (r * (N + 1))%nat) <$> seq a n)
    (pre ++ flat_records recs ++ rest) cores
  = apply_records recs cores.
Proof.
  induction recs as [|[c row] recs IH];
    intros a n pre rest cores Hpre Hrecs Hend Hlen Hcores.
  - simpl in *. destruct n as [|n]; [done|]. simpl.
    destruct Hend as [->|(c & rest' & -> & Hc)].
    { rewrite app_nil_r in Hlen. lia. }
    rewrite <- Hpre, list_lookup_middle by done.
    by rewrite (proj2 (Z.ltb_lt c 0) Hc).
  - apply Forall_cons in Hrecs as [[Hc Hrow] Hrecs]. simpl in Hc, Hrow.
    assert (Hv : pre ++ flat_records ((c, row) :: recs) ++ rest
                 = pre ++ c :: row ++ flat_records recs ++ rest)
      by (simpl; by rewrite <- app_assoc).
    rewrite Hv in *. clear Hv.
    rewrite length_app in Hlen. simpl in Hlen. rewrite !length_app in Hlen.
    destruct n as [|n]; [lia|]. simpl.
    rewrite <- Hpre, list_lookup_middle by done.
    rewrite (proj2 (Z.ltb_ge c 0)) by lia.
    case_bool_decide as Hin.
    + destruct (lookup_lt_is_Some_2 cores (Z.to_nat c) Hin) as [old Hold].
      rewrite Hold.
      assert (Hlo : length old = N)
        by (exact (Forall_lookup_1 (fun row => length row = N) cores _ _
                     Hcores Hold)).
      rewrite (softirq_cores_set_row_record pre c row _ old Hrow Hlo).
      replace (pre ++ c :: row ++ flat_records recs ++ rest)
        with ((pre ++ c :: row) ++ flat_records recs ++ rest)
        by (by rewrite <- app_assoc).
      apply IH.
      * rewrite length_app. simpl. lia.
      * done.
      * done.
      * rewrite !length_app. simpl. lia.
      * by apply Forall_insert.
    + rewrite lookup_ge_None_2; [done|lia].
Qed.

Lemma apply_records_rows : ∀ recs cores cores',
  Forall (record_ok N) recs →
  Forall (fun row => length row = N) cores →
  apply_records recs cores = Some cores' →
  length cores' = length cores
  ∧ Forall (fun row => length row = N) cores'.
Proof.
  induction recs as [|[c row] recs IH]; intros cores cores' Hrecs Hcores;
    simpl.
  - by intros [= <-].
  - apply Forall_cons in Hrecs as [[Hc Hrow] Hrecs]. simpl in Hc, Hrow.
    case_bool_decide; [|done]. intros Happ.
    apply IH in Happ as [Hlen Hrows]; [|done|by apply Forall_insert].
    by rewrite length_insert in Hlen.
Qed.

Lemma apply_records_is_Some : ∀ recs cores,
  Forall (record_ok N) recs →
  is_Some (apply_records recs cores)
  ↔ Forall (fun rec => rec.1 < Z.of_nat (length cores)) recs.
Proof.
  induction recs as [|[c row] recs IH]; intros cores Hrecs; simpl.
  - split; [by constructor|by eexists].
  - apply Forall_cons in Hrecs as [[Hc Hrow] Hrecs]. simpl in Hc, Hrow.
    rewrite Forall_cons. simpl. case_bool_decide as Hin.
    + rewrite IH by done. rewrite length_insert. split; [|tauto].
      intros ?. split; [lia|done].
    + split; [by intros [? [=]]|]. intros [? _]. lia.
Qed.

(** The row of a core is that of the last record that names it, and
    the row it had when no record names it. *)
Lemma apply_records_lookup : ∀ recs cores cores' (cpu : nat),
  Forall (record_ok N) recs →
  apply_records recs cores = Some cores' →
  (∀ pre row post,
     recs = pre ++ (Z.of_nat cpu, row) :: post →
     Forall (fun rec => rec.1 ≠ Z.of_nat cpu) post →
     cores' !! cpu = Some row)
  ∧ (Forall (fun rec => rec.1 ≠ Z.of_nat cpu) recs →
     cores' !! cpu = cores !! cpu).
Proof.
  induction recs as [|[c row] recs IH]; intros cores cores' cpu Hrecs; simpl.
  - intros [= <-]. split; [|done]. intros pre row post Heq.
    by destruct pre.
  - apply Forall_cons in Hrecs as [[Hc Hrow] Hrecs]. simpl in Hc, Hrow.
    case_bool_decide as Hin; [|done]. intros Happ.
    destruct (IH _ _ cpu Hrecs Happ) as [IHlast IHnone]. split.
    + intros pre row' post Heq Hpost. destruct pre as [|rec pre].
      * simpl in Heq. simplify_eq. rewrite IHnone by done.
        rewrite Nat2Z.id. apply list_lookup_insert_eq.
        by rewrite Nat2Z.id in Hin.
      * simpl in Heq. simplify_eq. by eapply IHlast.
    + intros Hnone. apply Forall_cons in Hnone as [Hne Hnone].
      simpl in Hne. rewrite IHnone by done.
      apply list_lookup_insert_ne. lia.
Qed.

Lemma core_records_ok_from : ∀ (rows : list (list Z)) (a : nat),
  Forall (fun row => length row = N) rows →
  Forall (record_ok N)
    (imap (fun i row => (Z.of_nat (a + i), row)) rows)
  ∧ length (flat_records
              (imap (fun i row => (Z.of_nat (a + i), row)) rows))
    = (length rows * (N + 1))%nat.
Proof.
  induction rows as [|row rows IH]; intros a Hrows.
  - split; [by constructor|done].
  - apply Forall_cons in Hrows as [Hrow Hrows].
    rewrite imap_cons. simpl.
    destruct (IH (S a) Hrows) as [IHok IHlen].
    assert (He : imap ((fun i row => (Z.of_nat (a + i), row)) ∘ S) rows
                 = imap (fun i row => (Z.of_nat (S a + i), row)) rows).
    { apply imap_ext. intros i x _. simpl. do 2 f_equal. lia. }
    rewrite He. split.
    + constructor; [|done]. split; simpl; [lia|done].
    + rewrite length_app, IHlen, Hrow. lia.
Qed.

Lemma softirq_cores_put_row row : ∀ n pre k m,
  (n ≤ length row)%nat → (n ≤ k)%nat →
  foldl (fun st j => softirq_cores_put (default 0 (row !! j)) st)
    (pre ++ replicate k None, length pre, m) (seq 0 n)
  = (pre ++ (Some <$> take n row) ++ replicate (k - n) None,
     (length pre + n)%nat, m + sizeof_int * Z.of_nat n).
Proof.
  induction n as [|n IH]; intros pre k m Hn Hk.
  - simpl. rewrite Nat.sub_0_r, Nat.add_0_r. do 2 f_equal. lia.
  - rewrite seq_S, foldl_app. simpl. rewrite IH by lia. simpl.
    destruct (lookup_lt_is_Some_2 row n) as [x Hx]; [lia|].
    rewrite Hx. simpl. rewrite (take_S_r row n x Hx).
    f_equal; [f_equal|lia]; [|lia].
    rewrite fmap_app. simpl.
    replace (k - n)%nat with (S (k - S n)) by lia. simpl.
    rewrite !app_assoc.
    rewrite insert_app_r_alt
      by (rewrite length_app, length_fmap, length_take; lia).
    rewrite length_app, length_fmap, length_take.
    replace (length pre + n - (length pre + n `min` length row))%nat
      with 0%nat by lia.
    simpl. by rewrite <- !app_assoc.
Qed.

Lemma softirq_cores_fetch_from : ∀ (rows front : list (list Z)) vals m,
  Forall (fun row => length row = N) rows →
  softirq_cores_fetch N (seq (length front) (length rows))
    (front ++ rows)
    (vals ++ replicate (length rows * (N + 1)) None, length vals, m)
  = Some (vals ++ (Some <$> flat_records
                     (imap (fun i row => (Z.of_nat (length front + i), row))
                        rows)),
          (length vals + length rows * (N + 1))%nat,
          m + sizeof_int * Z.of_nat (length rows * (N + 1))).
Proof.
  induction rows as [|row rows IH]; intros front vals m Hrows.
  - simpl. rewrite app_nil_r, Nat.add_0_r. do 3 f_equal. lia.
  - apply Forall_cons in Hrows as [Hrow Hrows].
    simpl length. cbn [seq softirq_cores_fetch].
    rewrite list_lookup_middle by done.
    assert (Hput : softirq_cores_put (Z.of_nat (length front))
              (vals ++ replicate (S (length rows) * (N + 1)) None,
               length vals, m)
            = ((vals ++ [Some (Z.of_nat (length front))])
               ++ replicate (N + length rows * (N + 1)) None,
               length (vals ++ [Some (Z.of_nat (length front))]),
               m + sizeof_int)).
    { unfold softirq_cores_put.
      replace (S (length rows) * (N + 1))%nat
        with (S (N + length rows * (N + 1))) by lia.
      simpl. rewrite insert_app_r_alt by lia.
      rewrite Nat.sub_diag. simpl. rewrite <- app_assoc. simpl.
      rewrite length_app. simpl. do 2 f_equal. lia. }
    rewrite Hput. rewrite softirq_cores_put_row by lia.
    rewrite (take_ge row N) by lia.
    replace (N + length rows * (N + 1) - N)%nat
      with (length rows * (N + 1))%nat by lia.
    rewrite app_assoc.
    replace (front ++ row :: rows) with ((front ++ [row]) ++ rows)
      by (by rewrite <- app_assoc).
    replace (S (length front)) with (length (front ++ [row]))
      by (rewrite length_app; simpl; lia).
    replace (length (vals ++ [Some (Z.of_nat (length front))]) + N)%nat
      with (length ((vals ++ [Some (Z.of_nat (length front))])
                    ++ (Some <$> row)))
      by (rewrite !length_app, length_fmap; simpl; lia).
    rewrite IH by done.
    rewrite imap_cons. cbn [flat_records]. rewrite Nat.add_0_r.
    assert (He : imap ((fun i row0 => (Z.of_nat (length front + i), row0))
                       ∘ S) rows
                 = imap (fun i row0 =>
                           (Z.of_nat (length (front ++ [row]) + i), row0))
                     rows).
    { apply imap_ext. intros i x _. simpl. rewrite length_app. simpl.
      do 2 f_equal. lia. }
    rewrite He. f_equal. f_equal; [f_equal|].
    + rewrite <- !app_assoc. simpl. by rewrite fmap_app.
    + rewrite !length_app, length_fmap. simpl. lia.
    + unfold sizeof_int. lia.
Qed.

Lemma softirq_cores_write_run e write cores result recs rest :
  kmalloc_ok e = true → write ≠ 0 →
  cores_ok N nr cores →
  proc_dointvec_write e (replicate (max_values N nr) (-1))
    (Z.of_nat (max_values N nr)) = (result, flat_records recs ++ rest) →
  Forall (record_ok N) recs → records_end rest →
  length (flat_records recs ++ rest) = max_values N nr →
  homa_sysctl_softirq_cores N nr e write cores
  = if result =? 0
    then cores' ← apply_records recs cores; Some (0, cores')
    else Some (result, cores).
Proof.
  intros Hk Hw [Hlen Hrows] Hproc Hrecs Hend Hvals.
  unfold homa_sysctl_softirq_cores. rewrite Hk. simpl.
  rewrite (proj2 (Z.eqb_neq write 0) Hw). simpl. rewrite Hproc.
  destruct (Z.eqb_spec result 0) as [->|Hres]; simpl; [|done].
  unfold softirq_cores_positions.
  pose proof (softirq_cores_store_records recs 0 nr [] rest cores
                eq_refl Hrecs Hend) as Hrun.
  simpl in Hrun. rewrite Hrun; [by destruct (apply_records recs cores)| |done].
  rewrite Hvals. unfold max_values. lia.
Qed.

(** X18: a write applies the records up to the first negative core id.
    When memory is found and [proc_dointvec] has left in the array a
    sequence of records, each a core id that is not negative followed by
    [NUM_GEN3_SOFTIRQ_CORES] values, ended by the end of the array or by
    a negative id: a result of [proc_dointvec] other than 0 is returned
    with every row as it was; after a result of 0, if every id names a
    core, the row of each core is that of the last record naming it,
    the rows of the cores that no record names are as before, and what
    follows the negative id is ignored; if some id names no core, the
    handler reaches outside the per-CPU variable. *)
Theorem homa_sysctl_softirq_cores_write e write cores result recs rest :
  kmalloc_ok e = true → write ≠ 0 →
  cores_ok N nr cores →
  proc_dointvec_write e (replicate (max_values N nr) (-1))
    (Z.of_nat (max_values N nr)) = (result, flat_records recs ++ rest) →
  Forall (record_ok N) recs → records_end rest →
  length (flat_records recs ++ rest) = max_values N nr →
  (result ≠ 0 →
   homa_sysctl_softirq_cores N nr e write cores = Some (result, cores))
  ∧ (result = 0 →
     (Forall (fun rec => rec.1 < Z.of_nat nr) recs →
      ∃ cores',
        homa_sysctl_softirq_cores N nr e write cores = Some (0, cores')
        ∧ cores_ok N nr cores'
        ∧ ∀ cpu : nat,
            (∀ pre row post,
               recs = pre ++ (Z.of_nat cpu, row) :: post →
               Forall (fun rec => rec.1 ≠ Z.of_nat cpu) post →
               cores' !! cpu = Some row)
            ∧ (Forall (fun rec => rec.1 ≠ Z.of_nat cpu) recs →
               cores' !! cpu = cores !! cpu))
     ∧ (¬ Forall (fun rec => rec.1 < Z.of_nat nr) recs →
        homa_sysctl_softirq_cores N nr e write cores = None)).
Proof.
  intros Hk Hw Hok Hproc Hrecs Hend Hvals.
  rewrite (softirq_cores_write_run e write cores result recs rest)
    by done.
  destruct Hok as [Hlen Hrows]. split.
  - intros Hres. by rewrite (proj2 (Z.eqb_neq result 0) Hres).
  - intros ->. simpl.
    pose proof (apply_records_is_Some recs cores Hrecs) as Hsome.
    rewrite Hlen in Hsome. split.
    + intros Hall. apply Hsome in Hall as [cores' Happ]. rewrite Happ.
      exists cores'. split; [done|].
      destruct (apply_records_rows _ _ _ Hrecs Hrows Happ) as [Hl Hr].
      split; [split; [congruence|done]|].
      intros cpu. by apply apply_records_lookup.
    + intros Hnot. destruct (apply_records recs cores) as [cores'|] eqn:Happ;
        [|done].
      destruct Hnot. apply Hsome. by eexists.
Qed.

(** X19: a read hands out one record for each core and nothing that
    was not written.  Without memory the handler returns [ENOMEM] before
    it calls anything.  Otherwise a read changes no row and passes to
    [proc_dointvec] an array in which every one of the [max_values]
    cells allocated has been written: for each core in turn its number
    followed by its row; the length passed is that of the whole array
    in bytes. *)
Theorem homa_sysctl_softirq_cores_read e cores :
  cores_ok N nr cores →
  (kmalloc_ok e = false →
   ∀ write, homa_sysctl_softirq_cores N nr e write cores
            = Some (- ENOMEM, cores))
  ∧ (kmalloc_ok e = true →
     homa_sysctl_softirq_cores N nr e 0 cores
     = Some (proc_dointvec_read e
               (Some <$> flat_records (core_records cores))
               (sizeof_int * Z.of_nat (max_values N nr)),
             cores))
  ∧ length (flat_records (core_records cores)) = max_values N nr
  ∧ Forall (record_ok N) (core_records cores).
Proof.
  intros [Hlen Hrows].
  destruct (core_records_ok_from cores 0 Hrows) as [Hok Hflat].
  split; [|split; [|split]].
  - intros Hk write. unfold homa_sysctl_softirq_cores. by rewrite Hk.
  - intros Hk. unfold homa_sysctl_softirq_cores. rewrite Hk. simpl.
    pose proof (softirq_cores_fetch_from cores [] [] 0 Hrows) as Hrun.
    simpl in Hrun. rewrite Hlen in Hrun.
    replace (nr * (N + 1))%nat with (max_values N nr) in Hrun
      by (unfold max_values; lia).
    rewrite Hrun. simpl. done.
  - unfold core_records. simpl in Hflat. rewrite Hflat, Hlen.
    unfold max_values. lia.
  - exact Hok.
Qed.

Lemma softirq_cores_store_changes : ∀ positions values cores cores',
  softirq_cores_store N positions values cores = Some cores' →
  ∀ cpu : nat, cores' !! cpu ≠ cores !! cpu →
  ∃ i c, i ∈ positions ∧ values !! i = Some c ∧ 0 ≤ c
         ∧ c = Z.of_nat cpu.
Proof.
  induction positions as [|i rest IH]; intros values cores cores'; simpl.
  { intros [= <-] cpu Hne. done. }
  destruct (values !! i) as [c|] eqn:Hc; [|done].
  destruct (Z.ltb_spec c 0) as [Hneg|Hpos].
  { intros [= <-] cpu Hne. done. }
  destruct (cores !! Z.to_nat c) as [row|] eqn:Hrow; [|done].
  intros Hstore cpu Hne.
  destruct (decide (cores' !! cpu
                    = <[Z.to_nat c := softirq_cores_set_row N values i row]>
                        cores !! cpu)) as [Heq|Hneq].
  - exists i, c. split; [left|]. split; [done|]. split; [done|].
    destruct (decide (Z.to_nat c = cpu)) as [<-|Hcpu]; [lia|].
    rewrite list_lookup_insert_ne in Heq by done. done.
  - destruct (IH _ _ _ Hstore cpu Hneq) as (j & d & Hj & Hd & H0 & Hcpu).
    exists j, d. split; [by right|done].
Qed.

(** X20: a write reaches only the cores named in the first quarter of
    the array.  On a write the handler passes [max_values], the number
    of integers in the array, as [maxlen], which [proc_dointvec] takes
    in bytes.  If [proc_dointvec] stores no more integers than fit in
    [maxlen] bytes and leaves the rest of the array as it was, then the
    row of a core changes only if a record that starts within the first
    quarter of the array names the core. *)
Theorem homa_sysctl_softirq_cores_write_reach e write cores parsed result
    cores' :
  kmalloc_ok e = true → write ≠ 0 →
  proc_dointvec_write e (replicate (max_values N nr) (-1))
    (Z.of_nat (max_values N nr))
  = (result,
     parsed ++ replicate (max_values N nr - length parsed) (-1)) →
  Z.of_nat (length parsed) ≤ Z.of_nat (max_values N nr) / sizeof_int →
  homa_sysctl_softirq_cores N nr e write cores = Some (result, cores') →
  ∀ cpu : nat, cores' !! cpu ≠ cores !! cpu →
    ∃ r : nat,
      (r < nr)%nat
      ∧ parsed !! (r * (N + 1))%nat = Some (Z.of_nat cpu)
      ∧ sizeof_int * Z.of_nat (r * (N + 1)) < Z.of_nat (max_values N nr).
Proof.
  intros Hk Hw Hproc Hlen. unfold homa_sysctl_softirq_cores.
  rewrite Hk. simpl. rewrite (proj2 (Z.eqb_neq write 0) Hw). simpl.
  rewrite Hproc.
  destruct (Z.eqb_spec result 0) as [->|Hres]; simpl.
  2: { intros [= <-] cpu Hne. done. }
  destruct (softirq_cores_store _ _ _ _) as [cs|] eqn:Hstore; [|done].
  simpl. intros [= <-] cpu Hne.
  destruct (softirq_cores_store_changes _ _ _ _ Hstore cpu Hne)
    as (i & c & Hi & Hc & H0 & ->).
  unfold softirq_cores_positions in Hi.
  apply list_elem_of_fmap in Hi as (r & -> & Hr).
  apply elem_of_seq in Hr.
  destruct (decide (r * (N + 1) < length parsed)%nat) as [Hin|Hout].
  - rewrite lookup_app_l in Hc by done.
    exists r. split; [lia|]. split; [done|].
    assert (sizeof_int * (Z.of_nat (max_values N nr) / sizeof_int)
            ≤ Z.of_nat (max_values N nr))
      by (apply Z.mul_div_le; unfold sizeof_int; lia).
    unfold sizeof_int in *. lia.
  - rewrite lookup_app_r in Hc by lia.
    apply lookup_replicate in Hc as [Hc _]. lia.
Qed.

End Sysctl.

Section SysctlInputs.

Lemma cores_ok_cores3 : cores_ok 2 3 cores3.
Proof. split; [done|]. by repeat constructor. Qed.

Lemma homa_sysctl_softirq_cores_write_witness :
  (0 ≠ 0 →
   homa_sysctl_softirq_cores 2 3 (sysctl_env_parsed [1; 7; 8]) 1 cores3
   = Some (0, cores3))
  ∧ (0 = 0 →
     (Forall (fun rec => rec.1 < Z.of_nat 3) [(1, [7; 8])] →
      ∃ cores',
        homa_sysctl_softirq_cores 2 3 (sysctl_env_parsed [1; 7; 8]) 1 cores3
        = Some (0, cores')
        ∧ cores_ok 2 3 cores'
        ∧ ∀ cpu : nat,
            (∀ pre row post,
               [(1, [7; 8])] = pre ++ (Z.of_nat cpu, row) :: post →
               Forall (fun rec => rec.1 ≠ Z.of_nat cpu) post →
               cores' !! cpu = Some row)
            ∧ (Forall (fun rec => rec.1 ≠ Z.of_nat cpu) [(1, [7; 8])] →
               cores' !! cpu = cores3 !! cpu))
     ∧ (¬ Forall (fun rec => rec.1 < Z.of_nat 3) [(1, [7; 8])] →
        homa_sysctl_softirq_cores 2 3 (sysctl_env_parsed [1; 7; 8]) 1 cores3
        = None)).
Proof.
  refine (homa_sysctl_softirq_cores_write 2 3 (sysctl_env_parsed [1; 7; 8])
            1 cores3 0 [(1, [7; 8])] (replicate 6 (-1)) _ _ _ _ _ _ _).
  - reflexivity.
  - lia.
  - apply cores_ok_cores3.
  - vm_compute. reflexivity.
  - repeat constructor; simpl; lia.
  - right. eexists _, _. split; [reflexivity|lia].
  - reflexivity.
Defined.

Lemma homa_sysctl_softirq_cores_read_witness :
  (kmalloc_ok (sysctl_env_parsed []) = false →
   ∀ write, homa_sysctl_softirq_cores 2 3 (sysctl_env_parsed []) write cores3
            = Some (- ENOMEM, cores3))
  ∧ (kmalloc_ok (sysctl_env_parsed []) = true →
     homa_sysctl_softirq_cores 2 3 (sysctl_env_parsed []) 0 cores3
     = Some (proc_dointvec_read (sysctl_env_parsed [])
               (Some <$> flat_records (core_records cores3))
               (sizeof_int * Z.of_nat (max_values 2 3)),
             cores3))
  ∧ length (flat_records (core_records cores3)) = max_values 2 3
  ∧ Forall (record_ok 2) (core_records cores3).
Proof.
  refine (homa_sysctl_softirq_cores_read 2 3 (sysctl_env_parsed []) cores3 _).
  apply cores_ok_cores3.
Defined.

Lemma homa_sysctl_softirq_cores_write_reach_witness :
  ∃ r : nat,
    (r < 3)%nat
    ∧ [0; 7] !! (r * (2 + 1))%nat = Some (Z.of_nat 0)
    ∧ sizeof_int * Z.of_nat (r * (2 + 1)) < Z.of_nat (max_values 2 3).
Proof.
  refine (homa_sysctl_softirq_cores_write_reach 2 3
            (sysctl_env_bytes [0; 7; 8; 1; 9; 9]) 1 cores3 [0; 7] 0
            [[7; -1]; [1; 1]; [2; 2]] _ _ _ _ _ 0%nat _).
  - reflexivity.
  - lia.
  - vm_compute. reflexivity.
  - vm_compute. discriminate.
  - vm_compute. reflexivity.
  - vm_compute. discriminate.
Defined.

(** "1 7 8 1 9 9 -1 4 4": the second record for core 1 wins, and what
    follows the negative id is ignored; a record for core 3, which does
    not exist, gives no result. *)
Example homa_sysctl_softirq_cores_last_wins :
  homa_sysctl_softirq_cores 2 3
    (sysctl_env_parsed [1; 7; 8; 1; 9; 9; -1; 4; 4]) 1 cores3
  = Some (0, [[0; 0]; [9; 9]; [2; 2]])
  ∧ homa_sysctl_softirq_cores 2 3 (sysctl_env_parsed [3; 7; 8]) 1 cores3
    = None.
Proof. split; vm_compute; reflexivity. Qed.

(** "0 7 8 1 9 9" written to three cores with two values each: the
    array has nine integers, [maxlen] is 9, two integers are stored, and
    core 0 gets the row 7, -1; core 1 keeps its row. *)
Example homa_sysctl_softirq_cores_truncated :
  homa_sysctl_softirq_cores 2 3 (sysctl_env_bytes [0; 7; 8; 1; 9; 9]) 1
    cores3
  = Some (0, [[7; -1]; [1; 1]; [2; 2]]).
Proof. vm_compute. reflexivity. Qed.

End SysctlInputs.
